(** * gift2json: the GIFT parser and exporter of src/gift2json.js

    A shallow embedding of the parser ([parseGift], [parseQuestion] and their
    helpers) and of the exporter ([exportGift], [writeOne] and their helpers),
    followed by the properties of the specification that were settled on it.

    Conventions of the embedding.

    - A JavaScript string is a sequence of UTF-16 code units.  The development
      covers the code units below 256, written [ascii]; a string is a
      [list ascii] (string literals are coerced).  On that range the white
      space of [trim] and of the regular expression class [\s] is the seven
      characters of [isSpace].
    - [toUpperCase] and [toLowerCase] are only ever compared with words made
      of ASCII letters.  They are modelled on the ASCII letters; below 256 no
      other code unit maps to an ASCII letter (the sharp s becomes [SS], which
      occurs in none of the words compared with).
    - A JavaScript number is an IEEE-754 double.  Here a number is [NaN], an
      infinity or an exact rational ([Qc]): arithmetic is exact, rounding and
      the negative zero are left out.
    - A thrown [Error] is a value of [error]; a function that can throw
      returns a [result].
    - A JavaScript object is an association list from field names to values,
      in insertion order.
    - A regular expression of the source is a function written by hand; the
      comment of the function quotes the expression.
    - [parseQuestion] is one long function in the source.  Here its sections
      are definitions of their own ([separateComments], [takeName],
      [findBraces], [splitGeneralFeedback], [determineQtype], one definition
      per case of the [switch]), and [parseBody] is the part of
      [parseQuestion] from the search for the braces on.
    - The exporter is given twice: on values ([exportGift]), and on a store
      of objects ([exportGiftAt]), where an object is a cell at an address
      and holds the addresses of the objects in it, for the statement that
      the caller's objects are left as they were. *)

From Stdlib Require Import Ascii String List ZArith QArith Qcanon Lia Bool.
From Stdlib Require Import DecimalString.
From stdpp Require Import base option list gmap.
Import ListNotations.

Open Scope string_scope.
Open Scope Z_scope.
Open Scope list_scope.

(** ** Strings *)

Definition str := list ascii.
Coercion list_ascii_of_string : string >-> list.

Module Str.

(** White space of [String.prototype.trim] and of [\s], below 256:
    TAB, LF, VT, FF, CR, SP and NBSP. *)
Definition isSpace (c : ascii) : bool :=
  let n := nat_of_ascii c in
  ((9 <=? n)%nat && (n <=? 13)%nat) || (n =? 32)%nat || (n =? 160)%nat.

Definition isDigit (c : ascii) : bool :=
  let n := nat_of_ascii c in (48 <=? n)%nat && (n <=? 57)%nat.

(** Control characters of the class [\x00-\x1F\x7F]. *)
Definition isCntrl (c : ascii) : bool :=
  let n := nat_of_ascii c in (n <=? 31)%nat || (n =? 127)%nat.

Definition isEmpty (s : str) : bool :=
  match s with [] => true | _ :: _ => false end.

Fixpoint equal (s t : str) : bool :=
  match s, t with
  | [], [] => true
  | c :: s', d :: t' => Ascii.eqb c d && equal s' t'
  | _, _ => false
  end.

(** [s.startsWith(pat)] *)
Fixpoint startsWith (s pat : str) {struct pat} : bool :=
  match pat, s with
  | [], _ => true
  | p :: pat', c :: s' => Ascii.eqb p c && startsWith s' pat'
  | _ :: _, [] => false
  end.

Fixpoint indexOfAux (pat s : str) (i : Z) : Z :=
  match s with
  | [] => if startsWith [] pat then i else -1
  | _ :: s' => if startsWith s pat then i else indexOfAux pat s' (i + 1)
  end.

(** [s.indexOf(pat)] and [s.indexOf(pat, from)]; -1 when absent. *)
Definition indexOf (s pat : str) : Z := indexOfAux pat s 0.

Definition indexOfFrom (s pat : str) (from : Z) : Z :=
  let k := Z.min (Z.max from 0) (Z.of_nat (length s)) in
  indexOfAux pat (drop (Z.to_nat k) s) k.

Fixpoint lastIndexOfAux (pat s : str) (i last : Z) : Z :=
  match s with
  | [] => if startsWith [] pat then i else last
  | _ :: s' => lastIndexOfAux pat s' (i + 1) (if startsWith s pat then i else last)
  end.

(** [s.lastIndexOf(pat)]; -1 when absent. *)
Definition lastIndexOf (s pat : str) : Z := lastIndexOfAux pat s 0 (-1).

(** [s.includes(pat)] *)
Definition includes (s pat : str) : bool := negb (indexOf s pat =? -1).

(** A relative index of [slice]: negative counts from the end, then clamped. *)
Definition sliceIdx (len k : Z) : Z :=
  if k <? 0 then Z.max (len + k) 0 else Z.min k len.

(** [s.slice(a, b)] and [s.slice(a)] *)
Definition slice (s : str) (a b : Z) : str :=
  let len := Z.of_nat (length s) in
  let f := sliceIdx len a in
  let t := sliceIdx len b in
  take (Z.to_nat (t - f)) (drop (Z.to_nat f) s).

Definition sliceFrom (s : str) (a : Z) : str :=
  slice s a (Z.of_nat (length s)).

Fixpoint trimStart (s : str) : str :=
  match s with
  | c :: s' => if isSpace c then trimStart s' else s
  | [] => []
  end.

Definition trimEnd (s : str) : str := rev (trimStart (rev s)).

(** [s.trim()] *)
Definition trim (s : str) : str := trimEnd (trimStart s).

(** Global replacement of a literal, non-empty pattern, scanning left to right
    over non-overlapping matches: [s.replace(/pat/g, rep)] for a pattern
    without operators and a replacement without [$].  [skip] counts the
    characters of the current match that remain to be dropped. *)
Fixpoint replaceAux (pat rep : str) (skip : nat) (s : str) : str :=
  match s with
  | [] => []
  | c :: s' =>
      match skip with
      | S k => replaceAux pat rep k s'
      | O => if startsWith s pat
             then rep ++ replaceAux pat rep (length pat - 1)%nat s'
             else c :: replaceAux pat rep O s'
      end
  end.

Definition replaceAll (s pat rep : str) : str := replaceAux pat rep O s.

(** [s.split(sep)] for a non-empty separator; [cur] is the current piece,
    reversed. *)
Fixpoint splitAux (sep : str) (skip : nat) (cur : str) (s : str) : list str :=
  match s with
  | [] => [rev cur]
  | c :: s' =>
      match skip with
      | S k => splitAux sep k cur s'
      | O => if startsWith s sep
             then rev cur :: splitAux sep (length sep - 1)%nat [] s'
             else splitAux sep O (c :: cur) s'
      end
  end.

Definition split (s sep : str) : list str := splitAux sep O [] s.

(** [s.split(sep, limit)] *)
Definition splitLimit (s sep : str) (limit : nat) : list str :=
  take limit (split s sep).

(** [l.join(sep)] *)
Fixpoint join (sep : str) (l : list str) : str :=
  match l with
  | [] => []
  | [x] => x
  | x :: l' => x ++ sep ++ join sep l'
  end.

Definition upper (c : ascii) : ascii :=
  let n := nat_of_ascii c in
  if (97 <=? n)%nat && (n <=? 122)%nat then ascii_of_nat (n - 32) else c.

Definition lower (c : ascii) : ascii :=
  let n := nat_of_ascii c in
  if (65 <=? n)%nat && (n <=? 90)%nat then ascii_of_nat (n + 32) else c.

Definition toUpperCase (s : str) : str := map upper s.
Definition toLowerCase (s : str) : str := map lower s.

(** [/^\s*$/.test(s)] *)
Definition isBlank (s : str) : bool := forallb isSpace s.

(** [l.includes(s)] on an array of strings. *)
Definition inList (l : list str) (s : str) : bool := existsb (equal s) l.

End Str.

Import Str.

(** ** Numbers *)

Inductive number :=
| NaN
| Inf (negative : bool)
| Fin (q : Qc).

Module Num.

Definition ofZ (z : Z) : number := Fin (Q2Qc (inject_Z z)).

Definition isFinite (n : number) : bool :=
  match n with Fin _ => true | _ => false end.

Definition isNeg (q : Qc) : bool :=
  match (q ?= 0)%Qc with Lt => true | _ => false end.

Definition isZero (q : Qc) : bool :=
  match (q ?= 0)%Qc with Eq => true | _ => false end.

Definition neg (n : number) : number :=
  match n with
  | NaN => NaN
  | Inf s => Inf (negb s)
  | Fin q => Fin (- q)%Qc
  end.

Definition add (a b : number) : number :=
  match a, b with
  | NaN, _ | _, NaN => NaN
  | Inf s, Inf t => if Bool.eqb s t then Inf s else NaN
  | Inf s, Fin _ | Fin _, Inf s => Inf s
  | Fin p, Fin q => Fin (p + q)%Qc
  end.

Definition sub (a b : number) : number := add a (neg b).

Definition mul (a b : number) : number :=
  match a, b with
  | NaN, _ | _, NaN => NaN
  | Inf s, Inf t => Inf (xorb s t)
  | Inf s, Fin q | Fin q, Inf s => if isZero q then NaN else Inf (xorb s (isNeg q))
  | Fin p, Fin q => Fin (p * q)%Qc
  end.

Definition div (a b : number) : number :=
  match a, b with
  | NaN, _ | _, NaN => NaN
  | Inf _, Inf _ => NaN
  | Inf s, Fin q => Inf (xorb s (isNeg q))
  | Fin _, Inf _ => Fin 0%Qc
  | Fin p, Fin q =>
      if isZero q then (if isZero p then NaN else Inf (isNeg p))
      else Fin (p / q)%Qc
  end.

(** [x === y] on numbers. *)
Definition eqb (a b : number) : bool :=
  match a, b with
  | Fin p, Fin q => isZero (p - q)%Qc
  | Inf s, Inf t => Bool.eqb s t
  | _, _ => false
  end.

(** *** Reading a decimal literal *)

Fixpoint spanDigits (s : str) : str * str :=
  match s with
  | c :: s' =>
      if isDigit c then let (d, r) := spanDigits s' in (c :: d, r) else ([], s)
  | [] => ([], [])
  end.

Definition digitsValue (ds : str) : Z :=
  fold_left (fun acc c => acc * 10 + (Z.of_nat (nat_of_ascii c) - 48)) ds 0.

(** The rational [m * 10 ^ e]. *)
Definition decimalValue (m e : Z) : Qc :=
  if 0 <=? e then Q2Qc (inject_Z (m * 10 ^ e))
  else Q2Qc (m # Z.to_pos (10 ^ (- e))).

(** An optional exponent part [e+12]; absent or incomplete, nothing is read. *)
Definition exponentPart (s : str) : Z * str :=
  match s with
  | c :: s1 =>
      if Ascii.eqb c "e" || Ascii.eqb c "E" then
        let (negative, s2) :=
          match s1 with
          | d :: t => if Ascii.eqb d "+" then (false, t)
                      else if Ascii.eqb d "-" then (true, t) else (false, s1)
          | [] => (false, s1)
          end in
        let (ds, rest) := spanDigits s2 in
        if isEmpty ds then (0, s)
        else (if negative then - digitsValue ds else digitsValue ds, rest)
      else (0, s)
  | [] => (0, s)
  end.

Definition finishDecimal (ip fp r : str) : option (number * str) :=
  let (e, rest) := exponentPart r in
  Some (Fin (decimalValue (digitsValue (ip ++ fp)) (e - Z.of_nat (length fp))), rest).

(** The longest prefix that is a [StrUnsignedDecimalLiteral], with its value. *)
Definition unsignedDecimal (s : str) : option (number * str) :=
  if startsWith s "Infinity" then Some (Inf false, drop 8 s) else
  let (ip, s1) := spanDigits s in
  match s1 with
  | c :: t =>
      if Ascii.eqb c "." then
        let (fp, r) := spanDigits t in
        if isEmpty ip && isEmpty fp then None else finishDecimal ip fp r
      else if isEmpty ip then None else finishDecimal ip [] s1
  | [] => if isEmpty ip then None else finishDecimal ip [] s1
  end.

Definition strDecimalLiteral (s : str) : option (number * str) :=
  match s with
  | c :: t =>
      if Ascii.eqb c "+" then unsignedDecimal t
      else if Ascii.eqb c "-"
           then option_map (fun r => (neg (fst r), snd r)) (unsignedDecimal t)
           else unsignedDecimal s
  | [] => None
  end.

(** The global [parseFloat]. *)
Definition parseFloat (s : str) : number :=
  match strDecimalLiteral (trimStart s) with
  | Some (n, _) => n
  | None => NaN
  end.

(** Digits of a literal in base 2, 8 or 16. *)
Definition digitIn (base : Z) (c : ascii) : option Z :=
  let n := Z.of_nat (nat_of_ascii c) in
  let d := if (48 <=? n) && (n <=? 57) then n - 48
           else if (97 <=? n) && (n <=? 102) then n - 87
           else if (65 <=? n) && (n <=? 70) then n - 55
           else base in
  if d <? base then Some d else None.

Fixpoint radixValue (base : Z) (acc : Z) (s : str) : option Z :=
  match s with
  | [] => Some acc
  | c :: s' =>
      match digitIn base c with
      | Some d => radixValue base (acc * base + d) s'
      | None => None
      end
  end.

Definition nonDecimal (s : str) : option number :=
  match s with
  | z :: x :: ds =>
      if Ascii.eqb z "0" && negb (isEmpty ds) then
        let base := if Ascii.eqb (lower x) "x" then 16
                    else if Ascii.eqb (lower x) "o" then 8
                    else if Ascii.eqb (lower x) "b" then 2 else 0 in
        if base =? 0 then None else option_map ofZ (radixValue base 0 ds)
      else None
  | _ => None
  end.

(** [Number(s)] on a string: the whole trimmed string must be a literal. *)
Definition ofString (s : str) : number :=
  let t := trim s in
  if isEmpty t then ofZ 0 else
  match nonDecimal t with
  | Some n => n
  | None =>
      match strDecimalLiteral t with
      | Some (n, []) => n
      | _ => NaN
      end
  end.

(** *** Printing *)

Definition digitChar (d : Z) : ascii := ascii_of_nat (48 + Z.to_nat d).

(** The decimal digits of a natural number. *)
Definition natDigits (n : Z) : str :=
  list_ascii_of_string (DecimalString.NilZero.string_of_uint (N.to_uint (Z.to_N n))).

(** Long division: the digits of [r / d] after the point. *)
Fixpoint fracDigits (fuel : nat) (r d : Z) : str :=
  match fuel with
  | O => []
  | S f => if r =? 0 then []
           else digitChar (r * 10 / d) :: fracDigits f (r * 10 mod d) d
  end.

Fixpoint dropZeros (s : str) : str :=
  match s with
  | c :: s' => if Ascii.eqb c "0" then dropZeros s' else s
  | [] => []
  end.

Definition zeros (n : Z) : str := repeat "0"%char (Z.to_nat n).

(** [Number::toString] of a positive rational: the significant digits [ds]
    and the exponent [n] with value [0.ds * 10 ^ n], laid out as ECMAScript
    does.  Exact for every number with a finite decimal expansion; the
    expansion of another rational is cut after as many digits as its
    denominator has bits. *)
Definition positiveToString (q : Qc) : str :=
  let num := Qnum (this q) in
  let den := Zpos (Qden (this q)) in
  let ip := num / den in
  let fp := fracDigits (Pos.size_nat (Qden (this q))) (num mod den) den in
  let n := if ip =? 0
           then - Z.of_nat (length fp - length (dropZeros fp))
           else Z.of_nat (length (natDigits ip)) in
  let all := if ip =? 0 then dropZeros fp else natDigits ip ++ fp in
  let ds := rev (dropZeros (rev all)) in
  let k := Z.of_nat (length ds) in
  if (k <=? n) && (n <=? 21) then ds ++ zeros (n - k)
  else if (0 <? n) && (n <=? 21)
  then take (Z.to_nat n) ds ++ "." ++ drop (Z.to_nat n) ds
  else if (-6 <? n) && (n <=? 0) then "0." ++ zeros (- n) ++ ds
  else
    let e := n - 1 in
    let exponent := (if e <? 0 then "-" else "+") ++ natDigits (Z.abs e) in
    if k =? 1 then ds ++ "e" ++ exponent
    else take 1 ds ++ "." ++ drop 1 ds ++ "e" ++ exponent.

(** [String(n)] *)
Definition toString (n : number) : str :=
  match n with
  | NaN => "NaN"
  | Inf false => "Infinity"
  | Inf true => "-Infinity"
  | Fin q =>
      if isZero q then "0"
      else if isNeg q then "-" ++ positiveToString (- q)%Qc
      else positiveToString q
  end.

End Num.

(** ** Values *)

#[warnings="-register-all"]
Inductive value :=
| VUndef
| VNull
| VBool (b : bool)
| VNum (n : number)
| VStr (s : str)
| VArr (items : list value)
| VObj (fields : list (str * value)).

Module Js.

(** Truthiness: [if (v)], [!v], [v || w], [v && w]. *)
Definition truthy (v : value) : bool :=
  match v with
  | VUndef | VNull => false
  | VBool b => b
  | VNum NaN => false
  | VNum (Inf _) => true
  | VNum (Fin q) => negb (Num.isZero q)
  | VStr s => negb (isEmpty s)
  | VArr _ | VObj _ => true
  end.

(** [v || w] *)
Definition or (v w : value) : value := if truthy v then v else w.

(** [v ?? w] *)
Definition nullish (v w : value) : value :=
  match v with VUndef | VNull => w | _ => v end.

(** [String(v)] and the conversion of a template literal. *)
Fixpoint toString (v : value) : str :=
  match v with
  | VUndef => "undefined"
  | VNull => "null"
  | VBool true => "true"
  | VBool false => "false"
  | VNum n => Num.toString n
  | VStr s => s
  | VArr l =>
      Str.join ","
        (map (fun x => match x with VUndef | VNull => [] | _ => toString x end) l)
  | VObj _ => "[object Object]"
  end.

(** [Number(v)] and the conversion of an operand of [*]. *)
Definition toNumber (v : value) : number :=
  match v with
  | VUndef => NaN
  | VNull => Num.ofZ 0
  | VBool true => Num.ofZ 1
  | VBool false => Num.ofZ 0
  | VNum n => n
  | VStr s => Num.ofString s
  | VArr _ => Num.ofString (toString v)
  | VObj _ => NaN
  end.

(** [v === s] for a string [s], and [v === n] for a number [n]. *)
Definition isStr (v : value) (s : str) : bool :=
  match v with VStr t => Str.equal t s | _ => false end.

Definition isNum (v : value) (n : number) : bool :=
  match v with VNum m => Num.eqb m n | _ => false end.

(** [v === w] for two values that are not the same object: the exporter
    compares values read from different fields of a copy made by
    [JSON.parse], which are equal only as primitive values. *)
Definition strictEq (v w : value) : bool :=
  match v, w with
  | VUndef, VUndef | VNull, VNull => true
  | VBool a, VBool b => Bool.eqb a b
  | VNum a, VNum b => Num.eqb a b
  | VStr a, VStr b => Str.equal a b
  | _, _ => false
  end.

Fixpoint lookup (fields : list (str * value)) (k : str) : value :=
  match fields with
  | [] => VUndef
  | (k', v) :: rest => if Str.equal k' k then v else lookup rest k
  end.

(** [v.k] on a value that is neither [null] nor [undefined], for the field
    names this program reads (none of them is a property of a string, a
    number, a boolean or an array). *)
Definition get (v : value) (k : str) : value :=
  match v with
  | VObj fields => lookup fields k
  | _ => VUndef
  end.

(** [v?.k] *)
Definition getOpt (v : value) (k : str) : value :=
  match v with VUndef | VNull => VUndef | _ => get v k end.

Fixpoint assign (fields : list (str * value)) (k : str) (x : value)
  : list (str * value) :=
  match fields with
  | [] => [(k, x)]
  | (k', v) :: rest =>
      if Str.equal k' k then (k', x) :: rest else (k', v) :: assign rest k x
  end.

(** [q.k = x] on an object. *)
Definition set (q : value) (k : str) (x : value) : value :=
  match q with
  | VObj fields => VObj (assign fields k x)
  | _ => q
  end.

(** [JSON.parse(JSON.stringify(v))] below the top level: a field holding
    [undefined] is dropped, an [undefined] array element and a number that is
    not finite become [null]. *)
Fixpoint jsonCopy (v : value) : value :=
  match v with
  | VUndef => VNull
  | VNum (Fin q) => VNum (Fin q)
  | VNum _ => VNull
  | VArr l => VArr (map jsonCopy l)
  | VObj fields =>
      VObj ((fix copyFields (fs : list (str * value)) : list (str * value) :=
               match fs with
               | [] => []
               | (k, VUndef) :: fs' => copyFields fs'
               | (k, x) :: fs' => (k, jsonCopy x) :: copyFields fs'
               end) fields)
  | _ => v
  end.

End Js.

(** ** Utilities (the escaper) *)

Definition backslash : ascii := "\"%char.
Definition LF : ascii := "010"%char.
Definition CR : ascii := "013"%char.
Definition TAB : ascii := "009"%char.

(** The table [ESC_PRE], in the order of its entries. *)
Definition ESC_PRE : list (str * str) :=
  [ ("\:" : str, "&&058;" : str);
    ("\#" : str, "&&035;" : str);
    ("\=" : str, "&&061;" : str);
    ("\{" : str, "&&123;" : str);
    ("\}" : str, "&&125;" : str);
    ("\~" : str, "&&126;" : str);
    ("\n" : str, "&&010" : str) ].

(** [ESC_POST]: each placeholder back to its key without the first character. *)
Definition ESC_POST : list (str * str) :=
  map (fun kv => (snd kv, sliceFrom (fst kv) 1)) ESC_PRE.

(** A [for] loop of global replacements over the entries of a table. *)
Definition replaceEach (table : list (str * str)) (s : str) : str :=
  fold_left (fun acc kv => replaceAll acc (fst kv) (snd kv)) table s.

Definition escapedcharPre (s : str) : str :=
  if isEmpty s then s else
  let s := replaceAll s "\\" "&&092;" in
  let s := replaceEach ESC_PRE s in
  replaceAll s "&&092;" [backslash].

Definition escapedcharPost (s : str) : str :=
  if isEmpty s then s else replaceEach ESC_POST s.

(** [repchar] on a string ([null] and [undefined] are handled where the
    exporter calls it, see [repcharV]). *)
Definition repchar (text : str) : str :=
  let s := replaceAll text [backslash] "\\" in
  let s := replaceAll s "#" "\#" in
  let s := replaceAll s "=" "\=" in
  let s := replaceAll s "~" "\~" in
  let s := replaceAll s "{" "\{" in
  let s := replaceAll s "}" "\}" in
  let s := replaceAll s ":" "\:" in
  let s := replaceAll s [LF] "\n" in
  replaceAll s [CR] [].

(** The characters of the class of [escapeRegExp]: the syntax characters of
    a regular expression. *)
Definition isSyntaxChar (c : ascii) : bool :=
  existsb (Ascii.eqb c) (".*+?^${}()|[]\" : str).

(** [escapeRegExp]: a backslash before each syntax character. *)
Definition escapeRegExp (s : str) : str :=
  flat_map (fun c => if isSyntaxChar c then [backslash; c] else [c]) s.

(** The text that a pattern matches when the pattern is made of plain
    characters and of escaped syntax characters only; [None] for a pattern
    with an operator, or with another escape. *)
Fixpoint literalPattern (p : str) : option str :=
  match p with
  | [] => Some []
  | c :: p' =>
      if Ascii.eqb c backslash then
        match p' with
        | d :: p'' =>
            if isSyntaxChar d then option_map (cons d) (literalPattern p'')
            else None
        | [] => None
        end
      else if isSyntaxChar c then None
      else option_map (cons c) (literalPattern p')
  end.

(** ** Errors *)

(** The [Error] values the program throws, one constructor per [throw]; the
    last two are the errors the language itself raises ([TypeError] on a
    property of [null] or on a value that cannot be iterated, [SyntaxError]
    from [JSON.parse]). *)
Inductive error :=
| BraceError (text : str)
| MultichoiceTooFew
| MatchTooFew
| MatchNoArrow
| ShortanswerEmpty
| NumericalEmpty
| NumericalRange
| NumericalTolerance
| NumericalNumber
| UnhandledQtype
| UnsupportedQtype (qtype : str)
| TypeError
| SyntaxError.

Definition message (e : error) : str :=
  match e with
  | BraceError text => "Brace error in question: " ++ text
  | MultichoiceTooFew => "Multiple choice requires at least 2 answers"
  | MatchTooFew => "Matching requires at least 2 pairs"
  | MatchNoArrow => "Matching pair must contain ->"
  | ShortanswerEmpty => "Shortanswer requires at least 1 answer"
  | NumericalEmpty => "Numerical requires answers"
  | NumericalRange => "Numerical range must be numbers"
  | NumericalTolerance => "Numerical answer and tolerance must be numbers"
  | NumericalNumber => "Numerical answer must be a number"
  | UnhandledQtype => "Unhandled qtype"
  | UnsupportedQtype qtype => "Unsupported qtype in exporter: " ++ qtype
  | TypeError => "TypeError"
  | SyntaxError => "SyntaxError"
  end.

(** The error taxonomy of the specification. *)
Inductive errorKind :=
| BraceMismatch
| InsufficientAlternatives
| MalformedNumeric
| MissingSeparator
| UnsupportedVariant
| LanguageError.

Definition kindOf (e : error) : errorKind :=
  match e with
  | BraceError _ => BraceMismatch
  | MultichoiceTooFew | MatchTooFew | ShortanswerEmpty | NumericalEmpty =>
      InsufficientAlternatives
  | NumericalRange | NumericalTolerance | NumericalNumber => MalformedNumeric
  | MatchNoArrow => MissingSeparator
  | UnhandledQtype | UnsupportedQtype _ => UnsupportedVariant
  | TypeError | SyntaxError => LanguageError
  end.

Inductive result (A : Type) :=
| Ok (a : A)
| Err (e : error).

Arguments Ok {A} a.
Arguments Err {A} e.

Definition bind {A B} (r : result A) (f : A -> result B) : result B :=
  match r with
  | Ok a => f a
  | Err e => Err e
  end.

Notation "'do' x <- r ; k" := (bind r (fun x => k))
  (at level 10, x name, r at level 100, k at level 200).

(** A [for ... of] loop whose body can throw, collecting what each round
    pushes. *)
Fixpoint forEach {A B} (f : A -> result B) (l : list A) : result (list B) :=
  match l with
  | [] => Ok []
  | x :: l' => do y <- f x; do ys <- forEach f l'; Ok (y :: ys)
  end.

(** [clone]: [JSON.stringify(undefined)] is [undefined], which [JSON.parse]
    rejects. *)
Definition clone (obj : value) : result value :=
  match obj with
  | VUndef => Err SyntaxError
  | _ => Ok (Js.jsonCopy obj)
  end.

(** ** Utilities (formats and text spans) *)

Definition FORMAT_MOODLE : str := "moodle".
Definition FORMAT_HTML : str := "html".
Definition FORMAT_PLAIN : str := "plain".
Definition FORMAT_MARKDOWN : str := "markdown".

Definition formatNameToConst (name : str) : str :=
  if isEmpty name then FORMAT_MOODLE else
  let n := toLowerCase name in
  if Str.equal n "moodle" then FORMAT_MOODLE
  else if Str.equal n "html" then FORMAT_HTML
  else if Str.equal n "plain" then FORMAT_PLAIN
  else if Str.equal n "markdown" then FORMAT_MARKDOWN
  else FORMAT_MOODLE.

Definition formatConstToName (fmt : value) : str :=
  if Js.isStr fmt FORMAT_HTML then "html"
  else if Js.isStr fmt FORMAT_PLAIN then "plain"
  else if Js.isStr fmt FORMAT_MARKDOWN then "markdown"
  else "moodle".

Definition defaultQuestion : value :=
  VObj [ ("id" : str, VUndef);
         ("name" : str, VStr "");
         ("qtype" : str, VStr "");
         ("questiontext" : str, VStr "");
         ("questiontextformat" : str, VStr FORMAT_MOODLE);
         ("generalfeedback" : str, VStr "");
         ("generalfeedbackformat" : str, VStr FORMAT_MOODLE);
         ("idnumber" : str, VStr "");
         ("tags" : str, VArr []) ].

Record TextWithFormat := { text : str; format : str }.

(** The object [{ text, format }]. *)
Definition twfValue (t : TextWithFormat) : value :=
  VObj [ ("text" : str, VStr (text t)); ("format" : str, VStr (format t)) ].

Definition parseTextWithFormat (text0 : str) (defaultFormat : str)
  : TextWithFormat :=
  if isEmpty text0 then {| text := ""; format := defaultFormat |} else
  let tagged :=
    if startsWith text0 "[" then
      let close := indexOf text0 "]" in
      if 0 <? close then
        let fmt := slice text0 1 close in
        let fmtConst := formatNameToConst fmt in
        if negb (isEmpty fmtConst)
        then {| text := sliceFrom text0 (close + 1); format := fmtConst |}
        else {| text := ""; format := defaultFormat |}
      else {| text := ""; format := defaultFormat |}
    else {| text := ""; format := defaultFormat |} in
  let body := if isEmpty (text tagged) then text0 else text tagged in
  {| text := escapedcharPost (trim body); format := format tagged |}.

Definition emptyText (defaultFormat : str) : TextWithFormat :=
  {| text := ""; format := defaultFormat |}.

Definition splitTrueFalseComment (answer : str) (defaultFormat : str)
  : TextWithFormat * TextWithFormat * TextWithFormat :=
  let bits := splitLimit answer "#" 3 in
  let ans := parseTextWithFormat (trim (nth 0 bits [])) defaultFormat in
  let wrong := if (1 <? length bits)%nat
               then parseTextWithFormat (trim (nth 1 bits [])) defaultFormat
               else emptyText defaultFormat in
  let right := if (2 <? length bits)%nat
               then parseTextWithFormat (trim (nth 2 bits [])) defaultFormat
               else emptyText defaultFormat in
  (ans, wrong, right).

Definition commentParser (answer : str) (defaultFormat : str)
  : TextWithFormat * TextWithFormat :=
  let bits := splitLimit answer "#" 2 in
  let ans := parseTextWithFormat (trim (nth 0 bits [])) defaultFormat in
  let feedback := if (1 <? length bits)%nat
                  then parseTextWithFormat (trim (nth 1 bits [])) defaultFormat
                  else emptyText defaultFormat in
  (ans, feedback).

(** The match of the weight pattern of [parseWeight] at the start of [s]: a
    percent sign, an optional minus sign, one or two digits (the first group),
    optionally a point and any number of digits (the second group), and a
    percent sign.  Gives the first group, the second group when it took part,
    and the length of the whole match.  The minus sign is in no group. *)
Definition matchWeight (s : str) : option (str * option str * nat) :=
  match s with
  | p :: s1 =>
      if Ascii.eqb p "%" then
        let (sign, s2) :=
          match s1 with
          | m :: t => if Ascii.eqb m "-" then (1%nat, t) else (0%nat, s1)
          | [] => (0%nat, s1)
          end in
        let (ds, _) := Num.spanDigits s2 in
        let m1 := take 2 ds in
        let s3 := drop (length m1) s2 in
        if isEmpty m1 then None else
        match s3 with
        | c :: t =>
            if Ascii.eqb c "%" then Some (m1, None, (1 + sign + length m1 + 1)%nat)
            else if Ascii.eqb c "." then
              let (m2, r) := Num.spanDigits t in
              if startsWith r "%"
              then Some (m1, Some m2, (1 + sign + length m1 + 1 + length m2 + 1)%nat)
              else None
            else None
        | [] => None
        end
      else None
  | [] => None
  end.

(** [parseWeight]: the weight ([None] for [null]) and the rest. *)
Definition parseWeight (answerStr : str) : option number * str :=
  match matchWeight answerStr with
  | None => (None, answerStr)
  | Some (m1, m2, len) =>
      let fraction :=
        match m2 with
        | Some f => if isEmpty f then [] else "." ++ f
        | None => []
        end in
      let num := Num.parseFloat (m1 ++ fraction) in
      let weight := Num.div num (Num.ofZ 100) in
      (Some weight, sliceFrom answerStr (Z.of_nat len))
  end.

(** The loop [(?:\\\]|[^...])+] followed by [\]], tried in the order of a
    backtracking matcher: the escaped bracket, then one allowed character,
    then the end of the loop.  Gives the captured text and what follows the
    closing bracket. *)
Fixpoint metaLoop (allowed : ascii -> bool) (entered : bool) (s : str)
  : option (str * str) :=
  match s with
  | [] => None
  | c :: s' =>
      let stop := if entered && Ascii.eqb c "]" then Some ([], s') else None in
      let single :=
        if allowed c then
          match metaLoop allowed true s' with
          | Some (cap, r) => Some (c :: cap, r)
          | None => stop
          end
        else stop in
      match s' with
      | d :: s'' =>
          if Ascii.eqb c backslash && Ascii.eqb d "]" then
            match metaLoop allowed true s'' with
            | Some (cap, r) => Some (c :: d :: cap, r)
            | None => single
            end
          else single
      | [] => single
      end
  end.

(** The first match of [prefix] followed by the loop, from the left. *)
Fixpoint findMeta (prefix : str) (allowed : ascii -> bool) (s : str)
  : option (str * str) :=
  match s with
  | [] => None
  | _ :: s' =>
      if startsWith s prefix then
        match metaLoop allowed false (drop (length prefix) s) with
        | Some r => Some r
        | None => findMeta prefix allowed s'
        end
      else findMeta prefix allowed s'
  end.

(** The [while] loop over [tagRe.exec]; every match is at least six
    characters long, so [fuel] as long as the text is enough. *)
Fixpoint allMeta (fuel : nat) (prefix : str) (allowed : ascii -> bool) (s : str)
  : list str :=
  match fuel with
  | O => []
  | S f =>
      match findMeta prefix allowed s with
      | Some (cap, rest) => cap :: allMeta f prefix allowed rest
      | None => []
      end
  end.

Definition idChar (c : ascii) : bool :=
  negb (Ascii.eqb c "]") && negb (isCntrl c).

Definition tagChar (c : ascii) : bool :=
  idChar c && negb (Ascii.eqb c "<") && negb (Ascii.eqb c ">")
  && negb (Ascii.eqb c "`").

Definition unescapeBracket (s : str) : str := trim (replaceAll s "\]" "]").

Definition extractIdnumberAndTags (commentBlock : str) : str * list str :=
  let idnumber :=
    match findMeta "[id:" idChar commentBlock with
    | Some (cap, _) => unescapeBracket cap
    | None => []
    end in
  let tags :=
    map unescapeBracket (allMeta (length commentBlock) "[tag:" tagChar commentBlock) in
  (idnumber, tags).

(** ** Parser *)

(** The answers of one question: the objects pushed on [q.answers]. *)
Definition answerObject (answer : value) (tolerance : option value)
  (answerformat : option str) (fraction : number) (feedback : TextWithFormat)
  : value :=
  VObj ([ ("answer" : str, answer) ]
        ++ match answerformat with
           | Some f => [ ("answerformat" : str, VStr f) ]
           | None => []
           end
        ++ match tolerance with
           | Some t => [ ("tolerance" : str, t) ]
           | None => []
           end
        ++ [ ("fraction" : str, VNum fraction);
             ("feedback" : str, VStr (text feedback));
             ("feedbackformat" : str, VStr (format feedback)) ]).

(** [!l.length] on an array. *)
Definition noItems {A} (l : list A) : bool :=
  match l with [] => true | _ :: _ => false end.

(** [s.split(sep).map(s => s.trim()).filter(Boolean)] *)
Definition splitParts (s sep : str) : list str :=
  filter (fun p => negb (isEmpty p) = true) (map trim (split s sep)).

(** The comment lines of a block, joined, and the block with each of them
    replaced by a blank. *)
Definition separateComments (lines : list str) : str * list str :=
  fold_left
    (fun acc ln =>
       let s := trim ln in
       if startsWith s "//"
       then (fst acc ++ s ++ [LF], snd acc ++ [" " : str])
       else (fst acc, snd acc ++ [ln]))
    lines ([], []).

(** [/^\$CATEGORY:\s*/] *)
Definition isCategory (text0 : str) : bool := startsWith text0 "$CATEGORY:".

Definition categoryName (text0 : str) : str :=
  trim (trimStart (drop 10 text0)).

(** The optional [::name::] wrapper: the name found (empty when there is
    none) and the text that remains. *)
Definition takeName (text0 : str) : str * str :=
  if startsWith text0 "::" then
    let pos := indexOfFrom text0 "::" 2 in
    if negb (pos =? -1) then
      let nm := slice text0 2 pos in
      (if isEmpty nm then [] else escapedcharPost nm,
       trim (sliceFrom text0 (pos + 2)))
    else ([], text0)
  else ([], text0).

(** [/\}\s*$/.test(text)] *)
Definition endsWithBrace (text0 : str) : bool :=
  startsWith (trimStart (rev text0)) "}".

(** [s.replace(/<[^>]*>/g, '')] *)
Fixpoint stripTags (inside : bool) (s : str) : str :=
  match s with
  | [] => []
  | c :: s' =>
      if inside then
        (if Ascii.eqb c ">" then stripTags false s' else stripTags true s')
      else if Ascii.eqb c "<" && includes s' ">" then stripTags true s'
      else c :: stripTags false s'
  end.

(** The outcome of looking for the braces of the answer. *)
Inductive braces :=
| Description
| Answer (answerStart answerFinish : Z).

Definition findBraces (text0 : str) : result braces :=
  let answerStart := indexOf text0 "{" in
  let answerFinish := lastIndexOf text0 "}" in
  if (answerStart =? -1) && (answerFinish =? -1) then Ok Description
  else if (answerStart =? -1) || (answerFinish =? -1)
          || (answerFinish <? answerStart)
  then Err (BraceError (escapedcharPost text0))
  else Ok (Answer answerStart answerFinish).

(** The text between the braces, as cut out of the block. *)
Definition answerSpan (text0 : str) (b : braces) : str :=
  match b with
  | Description => []
  | Answer answerStart answerFinish => slice text0 (answerStart + 1) answerFinish
  end.

Definition questionText (text0 : str) (b : braces) : str :=
  match b with
  | Description => text0
  | Answer answerStart answerFinish =>
      if endsWithBrace text0
      then slice text0 0 answerStart ++ sliceFrom text0 (answerFinish + 1)
      else slice text0 0 answerStart ++ "_____" ++ sliceFrom text0 (answerFinish + 1)
  end.

(** The general feedback and the answer text without it. *)
Definition splitGeneralFeedback (answertext : str) : str * str :=
  let gfidx := lastIndexOf answertext "####" in
  if negb (gfidx =? -1)
  then (sliceFrom answertext (gfidx + 4), trim (slice answertext 0 gfidx))
  else ([], answertext).

(** The chain of tests that sets [q.qtype] once the answer is not empty. *)
Definition determineQtype (answertext : str) : str :=
  if startsWith answertext "#" then "numerical"
  else if includes answertext "~" then "multichoice"
  else if includes answertext "=" && includes answertext "->" then "match"
  else
    let tfcheck :=
      toUpperCase
        (trim (if includes answertext "#"
               then nth 0 (splitLimit answertext "#" 1) []
               else answertext)) in
    if inList [ "T" : str; "TRUE" : str; "F" : str; "FALSE" : str ] tfcheck
    then "truefalse"
    else "shortanswer".

Definition multichoiceAnswer (fmt : str) (part : str) : value :=
  let '(weight, rest) :=
    if startsWith part "="
    then (Num.ofZ 1, sliceFrom part 1)
    else match parseWeight part with
         | (Some w, r) => (w, r)
         | (None, _) => (Num.ofZ 0, part)
         end in
  let (ans, feedback) := commentParser rest fmt in
  answerObject (VStr (text ans)) None (Some (format ans)) weight feedback.

Definition parseMultichoice (q : value) (fmt answertext : str) : result value :=
  let q := Js.set q "answernumbering" (VStr "abc") in
  let q := Js.set q "single"
             (VNum (Num.ofZ (if includes answertext "=" then 1 else 0))) in
  let normalized := replaceAll answertext "=" "~=" in
  let parts := splitParts normalized "~" in
  if (length parts <? 2)%nat then Err MultichoiceTooFew
  else Ok (Js.set q "answers" (VArr (map (multichoiceAnswer fmt) parts))).

Definition matchPair (fmt : str) (p : str) : result value :=
  let marker := indexOf p "->" in
  if marker =? -1 then Err MatchNoArrow else
  let left := slice p 0 marker in
  let right := trim (sliceFrom p (marker + 2)) in
  let leftParsed := parseTextWithFormat left fmt in
  Ok (VObj [ ("questiontext" : str, VStr (text leftParsed));
             ("questiontextformat" : str, VStr (format leftParsed));
             ("answertext" : str, VStr (escapedcharPost right)) ]).

Definition parseMatch (q : value) (fmt answertext : str) : result value :=
  let parts := splitParts answertext "=" in
  if (length parts <? 2)%nat then Err MatchTooFew else
  do subquestions <- forEach (matchPair fmt) parts;
  Ok (Js.set q "subquestions" (VArr subquestions)).

Definition parseTruefalse (q : value) (fmt answertext : str) : result value :=
  let '(ans, wrongfb, rightfb) := splitTrueFalseComment answertext fmt in
  let isTrue := inList [ "T" : str; "TRUE" : str ] (toUpperCase (text ans)) in
  let q := Js.set q "correctanswer" (VNum (Num.ofZ (if isTrue then 1 else 0))) in
  let q := Js.set q "feedbacktrue" (twfValue (if isTrue then rightfb else wrongfb)) in
  let q := Js.set q "feedbackfalse" (twfValue (if isTrue then wrongfb else rightfb)) in
  Ok (Js.set q "penalty" (VNum (Num.ofZ 1))).

(** The weight prefix of a short or numerical answer: 1 when there is none. *)
Definition weightedPart (p : str) : number * str :=
  match parseWeight p with
  | (Some w, r) => (w, r)
  | (None, _) => (Num.ofZ 1, p)
  end.

Definition shortAnswer (fmt : str) (p : str) : value :=
  let (weight, rest) := weightedPart p in
  let (ans, fb) := commentParser rest fmt in
  answerObject (VStr (text ans)) None None weight fb.

Definition parseShortanswer (q : value) (fmt answertext : str) : result value :=
  let parts := splitParts answertext "=" in
  if noItems parts then Err ShortanswerEmpty
  else Ok (Js.set q "answers" (VArr (map (shortAnswer fmt) parts))).

(** The value of one numerical answer: the answer and its tolerance. *)
Definition numericalValue (raw : str) : result (number * number) :=
  if includes raw ".." then
    let bits := map (fun s => Num.parseFloat (trim s)) (split raw "..") in
    let min := nth 0 bits NaN in
    let max := nth 1 bits NaN in
    if negb (Num.isFinite min) || negb (Num.isFinite max) then Err NumericalRange
    else
      let ans := Num.div (Num.add max min) (Num.ofZ 2) in
      Ok (ans, Num.sub max ans)
  else if includes raw ":" then
    let idx := indexOf raw ":" in
    let ans := Num.parseFloat (trim (slice raw 0 idx)) in
    let tol := Num.parseFloat (trim (sliceFrom raw (idx + 1))) in
    if negb (Num.isFinite ans) || negb (Num.isFinite tol) then Err NumericalTolerance
    else Ok (ans, tol)
  else
    let ans := Num.parseFloat (trim raw) in
    if negb (Num.isFinite ans || Str.equal (trim raw) "*") then Err NumericalNumber
    else Ok (ans, Num.ofZ 0).

Definition numericalAnswer (fmt : str) (p : str) : result value :=
  let (weight, rest) := weightedPart p in
  let (ansParsed, fb) := commentParser rest fmt in
  do av <- numericalValue (text ansParsed);
  Ok (answerObject (VNum (fst av)) (Some (VNum (snd av))) None weight fb).

(** The entry pushed for the text from the first [~] on. *)
Definition wildcardAnswer (fmt : str) (wrongfeedback : str) : value :=
  let (_, fb) := commentParser wrongfeedback fmt in
  answerObject (VStr "*") (Some (VStr "")) None (Num.ofZ 0) fb.

Definition parseNumerical (q : value) (fmt answertext : str) : result value :=
  let body := sliceFrom answertext 1 in
  let tpos := indexOf body "~" in
  let wrongfeedback := if negb (tpos =? -1) then sliceFrom body tpos else [] in
  let body := if negb (tpos =? -1) then slice body 0 tpos else body in
  let parts := splitParts body "=" in
  if noItems parts then Err NumericalEmpty else
  do answers <- forEach (numericalAnswer fmt) parts;
  Ok (Js.set q "answers"
        (VArr (answers ++ if negb (isEmpty wrongfeedback)
                          then [wildcardAnswer fmt wrongfeedback]
                          else []))).

Definition essayFields (q : value) : value :=
  let q := Js.set q "qtype" (VStr "essay") in
  let q := Js.set q "responseformat" (VStr "editor") in
  let q := Js.set q "responserequired" (VNum (Num.ofZ 1)) in
  let q := Js.set q "responsefieldlines" (VNum (Num.ofZ 15)) in
  let q := Js.set q "attachments" (VNum (Num.ofZ 0)) in
  let q := Js.set q "attachmentsrequired" (VNum (Num.ofZ 0)) in
  let q := Js.set q "graderinfo"
             (twfValue {| text := ""; format := FORMAT_HTML |}) in
  Js.set q "responsetemplate" (twfValue {| text := ""; format := FORMAT_HTML |}).

(** The [switch] on [q.qtype]. *)
Definition parseAnswers (q : value) (qtype fmt answertext : str) : result value :=
  if Str.equal qtype "multichoice" then parseMultichoice q fmt answertext
  else if Str.equal qtype "match" then parseMatch q fmt answertext
  else if Str.equal qtype "truefalse" then parseTruefalse q fmt answertext
  else if Str.equal qtype "shortanswer" then parseShortanswer q fmt answertext
  else if Str.equal qtype "numerical" then parseNumerical q fmt answertext
  else Err UnhandledQtype.

(** [parseQuestion] from the search for the braces on: [name] is the name
    found in the wrapper, [text0] the text after it. *)
Definition parseBody (comments : str) (name : str) (text0 : str) : result value :=
  let q := Js.set defaultQuestion "name" (VStr name) in
  do b <- findBraces text0;
  let answertext := trim (answerSpan text0 b) in
  let questiontext := questionText text0 b in
  let (generalfeedback, answertext) := splitGeneralFeedback answertext in
  let qtParsed := parseTextWithFormat questiontext FORMAT_MOODLE in
  let q := Js.set q "questiontext" (VStr (text qtParsed)) in
  let q := Js.set q "questiontextformat" (VStr (format qtParsed)) in
  let fmt := format qtParsed in
  let gfParsed := parseTextWithFormat generalfeedback fmt in
  let q := Js.set q "generalfeedback" (VStr (text gfParsed)) in
  let q := Js.set q "generalfeedbackformat" (VStr (format gfParsed)) in
  let q :=
    if isEmpty name then
      let short := slice (stripTags false (text qtParsed)) 0 30 in
      Js.set q "name" (VStr (if isEmpty short then "Question" else short))
    else q in
  let meta := extractIdnumberAndTags comments in
  let q := Js.set q "idnumber" (VStr (fst meta)) in
  let q := Js.set q "tags" (VArr (map VStr (snd meta))) in
  match b with
  | Description =>
      let q := Js.set q "qtype" (VStr "description") in
      let q := Js.set q "defaultmark" (VNum (Num.ofZ 0)) in
      Ok (Js.set q "length" (VNum (Num.ofZ 0)))
  | Answer _ _ =>
      if isEmpty answertext then Ok (essayFields q) else
      let qtype := determineQtype answertext in
      parseAnswers (Js.set q "qtype" (VStr qtype)) qtype fmt answertext
  end.

(** [parseQuestion]: [None] is the [null] of an empty block. *)
Definition parseQuestion (lines : list str) : result (option value) :=
  let (comments, work) := separateComments lines in
  let text0 := trim (join [LF] work) in
  if isEmpty text0 then Ok None else
  let text0 := escapedcharPre text0 in
  if isCategory text0 then
    let q := Js.set defaultQuestion "qtype" (VStr "category") in
    Ok (Some (Js.set q "category" (VStr (categoryName text0))))
  else
    let (name, text0) := takeName text0 in
    do q <- parseBody comments name text0;
    Ok (Some q).

(** [s.replace(/\r\n?/g, '\n')] *)
Fixpoint normalizeNewlines (s : str) : str :=
  match s with
  | [] => []
  | c :: s' =>
      if Ascii.eqb c CR then
        match s' with
        | d :: s'' => if Ascii.eqb d LF then LF :: normalizeNewlines s''
                      else LF :: normalizeNewlines s'
        | [] => [LF]
        end
      else c :: normalizeNewlines s'
  end.

(** [flush]: parse the buffered block and push the question, if any. *)
Definition flush (buf : list str) (questions : list value) : result (list value) :=
  do q <- parseQuestion buf;
  Ok (match q with Some q => questions ++ [q] | None => questions end).

(** The [for] loop of [parseGift] over the lines, and the final flush. *)
Fixpoint parseLines (lines buf : list str) (questions : list value)
  : result (list value) :=
  match lines with
  | [] => if negb (noItems buf) then flush buf questions else Ok questions
  | line :: rest =>
      if isBlank line then
        if negb (noItems buf)
        then do questions <- flush buf questions; parseLines rest [] questions
        else parseLines rest buf questions
      else parseLines rest (buf ++ [line]) questions
  end.

Definition parseGift (input : str) : result (list value) :=
  parseLines (split (normalizeNewlines input) [LF]) [] [].

(** ** Exporter *)

(** [repchar] on any value: [null] and [undefined] give the empty string. *)
Definition repcharV (v : value) : str :=
  match v with
  | VUndef | VNull => []
  | _ => repchar (Js.toString v)
  end.

(** A parameter with the default value [FORMAT.MOODLE]. *)
Definition orMoodle (defaultFormat : value) : value :=
  match defaultFormat with
  | VUndef => VStr FORMAT_MOODLE
  | _ => defaultFormat
  end.

Definition writeQuestionText (text0 format0 defaultFormat : value) : str :=
  let defaultFormat := orMoodle defaultFormat in
  (if Js.truthy text0 && Js.truthy format0
      && negb (Js.strictEq format0 defaultFormat)
   then "[" ++ formatConstToName format0 ++ "]"
   else [])
  ++ repcharV (Js.or text0 (VStr "")).

Definition writeName (name : value) : str :=
  "::" ++ repcharV (Js.or name (VStr "")) ++ "::".

Definition escapeBracket (v : value) : str :=
  replaceAll (Js.toString v) "]" "\]".

Definition writeIdnumberAndTags (q : value) : str :=
  if Js.isStr (Js.get q "qtype") "category" then [] else
  let bits :=
    (if Js.truthy (Js.get q "idnumber")
     then [ "[id:" ++ escapeBracket (Js.get q "idnumber") ++ "]" ]
     else [])
    ++ match Js.get q "tags" with
       | VArr tags => map (fun t => "[tag:" ++ escapeBracket t ++ "]") tags
       | _ => []
       end in
  if noItems bits then [] else "// " ++ join " " bits ++ [LF].

Definition writeGeneralFeedback (q : value) (indent : str) : str :=
  let gf := writeQuestionText (Js.get q "generalfeedback")
              (Js.get q "generalfeedbackformat") (Js.get q "questiontextformat") in
  if isEmpty gf then [] else
  let line := "####" ++ gf in
  if isEmpty indent then line else indent ++ line ++ [LF].

(** What a [for ... of] loop runs over: the elements of an array, the
    characters of a string; another value cannot be iterated. *)
Definition iterate (v : value) : result (list value) :=
  match v with
  | VArr l => Ok l
  | VStr s => Ok (map (fun c => VStr [c]) s)
  | _ => Err TypeError
  end.

(** Reading a property of [null] or [undefined] throws. *)
Definition notNull (v : value) : result value :=
  match v with
  | VUndef | VNull => Err TypeError
  | _ => Ok v
  end.

(** [writeQuestionText(text, format || q.questiontextformat,
    q.questiontextformat)]: the text of an answer or of a feedback, in its own
    format or else in the format of the question.  In the second case the
    format handed over is the default itself, which is never different from
    itself, so that no tag is written. *)
Definition writeIn (q : value) (text0 format0 : value) : str :=
  if Js.truthy format0
  then writeQuestionText text0 format0 (Js.get q "questiontextformat")
  else repcharV (Js.or text0 (VStr "")).

Definition percent (n : number) : str :=
  Num.toString (Num.mul n (Num.ofZ 100)).

Definition writeHead (q : value) : str :=
  writeName (Js.get q "name")
  ++ writeQuestionText (Js.get q "questiontext") (Js.get q "questiontextformat") VUndef.

Definition writeTruefalse (q : value) : str :=
  let isTrue := Js.truthy (Js.get q "correctanswer") in
  let rightfb := if isTrue then Js.get q "feedbacktrue" else Js.get q "feedbackfalse" in
  let wrongfb := if isTrue then Js.get q "feedbackfalse" else Js.get q "feedbacktrue" in
  let right := writeIn q (Js.or (Js.getOpt rightfb "text") (VStr ""))
                 (Js.getOpt rightfb "format") in
  let wrong := writeIn q (Js.or (Js.getOpt wrongfb "text") (VStr ""))
                 (Js.getOpt wrongfb "format") in
  writeHead q
  ++ "{" ++ repchar (if isTrue then "TRUE" else "FALSE")
  ++ (if negb (isEmpty wrong) then "#" ++ wrong
      else if negb (isEmpty right) then "#" else [])
  ++ (if negb (isEmpty right) then "#" ++ right else [])
  ++ writeGeneralFeedback q []
  ++ "}" ++ [LF].

Definition writeMultichoiceAnswer (q : value) (ans : value) : result str :=
  do ans <- notNull ans;
  let fraction := Js.get ans "fraction" in
  let single := Js.get q "single" in
  let lead :=
    if Js.isNum fraction (Num.ofZ 1)
       && (Js.isNum single (Num.ofZ 1) || Js.strictEq single (VBool true))
    then "=" : str
    else if negb (Js.truthy fraction) then "~" : str
    else "~%" ++ percent (Js.toNumber fraction) ++ "%" in
  let ansText := writeIn q (Js.get ans "answer") (Js.get ans "answerformat") in
  Ok ([TAB] ++ lead ++ ansText
      ++ (if Js.truthy (Js.get ans "feedback")
          then "#" ++ writeIn q (Js.get ans "feedback") (Js.get ans "feedbackformat")
          else [])
      ++ [LF]).

Definition writeShortAnswer (q : value) (ans : value) : result str :=
  do ans <- notNull ans;
  let weight := percent (Js.toNumber (Js.nullish (Js.get ans "fraction") (VNum (Num.ofZ 1)))) in
  let fb := writeIn q (Js.or (Js.get ans "feedback") (VStr "")) (Js.get ans "feedbackformat") in
  Ok ([TAB] ++ "=%" ++ weight ++ "%" ++ repcharV (Js.get ans "answer")
      ++ "#" ++ fb ++ [LF]).

Definition writeNumericalAnswer (q : value) (ans : value) : result str :=
  do ans <- notNull ans;
  let answer := Js.get ans "answer" in
  let fb := writeIn q (Js.or (Js.get ans "feedback") (VStr "")) (Js.get ans "feedbackformat") in
  if negb (Js.isStr answer "*") && negb (Js.isStr answer "") then
    let weight := percent (Js.toNumber (Js.nullish (Js.get ans "fraction") (VNum (Num.ofZ 1)))) in
    Ok ([TAB] ++ "=%" ++ weight ++ "%" ++ Js.toString answer ++ ":"
        ++ Num.toString (Js.toNumber (Js.get ans "tolerance")) ++ "#" ++ fb ++ [LF])
  else Ok ([TAB] ++ "~#" ++ fb ++ [LF]).

Definition writeSubquestion (q : value) (sq : value) : result str :=
  do sq <- notNull sq;
  let left := writeIn q (Js.get sq "questiontext") (Js.get sq "questiontextformat") in
  Ok ([TAB] ++ "=" ++ left ++ " -> " ++ repcharV (Js.get sq "answertext") ++ [LF]).

(** A question with a brace-delimited list: one line per element of the array
    in [field]. *)
Definition writeList (q : value) (open : str) (field : str)
  (line : value -> value -> result str) : result str :=
  do items <- iterate (Js.or (Js.get q field) (VArr []));
  do lines <- forEach (line q) items;
  Ok (writeHead q ++ open ++ [LF] ++ concat lines
      ++ writeGeneralFeedback q [TAB] ++ "}" ++ [LF]).

(** The [switch] of [writeOne] on [q.qtype]. *)
Definition writeBody (q : value) : result str :=
  let qtype := Js.get q "qtype" in
  if Js.isStr qtype "category"
  then Ok ("$CATEGORY: " ++ Js.toString (Js.get q "category") ++ [LF])
  else if Js.isStr qtype "description" then Ok (writeHead q)
  else if Js.isStr qtype "essay"
  then Ok (writeHead q ++ "{" ++ writeGeneralFeedback q [] ++ "}" ++ [LF])
  else if Js.isStr qtype "truefalse" then Ok (writeTruefalse q)
  else if Js.isStr qtype "multichoice"
  then writeList q "{" "answers" writeMultichoiceAnswer
  else if Js.isStr qtype "shortanswer"
  then writeList q "{" "answers" writeShortAnswer
  else if Js.isStr qtype "numerical"
  then writeList q "{#" "answers" writeNumericalAnswer
  else if Js.isStr qtype "match"
  then writeList q "{" "subquestions" writeSubquestion
  else Err (UnsupportedQtype (Js.toString qtype)).

(** [writeOne] once the question is copied: [q] is the copy. *)
Definition writeCopy (q : value) : result str :=
  do q <- notNull q;
  let exp := "// question: " ++ Js.toString (Js.nullish (Js.get q "id") (VStr ""))
             ++ "  name: " ++ Js.toString (Js.nullish (Js.get q "name") (VStr ""))
             ++ [LF] in
  let exp := exp ++ writeIdnumberAndTags q in
  do body <- writeBody q;
  Ok (exp ++ body ++ [LF]).

Definition writeOne (question : value) : result str :=
  do q <- clone question;
  writeCopy q.

Definition exportGift (questions : list value) : result str :=
  do out <- forEach writeOne questions;
  Ok (join [LF] out).

(** ** The exporter on a store

    The questions handed to [exportGift] are objects of the caller.  Here
    the objects live in a store: an object is a cell at an address, and a
    field or an element holds a primitive value or the address of another
    object.  [cloneAt] walks through the caller's object as [JSON.stringify]
    does and builds the copy from fresh cells as [JSON.parse] does; the
    writers are given the copy.  An operation gives its result, or the error
    thrown, and the store it leaves.  The array [questions] is only read, by
    the [for ... of] loop: it is given as the list of its elements. *)

Definition loc := positive.

(** What a variable, a field of an object or an element of an array holds: a
    primitive value, or the address of an object. *)
Inductive slot :=
| SUndef
| SNull
| SBool (b : bool)
| SNum (n : number)
| SStr (s : str)
| SRef (l : loc).

(** An object of the store: its fields in insertion order, or the elements of
    an array. *)
Inductive cell :=
| CObj (fields : list (str * slot))
| CArr (items : list slot).

Definition slots (c : cell) : list slot :=
  match c with
  | CObj fields => map snd fields
  | CArr items => items
  end.

(** The addresses a program can get to from a slot, by reading fields and
    elements. *)
Inductive reach (h : gmap loc cell) : slot -> loc -> Prop :=
| reach_here l : reach h (SRef l) l
| reach_step l c x a :
    h !! l = Some c -> In x (slots c) -> reach h x a -> reach h (SRef l) a.

(** The value that [JSON.stringify] walks through from a slot; [None] when
    the walk does not end (a circular structure, for which [JSON.stringify]
    throws a [TypeError]) or meets an address with no object. *)
Fixpoint readAt (fuel : nat) (h : gmap loc cell) (s : slot) : option value :=
  match s with
  | SUndef => Some VUndef
  | SNull => Some VNull
  | SBool b => Some (VBool b)
  | SNum n => Some (VNum n)
  | SStr t => Some (VStr t)
  | SRef l =>
      match fuel with
      | O => None
      | S fuel' =>
          match h !! l with
          | Some (CObj fields) =>
              fields' ← mapM (fun kx => x ← readAt fuel' h kx.2; Some (kx.1, x)) fields;
              Some (VObj fields')
          | Some (CArr items) =>
              items' ← mapM (readAt fuel' h) items;
              Some (VArr items')
          | None => None
          end
      end
  end.

(** A walk that goes through more objects than the store has goes through
    one of them twice. *)
Definition stringifyAt (h : gmap loc cell) (s : slot) : option value :=
  readAt (S (size h)) h s.

(** The objects that [JSON.parse] builds for a value, each at a fresh
    address, and the slot that holds the value. *)
Definition allocAll {A} (f : A -> gmap loc cell -> slot * gmap loc cell)
  : list A -> gmap loc cell -> list slot * gmap loc cell :=
  fix go l h :=
    match l with
    | [] => ([], h)
    | x :: rest =>
        let '(s, h1) := f x h in
        let '(ss, h2) := go rest h1 in
        (s :: ss, h2)
    end.

Fixpoint alloc (v : value) (h : gmap loc cell) : slot * gmap loc cell :=
  match v with
  | VUndef => (SUndef, h)
  | VNull => (SNull, h)
  | VBool b => (SBool b, h)
  | VNum n => (SNum n, h)
  | VStr t => (SStr t, h)
  | VArr items =>
      let '(ss, h1) := allocAll alloc items h in
      let l := fresh (dom h1) in
      (SRef l, <[ l := CArr ss ]> h1)
  | VObj fields =>
      let '(ss, h1) := allocAll (fun kx => alloc kx.2) fields h in
      let l := fresh (dom h1) in
      (SRef l, <[ l := CObj (combine (map fst fields) ss) ]> h1)
  end.

(** [clone] on the store: the value of the caller's object is read, and its
    copy is built from fresh objects. *)
Definition cloneAt (h : gmap loc cell) (question : slot)
  : result slot * gmap loc cell :=
  match stringifyAt h question with
  | None => (Err TypeError, h)
  | Some obj =>
      match clone obj with
      | Err e => (Err e, h)
      | Ok copy => let '(s, h') := alloc copy h in (Ok s, h')
      end
  end.

(** [writeOne], given what it runs on the copy. *)
Definition writeOneWith (write : gmap loc cell -> slot -> result str * gmap loc cell)
  (h : gmap loc cell) (question : slot) : result str * gmap loc cell :=
  match cloneAt h question with
  | (Err e, h') => (Err e, h')
  | (Ok q, h') => write h' q
  end.

(** The loop of [exportGift]: an error leaves the loop at once. *)
Fixpoint exportLoopWith (write : gmap loc cell -> slot -> result str * gmap loc cell)
  (h : gmap loc cell) (questions : list slot)
  : result (list str) * gmap loc cell :=
  match questions with
  | [] => (Ok [], h)
  | q :: rest =>
      match writeOneWith write h q with
      | (Err e, h') => (Err e, h')
      | (Ok block, h') =>
          match exportLoopWith write h' rest with
          | (Err e, h'') => (Err e, h'')
          | (Ok out, h'') => (Ok (block :: out), h'')
          end
      end
  end.

Definition exportGiftWith (write : gmap loc cell -> slot -> result str * gmap loc cell)
  (h : gmap loc cell) (questions : list slot) : result str * gmap loc cell :=
  match exportLoopWith write h questions with
  | (Err e, h') => (Err e, h')
  | (Ok out, h') => (Ok (join [LF] out), h')
  end.

(** What [writeOne] runs on the copy.  The writers of the source read the
    fields of [q] and build strings; none of them assigns to a field or
    calls a method that changes an object (the one [push] is on the local
    array [bits] of [writeIdnumberAndTags]): the store they leave is the
    store they are given. *)
Definition writeCopyAt (h : gmap loc cell) (q : slot) : result str * gmap loc cell :=
  (match stringifyAt h q with
   | Some v => writeCopy v
   | None => Err TypeError
   end, h).

Definition exportGiftAt : gmap loc cell -> list slot -> result str * gmap loc cell :=
  exportGiftWith writeCopyAt.

(** A writer that leaves alone every object it cannot get to from the slot
    it is given: whatever it assigns to, it assigns to objects that it finds
    by reading fields and elements from that slot on. *)
Definition writerLocal (write : gmap loc cell -> slot -> result str * gmap loc cell)
  : Prop :=
  forall h q a c,
    h !! a = Some c -> ~ reach h q a -> (write h q).2 !! a = Some c.

(** A writer that assigns: [for (const k in q) delete q[k]] on the object it
    is given. *)
Definition clearAt (h : gmap loc cell) (q : slot) : result str * gmap loc cell :=
  match q with
  | SRef l =>
      match h !! l with
      | Some (CObj _) => (Ok [], <[ l := CObj [] ]> h)
      | _ => (Ok [], h)
      end
  | _ => (Ok [], h)
  end.

(** A store with one object, [{ qtype: 'essay' }]. *)
Definition essayStore : gmap loc cell :=
  {[ 1%positive := CObj [ ("qtype" : str, SStr "essay") ] ]}.

(** A slot that holds no address of [h]. *)
Definition newSlot (h : gmap loc cell) (s : slot) : Prop :=
  match s with
  | SRef l => h !! l = None
  | _ => True
  end.

(** The objects of [h'] that are not objects of [h] hold no address of [h]. *)
Definition newCells (h h' : gmap loc cell) : Prop :=
  forall l c, h' !! l = Some c -> h !! l = None -> Forall (newSlot h) (slots c).

(** The invariant of the allocation that starts from [h0]. *)
Definition allocated (h0 h : gmap loc cell) : Prop := h0 ⊆ h /\ newCells h0 h.

(** The number of objects on the longest way down a value. *)
Fixpoint height (v : value) : nat :=
  match v with
  | VArr items => S (fold_right (fun x n => Nat.max (height x) n) O items)
  | VObj fields => S (fold_right (fun kx n => Nat.max (height kx.2) n) O fields)
  | _ => O
  end.

(** Reading what [f] has built gives [v], in every store that keeps it; [f]
    adds at least [height v] objects, and takes none away. *)
Definition readable (v : value) (f : gmap loc cell -> slot * gmap loc cell) : Prop :=
  forall h,
    (height v + size h <= size (f h).2)%nat
    /\ h ⊆ (f h).2
    /\ forall h' fuel, (f h).2 ⊆ h' -> (height v <= fuel)%nat ->
         readAt fuel h' (f h).1 = Some v.

(** ** Notions used in the statements *)

(** [pat] matches at no position of [s], and [c] does not occur in [s]. *)
Fixpoint absent (pat s : str) : bool :=
  match s with
  | [] => true
  | _ :: s' => negb (startsWith s pat) && absent pat s'
  end.

Definition lacks (c : ascii) (s : str) : bool :=
  forallb (fun x => negb (Ascii.eqb x c)) s.

(** The text before the first [c]. *)
Fixpoint upTo (c : ascii) (s : str) : str :=
  match s with
  | [] => []
  | x :: s' => if Ascii.eqb c x then [] else x :: upTo c s'
  end.

Definition isObject (v : value) : bool :=
  match v with VObj _ => true | _ => false end.

(** The comment lines, the name and the masked text of a block that is
    neither empty nor a category line: what [parseQuestion] works on from the
    search for the braces on. *)
Definition questionBlock (lines : list str) : option (str * str * str) :=
  let (comments, work) := separateComments lines in
  let text0 := trim (join [LF] work) in
  if isEmpty text0 then None else
  let text0 := escapedcharPre text0 in
  if isCategory text0 then None else
  let (name, text0) := takeName text0 in
  Some (comments, name, text0).

(** *** The escaper, token by token

    The eight placeholders of [escapedcharPre], and the text at each stage of
    the translations as the concatenation of one token per character of the
    text that [repchar] escaped: [enc] after [repchar], [tokPre i] after the
    masking of the backslash and [i] rounds of [ESC_PRE], [tokPost i] after
    the backslash is restored and [i] rounds of [ESC_POST]. *)

Definition placeholders : list str := ("&&092;" : str) :: map snd ESC_PRE.

Definition placeholderFree (s : str) : bool :=
  forallb (fun p => absent p s) placeholders.

Definition resIndex (c : ascii) : option nat :=
  if Ascii.eqb c ":" then Some 0%nat
  else if Ascii.eqb c "#" then Some 1%nat
  else if Ascii.eqb c "=" then Some 2%nat
  else if Ascii.eqb c "{" then Some 3%nat
  else if Ascii.eqb c "}" then Some 4%nat
  else if Ascii.eqb c "~" then Some 5%nat
  else if Ascii.eqb c LF then Some 6%nat
  else None.

Definition escapeOf (j : nat) : str := nth j (map fst ESC_PRE) [].
Definition placeholderOf (j : nat) : str := nth j (map snd ESC_PRE) [].
Definition plainOf (j : nat) : str := nth j (map snd ESC_POST) [].

Definition enc (c : ascii) : str :=
  if Ascii.eqb c backslash then "\\"
  else if Ascii.eqb c CR then []
  else match resIndex c with
       | Some j => escapeOf j
       | None => [c]
       end.

Definition tokPre (i : nat) (c : ascii) : str :=
  if Ascii.eqb c backslash then "&&092;"
  else if Ascii.eqb c CR then []
  else match resIndex c with
       | Some j => if (j <? i)%nat then placeholderOf j else escapeOf j
       | None => [c]
       end.

Definition tokPost (i : nat) (c : ascii) : str :=
  if Ascii.eqb c backslash then [backslash]
  else if Ascii.eqb c CR then []
  else match resIndex c with
       | Some j => if (j <? i)%nat then plainOf j else placeholderOf j
       | None => [c]
       end.

(** A text without carriage return in which [pat] does not occur. *)
Definition clean (pat s : str) : Prop :=
  lacks CR s = true /\ absent pat s = true.

(** *** Classification

    Section 4.3 of the specification: the rules in priority order, and the
    variant of the first rule that applies. *)

Definition isVerdict (body : str) : bool :=
  inList [ "T" : str; "TRUE" : str; "F" : str; "FALSE" : str ]
    (trim (toUpperCase (upTo "#" body))).

Definition classificationRules : list ((str -> bool) * str) :=
  [ (isEmpty, "essay" : str);
    (fun body => startsWith body "#", "numerical" : str);
    (fun body => includes body "~", "multichoice" : str);
    (fun body => includes body "=" && includes body "->", "match" : str);
    (isVerdict, "truefalse" : str) ].

Definition classify (body : str) : str :=
  match List.find (fun rule => fst rule body) classificationRules with
  | Some rule => snd rule
  | None => "shortanswer"
  end.

(** The errors of the answer parsers, and the variant each of them names. *)
Definition answerError (e : error) : bool :=
  match e with
  | MultichoiceTooFew | MatchTooFew | MatchNoArrow | ShortanswerEmpty
  | NumericalEmpty | NumericalRange | NumericalTolerance | NumericalNumber
  | UnhandledQtype => true
  | _ => false
  end.

Definition variantError (qtype : str) (e : error) : bool :=
  match e with
  | MultichoiceTooFew => Str.equal qtype "multichoice"
  | MatchTooFew | MatchNoArrow => Str.equal qtype "match"
  | ShortanswerEmpty => Str.equal qtype "shortanswer"
  | NumericalEmpty | NumericalRange | NumericalTolerance | NumericalNumber =>
      Str.equal qtype "numerical"
  | _ => false
  end.

(** *** Blocks and round trips *)

(** The blocks of the input: the maximal runs of lines that are not blank. *)
Fixpoint blocksFrom (lines : list str) (cur : list str) : list (list str) :=
  match lines with
  | [] => if noItems cur then [] else [cur]
  | line :: rest =>
      if isBlank line
      then (if noItems cur then blocksFrom rest [] else cur :: blocksFrom rest [])
      else blocksFrom rest (cur ++ [line])
  end.

Definition blocks (input : str) : list (list str) :=
  blocksFrom (Str.split (normalizeNewlines input) [LF]) [].

(** The questions of a list of parsed blocks. *)
Definition questionsOf (results : list (option value)) : list value :=
  omap id results.

Fixpoint parseBlocks (bs : list (list str)) (questions : list value)
  : result (list value) :=
  match bs with
  | [] => Ok questions
  | b :: bs' => do questions <- flush b questions; parseBlocks bs' questions
  end.

(** The values of [qtype] that [writeOne] has a case for. *)
Definition supportedQtypes : list str :=
  [ "category" : str; "description" : str; "essay" : str; "truefalse" : str;
    "multichoice" : str; "shortanswer" : str; "numerical" : str; "match" : str ].

Definition qtypeSupported (q : value) : bool :=
  existsb (Js.isStr (Js.get q "qtype")) supportedQtypes.

(** Parse, export, parse again. *)
Definition roundTrip (t : str) : result (list value) :=
  do questions <- parseGift t;
  do exported <- exportGift questions;
  parseGift exported.

(** The [answer] field of each answer of a question. *)
Definition answersOf (q : value) : list value :=
  match Js.get q "answers" with
  | VArr l => map (fun a => Js.get a "answer") l
  | _ => []
  end.

(** *** Weights *)

(** A text made of decimal digits. *)
Definition digitsOnly (s : str) : bool := forallb isDigit s.

(** The fractions the parser gives to answers: 0, 1, or a weight read from a
    prefix; all of them lie between 0 and 1. *)
Definition unitFraction (v : value) : Prop :=
  exists q, v = VNum (Fin q) /\ (0 <= q)%Qc /\ (q <= 1)%Qc.

(** The answer and the tolerance of each answer of a numerical question, as
    printed. *)
Definition answerAndTolerance (q : value) : list (str * str) :=
  match Js.get q "answers" with
  | VArr l => map (fun a => (Js.toString (Js.get a "answer"),
                             Js.toString (Js.get a "tolerance"))) l
  | _ => []
  end.

(** *** Notions of the further properties *)

Definition formats : list str :=
  [FORMAT_MOODLE; FORMAT_HTML; FORMAT_PLAIN; FORMAT_MARKDOWN].

(** A text of ASCII characters: on these the case maps of JavaScript change
    the unaccented letters and nothing else. *)
Definition isAscii (s : str) : bool :=
  forallb (fun c => (nat_of_ascii c <? 128)%nat) s.

(** A text that does not start, or end, with white space. *)
Definition startsOk (s : str) : Prop :=
  match s with c :: _ => isSpace c = false | [] => True end.

Definition endsOk (s : str) : Prop :=
  match last s with Some c => isSpace c = false | None => True end.

(** The tag that [writeQuestionText] writes before a text. *)
Definition formatTag (f d : str) : str :=
  if Str.equal f d then [] else "[" ++ f ++ "]".

(** The text that the weight pattern matched, group by group. *)
Definition weightPrefix (minus : bool) (m1 : str) (m2 : option str) : str :=
  "%" ++ (if minus then "-" else []) ++ m1
  ++ match m2 with Some f => "." ++ f | None => [] end ++ "%".

(** The characters a tag can hold once it is read. *)
Definition tagSafe (c : ascii) : bool :=
  negb (isCntrl c) && negb (Ascii.eqb c "<") && negb (Ascii.eqb c ">")
  && negb (Ascii.eqb c "`").

(** A text that [writeIdnumberAndTags] writes and [extractIdnumberAndTags]
    reads back as it is: no white space at the ends, no backslash, no opening
    bracket, and otherwise only characters the pattern allows, or a closing
    bracket. *)
Definition metaChars (allowed : ascii -> bool) (s : str) : Prop :=
  forallb (fun c => (allowed c || Ascii.eqb c "]")
                    && negb (Ascii.eqb c backslash)
                    && negb (Ascii.eqb c "[")) s = true.

Definition metaText (allowed : ascii -> bool) (s : str) : Prop :=
  trim s = s /\ metaChars allowed s.

(** What follows the first of the bits that [writeIdnumberAndTags] joins:
    each further bit after a blank, and the end of the line. *)
Fixpoint bitsTail (bits : list str) : str :=
  match bits with
  | [] => [LF]
  | b :: bits' => " " ++ b ++ bitsTail bits'
  end.

(** The characters the loop of the patterns of [extractIdnumberAndTags] can
    capture. *)
Definition capturable (allowed : ascii -> bool) (c : ascii) : Prop :=
  allowed c = true \/ c = "]"%char \/ c = backslash.

Definition tagBit (t : str) : str := "[tag:" ++ escapeBracket (VStr t) ++ "]".
Definition idBit (t : str) : str := "[id:" ++ escapeBracket (VStr t) ++ "]".

(** A line that is blank or a comment. *)
Definition isComment (line : str) : bool := startsWith (trim line) "//".

Definition endsWithCR (s : str) : bool :=
  match last s with Some c => Ascii.eqb c CR | None => false end.

(** The field that holds the list a question of a given type is written
    from. *)
Definition listField (qtype : str) : option str :=
  if inList [ "multichoice" : str; "shortanswer" : str; "numerical" : str ] qtype
  then Some ("answers" : str)
  else if Str.equal qtype "match" then Some ("subquestions" : str)
  else None.

(** A question that [writeOne] has a case for, with the list of that case in
    place. *)
Definition exportable (q : value) : Prop :=
  isObject q = true
  /\ exists qtype,
       Js.get q "qtype" = VStr qtype
       /\ In qtype supportedQtypes
       /\ forall field, listField qtype = Some field ->
            exists l, Js.get q field = VArr l
                      /\ Forall (fun a => isObject a = true) l.

(** The name given to a question without one. *)
Definition defaultName (questiontext : str) : str :=
  let short := slice (stripTags false questiontext) 0 30 in
  if isEmpty short then "Question" else short.

(** The characters that [repchar] escapes for the parser. *)
Definition reserved : str := ":#={}~" ++ [LF].

(** The question of a category line. *)
Definition categoryQuestion (category : str) : value :=
  Js.set (Js.set defaultQuestion "qtype" (VStr "category"))
    "category" (VStr category).

(** A line of a block: not blank, and without a line break. *)
Definition blockLine (line : str) : Prop :=
  lacks LF line = true /\ lacks CR line = true /\ isBlank line = false.

(** A text that completes no placeholder of the backslash begun before it. *)
Definition tailOk (t : str) : Prop :=
  startsWith t "&092;" = false /\ startsWith t "092;" = false
  /\ startsWith t "92;" = false /\ startsWith t "2;" = false
  /\ startsWith t ";" = false.

(** The question [parseQuestion] returns for a text without braces. *)
Definition descriptionQuestion (name questiontext fmt idnumber : str)
  (tags : list str) : value :=
  VObj [ ("id" : str, VUndef);
         ("name" : str, VStr name);
         ("qtype" : str, VStr "description");
         ("questiontext" : str, VStr questiontext);
         ("questiontextformat" : str, VStr fmt);
         ("generalfeedback" : str, VStr "");
         ("generalfeedbackformat" : str, VStr fmt);
         ("idnumber" : str, VStr idnumber);
         ("tags" : str, VArr (map VStr tags));
         ("defaultmark" : str, VNum (Num.ofZ 0));
         ("length" : str, VNum (Num.ofZ 0)) ].

(** The conditions on a text for it to come back from the export. *)
Definition plainText (t : str) : Prop :=
  t <> [] /\ lacks CR t = true /\ lacks LF t = true /\ placeholderFree t = true.

(** The comment line that [writeOne] starts a question without [id] with. *)
Definition headLine (name : str) : str := "// question:   name: " ++ name.

(** The line of a description: the name wrapper and the text. *)
Definition descriptionLine (name questiontext fmt : str) : str :=
  writeName (VStr name) ++ writeQuestionText (VStr questiontext) (VStr fmt) VUndef.

(** The line of the identifier and the tags, when there is one. *)
Definition metaBits (idnumber : str) (tags : list str) : list str :=
  (if isEmpty idnumber then [] else [idBit idnumber]) ++ map tagBit tags.

(** The question [parseQuestion] returns for braces that hold nothing but a
    general feedback. *)
Definition essayQuestion (name questiontext fmt generalfeedback gfformat idnumber : str)
  (tags : list str) : value :=
  VObj [ ("id" : str, VUndef);
         ("name" : str, VStr name);
         ("qtype" : str, VStr "essay");
         ("questiontext" : str, VStr questiontext);
         ("questiontextformat" : str, VStr fmt);
         ("generalfeedback" : str, VStr generalfeedback);
         ("generalfeedbackformat" : str, VStr gfformat);
         ("idnumber" : str, VStr idnumber);
         ("tags" : str, VArr (map VStr tags));
         ("responseformat" : str, VStr "editor");
         ("responserequired" : str, VNum (Num.ofZ 1));
         ("responsefieldlines" : str, VNum (Num.ofZ 15));
         ("attachments" : str, VNum (Num.ofZ 0));
         ("attachmentsrequired" : str, VNum (Num.ofZ 0));
         ("graderinfo" : str, twfValue {| text := []; format := FORMAT_HTML |});
         ("responsetemplate" : str, twfValue {| text := []; format := FORMAT_HTML |}) ].

(** The conditions on a feedback for it to come back from the export: an
    empty feedback is in the format of the question. *)
Definition feedbackText (fb fbformat fmt : str) : Prop :=
  (fb = [] /\ fbformat = fmt)
  \/ (plainText fb /\ trim fb = fb /\ In fbformat formats
      /\ (fbformat = fmt -> startsWith fb "[" = false)).

(** What [writeGeneralFeedback] writes without an indent, and its masked
    form. *)
Definition feedbackSpan (fb fbformat fmt : str) : str :=
  if isEmpty fb then [] else "####" ++ formatTag fbformat fmt ++ repchar fb.

Definition maskedFeedback (fb fbformat fmt : str) : str :=
  if isEmpty fb then []
  else "####" ++ formatTag fbformat fmt ++ flat_map (tokPost 0) fb.

(** The line of an essay. *)
Definition essayLine (name questiontext fmt generalfeedback gfformat : str) : str :=
  descriptionLine name questiontext fmt
  ++ "{" ++ feedbackSpan generalfeedback gfformat fmt ++ "}".

(** A feedback as [writeOne] writes it, and its masked form. *)
Definition writtenPart (fb fbformat fmt : str) : str :=
  (if isEmpty fb then [] else formatTag fbformat fmt) ++ repchar fb.

Definition maskedPart (fb fbformat fmt : str) : str :=
  (if isEmpty fb then [] else formatTag fbformat fmt) ++ flat_map (tokPost 0) fb.

(** The answer of a true-false question: the word, then the feedback for a
    wrong reply and the feedback for a right one. *)
Definition truefalseAnswer (word wrong right : str) : str :=
  word
  ++ (if negb (isEmpty wrong) then "#" ++ wrong
      else if negb (isEmpty right) then "#" else [])
  ++ (if negb (isEmpty right) then "#" ++ right else []).

Definition truefalseWord (correct : bool) : str :=
  if correct then "TRUE" else "FALSE".

(** The question [parseQuestion] returns for a true-false answer. *)
Definition truefalseQuestion (name questiontext fmt : str) (correct : bool)
  (feedbacktrue ftformat feedbackfalse ffformat generalfeedback gfformat idnumber : str)
  (tags : list str) : value :=
  VObj [ ("id" : str, VUndef);
         ("name" : str, VStr name);
         ("qtype" : str, VStr "truefalse");
         ("questiontext" : str, VStr questiontext);
         ("questiontextformat" : str, VStr fmt);
         ("generalfeedback" : str, VStr generalfeedback);
         ("generalfeedbackformat" : str, VStr gfformat);
         ("idnumber" : str, VStr idnumber);
         ("tags" : str, VArr (map VStr tags));
         ("correctanswer" : str, VNum (Num.ofZ (if correct then 1 else 0)));
         ("feedbacktrue" : str,
          twfValue {| text := feedbacktrue; format := ftformat |});
         ("feedbackfalse" : str,
          twfValue {| text := feedbackfalse; format := ffformat |});
         ("penalty" : str, VNum (Num.ofZ 1)) ].

(** The line of a true-false question; [wrong] and [right] are the feedbacks
    for a wrong and for a right reply. *)
Definition truefalseLine (name questiontext fmt : str) (correct : bool)
  (wrong wrongformat right rightformat generalfeedback gfformat : str) : str :=
  descriptionLine name questiontext fmt
  ++ "{"
  ++ truefalseAnswer (truefalseWord correct) (writtenPart wrong wrongformat fmt)
       (writtenPart right rightformat fmt)
  ++ feedbackSpan generalfeedback gfformat fmt ++ "}".

(** A text that starts with a character that ends every placeholder begun
    before it. *)
Definition startsSafe (tail : str) : Prop :=
  exists c rest, tail = c :: rest /\ (c = "{"%char \/ c = "}"%char \/ c = "#"%char).

(** A feedback in the answer, masked: none of the characters that cut the
    answer, and no white space at the ends. *)
Definition answerField (x : str) : Prop :=
  lacks "#" x = true /\ lacks "~" x = true /\ lacks "=" x = true
  /\ startsOk x /\ endsOk x.

(** The errors of the parser: the brace error and the errors of the answer
    parsers. *)
Definition parseError (e : error) : bool :=
  match e with
  | BraceError _
  | MultichoiceTooFew | MatchTooFew | MatchNoArrow | ShortanswerEmpty
  | NumericalEmpty | NumericalRange | NumericalTolerance | NumericalNumber => true
  | UnhandledQtype | UnsupportedQtype _ | TypeError | SyntaxError => false
  end.

(** * Properties *)

Ltac ascii_cases c :=
  destruct c as [[|] [|] [|] [|] [|] [|] [|] [|]].

Ltac lits := cbn [list_ascii_of_string] in *.

(** ** Facts about strings *)


Section StringFacts.

Lemma startsWith_nil pat : pat <> [] -> startsWith [] pat = false.
Proof. destruct pat; [congruence|reflexivity]. Qed.

Lemma startsWith_app s pat : startsWith (pat ++ s) pat = true.
Proof.
  induction pat as [|p pat IH]; [reflexivity|].
  cbn. now rewrite Ascii.eqb_refl, IH.
Qed.

Lemma startsWith_inv s pat :
  startsWith s pat = true -> s = pat ++ drop (length pat) s.
Proof.
  revert s. induction pat as [|p pat IH]; intros s H; [reflexivity|].
  destruct s as [|c s]; [discriminate|]. cbn in H.
  apply andb_prop in H as [Hc Hs]. apply Ascii.eqb_eq in Hc. subst c.
  cbn. f_equal. now apply IH.
Qed.

Lemma indexOfAux_absent pat s i :
  pat <> [] -> 0 <= i -> (indexOfAux pat s i = -1 <-> absent pat s = true).
Proof.
  intros Hpat. revert i. induction s as [|c s IH]; intros i Hi.
  - cbn. rewrite (startsWith_nil pat Hpat). tauto.
  - cbn [indexOfAux absent]. destruct (startsWith (c :: s) pat); cbn.
    + split; [lia|discriminate].
    + apply IH. lia.
Qed.

Lemma includes_absent pat s :
  pat <> [] -> (includes s pat = false <-> absent pat s = true).
Proof.
  intros Hpat. unfold includes, indexOf.
  rewrite negb_false_iff, Z.eqb_eq. now apply indexOfAux_absent.
Qed.

Lemma absent_single c s : absent [c] s = lacks c s.
Proof.
  induction s as [|x s IH]; [reflexivity|].
  cbn [absent lacks forallb startsWith]. rewrite andb_true_r.
  fold (lacks c s). rewrite IH. now rewrite (Ascii.eqb_sym x c).
Qed.

Lemma lacks_app c a b : lacks c (a ++ b) = lacks c a && lacks c b.
Proof. unfold lacks. apply forallb_app. Qed.

Lemma indexOfAux_char c a b i :
  lacks c a = true ->
  indexOfAux [c] (a ++ c :: b) i = i + Z.of_nat (length a).
Proof.
  revert i. induction a as [|x a IH]; intros i H.
  - cbn. rewrite Ascii.eqb_refl. cbn. lia.
  - cbn in H. apply andb_prop in H as [Hx Ha].
    cbn [app indexOfAux startsWith]. rewrite andb_true_r.
    rewrite Ascii.eqb_sym. apply negb_true_iff in Hx. rewrite Hx.
    rewrite IH by assumption. cbn [length]. lia.
Qed.

Lemma indexOf_char c a b :
  lacks c a = true -> indexOf (a ++ c :: b) [c] = Z.of_nat (length a).
Proof. intros H. unfold indexOf. now rewrite indexOfAux_char. Qed.

Lemma lastIndexOfAux_lacks c s i last :
  lacks c s = true -> lastIndexOfAux [c] s i last = last.
Proof.
  revert i last. induction s as [|x s IH]; intros i last H; [reflexivity|].
  cbn in H. apply andb_prop in H as [Hx Hs].
  cbn [lastIndexOfAux startsWith]. rewrite andb_true_r.
  rewrite Ascii.eqb_sym. apply negb_true_iff in Hx. rewrite Hx. now apply IH.
Qed.

Lemma lastIndexOfAux_char c a b i last :
  lacks c b = true ->
  lastIndexOfAux [c] (a ++ c :: b) i last = i + Z.of_nat (length a).
Proof.
  revert i last. induction a as [|x a IH]; intros i last H.
  - cbn [app lastIndexOfAux startsWith length]. rewrite Ascii.eqb_refl. cbn.
    rewrite lastIndexOfAux_lacks by assumption. lia.
  - cbn [app lastIndexOfAux length]. rewrite IH by assumption. lia.
Qed.

Lemma lastIndexOf_char c a b :
  lacks c b = true -> lastIndexOf (a ++ c :: b) [c] = Z.of_nat (length a).
Proof. intros H. unfold lastIndexOf. now rewrite lastIndexOfAux_char. Qed.

(** [lastIndexOf] finds a single character exactly when [indexOf] does. *)
Lemma lastIndexOfAux_range c s i last :
  0 <= i -> -1 <= last < i ->
  let r := lastIndexOfAux [c] s i last in
  (lacks c s = true /\ r = last) \/ (lacks c s = false /\ i <= r).
Proof.
  revert i last. induction s as [|x s IH]; intros i last Hi Hl; cbn zeta.
  - left. now split.
  - cbn [lastIndexOfAux startsWith lacks forallb]. rewrite andb_true_r.
    fold (lacks c s). rewrite (Ascii.eqb_sym x c).
    destruct (Ascii.eqb c x); cbn [negb andb].
    + right. split; [reflexivity|].
      destruct (IH (i + 1) i) as [[_ ->]|[_ ?]]; lia.
    + destruct (IH (i + 1) last) as [[-> ->]|[-> ?]]; [lia|lia| |].
      * left; now split.
      * right; split; [reflexivity|lia].
Qed.

Lemma lastIndexOf_none c s :
  lastIndexOf s [c] = -1 <-> lacks c s = true.
Proof.
  unfold lastIndexOf.
  destruct (lastIndexOfAux_range c s 0 (-1)) as [[H1 H2]|[H1 H2]]; try lia.
  - split; auto.
  - split; intros H; [lia|congruence].
Qed.

Lemma indexOf_none c s :
  indexOf s [c] = -1 <-> lacks c s = true.
Proof.
  unfold indexOf. rewrite indexOfAux_absent by (congruence || lia).
  now rewrite absent_single.
Qed.

Lemma includes_char c s : includes s [c] = negb (lacks c s).
Proof.
  unfold includes. destruct (lacks c s) eqn:H; cbn.
  - apply indexOf_none in H. now rewrite H.
  - destruct (indexOf s [c] =? -1) eqn:E; [|reflexivity].
    apply Z.eqb_eq, indexOf_none in E. congruence.
Qed.

(** *** [slice] *)

Lemma slice_middle a b c :
  slice (a ++ b ++ c) (Z.of_nat (length a)) (Z.of_nat (length a + length b)) = b.
Proof.
  unfold slice, sliceIdx. rewrite !length_app.
  repeat match goal with |- context [if ?x <? ?y then _ else _] =>
    destruct (Z.ltb_spec x y); try lia end.
  rewrite Z.min_l by lia. rewrite Z.min_l by lia.
  rewrite Nat2Z.id.
  replace (Z.to_nat (Z.of_nat (length a + length b) - Z.of_nat (length a)))
    with (length b) by lia.
  rewrite drop_app_length. now rewrite take_app_length.
Qed.

Lemma slice_prefix a b : slice (a ++ b) 0 (Z.of_nat (length a)) = a.
Proof.
  pose proof (slice_middle [] a b) as H. cbn [app length] in H.
  now rewrite Nat.add_0_l in H.
Qed.

Lemma sliceFrom_suffix a b : sliceFrom (a ++ b) (Z.of_nat (length a)) = b.
Proof.
  unfold sliceFrom.
  pose proof (slice_middle a b []) as H. rewrite app_nil_r in H.
  now rewrite length_app, Nat2Z.inj_add, <- Nat2Z.inj_add.
Qed.

Lemma equal_eq s t : Str.equal s t = true <-> s = t.
Proof.
  revert t. induction s as [|c s IH]; intros [|d t]; cbn; try (split; congruence).
  rewrite andb_true_iff, Ascii.eqb_eq, IH. split; [intros [-> ->]|intros [= -> ->]]; auto.
Qed.

Lemma equal_refl s : Str.equal s s = true.
Proof. now apply equal_eq. Qed.

End StringFacts.

(** ** The escaper *)

(** A pattern of one character is replaced character by character. *)
Lemma replaceAux_single p rep s :
  replaceAux [p] rep O s = flat_map (fun c => if Ascii.eqb p c then rep else [c]) s.
Proof.
  induction s as [|c s IH]; [reflexivity|].
  cbn [replaceAux flat_map startsWith length Nat.sub].
  rewrite andb_true_r. destruct (Ascii.eqb p c); cbn; now rewrite IH.
Qed.

Lemma flat_map_flat_map {A B C} (f : A -> list B) (g : B -> list C) l :
  flat_map g (flat_map f l) = flat_map (fun x => flat_map g (f x)) l.
Proof.
  induction l as [|x l IH]; [reflexivity|].
  cbn. now rewrite flat_map_app, IH.
Qed.

Lemma repchar_flat s : repchar s = flat_map enc s.
Proof.
  unfold repchar, replaceAll. cbn [list_ascii_of_string].
  rewrite !replaceAux_single, !flat_map_flat_map.
  apply flat_map_ext. intros c. ascii_cases c; reflexivity.
Qed.

(** One pass over a text given token by token. *)
Lemma pass_flat (P : str -> Prop) (tok tok' : ascii -> str) (pat rep : str) :
  (forall c r, P (c :: r) -> P r) ->
  (forall c r, P (c :: r) ->
     replaceAux pat rep O (tok c ++ flat_map tok r)
     = tok' c ++ replaceAux pat rep O (flat_map tok r)) ->
  forall s, P s -> replaceAll (flat_map tok s) pat rep = flat_map tok' s.
Proof.
  intros Htail Hstep s. unfold replaceAll.
  induction s as [|c s IH]; intros HP; [reflexivity|].
  cbn [flat_map]. rewrite (Hstep c s HP). f_equal. apply IH. eapply Htail, HP.
Qed.

Lemma pre_first s :
  replaceAll (flat_map enc s) "\\" "&&092;" = flat_map (tokPre 0) s.
Proof.
  apply (pass_flat (fun _ => True)); [trivial| |trivial].
  intros c r _. ascii_cases c; reflexivity.
Qed.

Lemma pre_pass i s : (i < 7)%nat ->
  replaceAll (flat_map (tokPre i) s) (escapeOf i) (placeholderOf i)
  = flat_map (tokPre (S i)) s.
Proof.
  intros Hi. apply (pass_flat (fun _ => True)); [trivial| |trivial].
  intros c r _.
  do 7 (destruct i as [|i]; [ascii_cases c; reflexivity|]). lia.
Qed.

Lemma clean_tail pat c r : clean pat (c :: r) -> clean pat r.
Proof.
  unfold clean, lacks. cbn [forallb absent]. intros [H1 H2].
  apply andb_prop in H1 as [_ H1]. apply andb_prop in H2 as [_ H2]. now split.
Qed.

Lemma clean_head pat c r :
  clean pat (c :: r) -> startsWith (c :: r) pat = false /\ lacks CR r = true.
Proof.
  unfold clean, lacks. cbn [forallb absent]. intros [H1 H2].
  apply andb_prop in H1 as [_ H1]. apply andb_prop in H2 as [H2 _].
  apply negb_true_iff in H2. now split.
Qed.

(** A match that would start at a literal ampersand: the characters that
    follow it in the tokens are those that follow it in the text. *)
Ltac look_step :=
  cbn in *; try reflexivity; try discriminate; try congruence.

Ltac look :=
  look_step;
  match goal with
  | |- context [flat_map _ ?r] =>
      is_var r; let c := fresh "c" in
      destruct r as [|c r]; [look_step | ascii_cases c; look_step]
  end.

Lemma look_restore r :
  lacks CR r = true -> startsWith ("&"%char :: r) "&&092;" = false ->
  startsWith ("&"%char :: flat_map (tokPre 7) r) "&&092;" = false.
Proof.
  intros Hcr H. do 5 look.
Qed.

Lemma look_post i r : (i < 7)%nat ->
  lacks CR r = true -> startsWith ("&"%char :: r) (placeholderOf i) = false ->
  startsWith ("&"%char :: flat_map (tokPost i) r) (placeholderOf i) = false.
Proof.
  intros Hi Hcr H.
  do 7 (destruct i as [|i]; [do 5 look|]). lia.
Qed.

Lemma replaceAux_skip pat rep c X :
  startsWith (c :: X) pat = false ->
  replaceAux pat rep O (c :: X) = c :: replaceAux pat rep O X.
Proof. intros H. cbn [replaceAux]. now rewrite H. Qed.

Lemma restore_pass s :
  clean "&&092;" s ->
  replaceAll (flat_map (tokPre 7) s) "&&092;" [backslash] = flat_map (tokPost 0) s.
Proof.
  apply (pass_flat (clean "&&092;")); [apply clean_tail|].
  intros c r [Hhead Hcr]%clean_head.
  pose proof (look_restore r Hcr) as Hlook.
  ascii_cases c; try reflexivity.
  exact (replaceAux_skip _ _ "&"%char _ (Hlook Hhead)).
Qed.

Lemma post_pass i s : (i < 7)%nat ->
  clean (placeholderOf i) s ->
  replaceAll (flat_map (tokPost i) s) (placeholderOf i) (plainOf i)
  = flat_map (tokPost (S i)) s.
Proof.
  intros Hi. apply (pass_flat (clean (placeholderOf i))); [apply clean_tail|].
  intros c r [Hhead Hcr]%clean_head.
  pose proof (look_post i r Hi Hcr) as Hlook.
  do 7 (destruct i as [|i];
        [ascii_cases c; try reflexivity;
         exact (replaceAux_skip _ _ "&"%char _ (Hlook Hhead))|]).
  lia.
Qed.

Lemma tokPost_last s :
  lacks CR s = true -> lacks LF s = true -> flat_map (tokPost 7) s = s.
Proof.
  induction s as [|c s IH]; [reflexivity|].
  unfold lacks. cbn [forallb flat_map].
  intros [Hc Hcr]%andb_prop [Hl Hlf]%andb_prop.
  rewrite (IH Hcr Hlf). clear IH Hcr Hlf.
  ascii_cases c; try reflexivity; discriminate.
Qed.

Lemma escapedcharPre_unfold s :
  escapedcharPre s
  = replaceAll (replaceEach ESC_PRE (replaceAll s "\\" "&&092;")) "&&092;" [backslash].
Proof. destruct s; reflexivity. Qed.

Lemma escapedcharPost_unfold s : escapedcharPost s = replaceEach ESC_POST s.
Proof. destruct s; reflexivity. Qed.

Lemma escape_unescape_tokens s :
  lacks CR s = true -> placeholderFree s = true ->
  escapedcharPost (escapedcharPre (repchar s)) = flat_map (tokPost 7) s.
Proof.
  intros Hcr Hfree.
  assert (Hall : forall p, In p placeholders -> clean p s).
  { intros p Hp. split; [exact Hcr|].
    unfold placeholderFree in Hfree. rewrite forallb_forall in Hfree. auto. }
  rewrite repchar_flat, escapedcharPre_unfold, escapedcharPost_unfold, pre_first.
  unfold replaceEach, ESC_POST, ESC_PRE. cbn [fold_left map fst snd].
  rewrite (pre_pass 0), (pre_pass 1), (pre_pass 2), (pre_pass 3),
    (pre_pass 4), (pre_pass 5), (pre_pass 6) by lia.
  rewrite restore_pass by (apply Hall; cbn; tauto).
  rewrite (post_pass 0), (post_pass 1), (post_pass 2), (post_pass 3),
    (post_pass 4), (post_pass 5), (post_pass 6)
    by (lia || (apply Hall; cbn; tauto)).
  reflexivity.
Qed.

Lemma absent_first c w s :
  lacks c s = true -> absent (c :: w) s = true.
Proof.
  induction s as [|x s IH]; [reflexivity|].
  cbn [absent forallb startsWith]. intros [Hx Hs]%andb_prop.
  rewrite (IH Hs), andb_true_r. rewrite Ascii.eqb_sym in Hx.
  apply negb_true_iff in Hx. now rewrite Hx.
Qed.

Lemma replaceAux_absent pat rep s :
  absent pat s = true -> replaceAux pat rep O s = s.
Proof.
  induction s as [|c s IH]; [reflexivity|].
  cbn [absent replaceAux]. intros [Hc Hs]%andb_prop.
  apply negb_true_iff in Hc. now rewrite Hc, (IH Hs).
Qed.

Lemma escapedchar_plain s :
  lacks backslash s = true ->
  placeholderFree s = true ->
  escapedcharPost (escapedcharPre s) = s.
Proof.
  intros Hbs Hfree.
  unfold placeholderFree, placeholders, ESC_PRE in Hfree.
  cbn [forallb map snd] in Hfree.
  repeat (apply andb_prop in Hfree as [?H Hfree]).
  rewrite escapedcharPre_unfold, escapedcharPost_unfold.
  unfold replaceEach, ESC_POST, ESC_PRE, replaceAll. cbn [fold_left map fst snd].
  rewrite !(replaceAux_absent (list_ascii_of_string _) _ s) by (apply absent_first, Hbs).
  rewrite !(replaceAux_absent _ _ s) by assumption.
  reflexivity.
Qed.

Lemma placeholderFree_includes s :
  (forall p, In p placeholders -> includes s p = false) -> placeholderFree s = true.
Proof.
  intros H. unfold placeholderFree. apply forallb_forall. intros p Hp.
  apply includes_absent; [|now apply H].
  cbn in Hp. decompose [or] Hp; subst; try discriminate; contradiction.
Qed.

Lemma lacks_includes c s : includes s [c] = false -> lacks c s = true.
Proof. rewrite includes_char. now intros ->%negb_false_iff. Qed.

(** C2, as amended.  For a text [s] in which none of the eight placeholders
    occurs: masking and unmasking [s] gives [s] back when [s] holds no
    backslash, that is, nothing to unescape; and escaping [s] for export,
    then masking and unmasking, gives [s] back when [s] holds neither a
    carriage return (which [repchar] drops) nor a newline. *)
Theorem escape_roundtrip (s : str) :
  (forall p, In p placeholders -> includes s p = false) ->
  (includes s [backslash] = false -> escapedcharPost (escapedcharPre s) = s)
  /\ (includes s [CR] = false -> includes s [LF] = false ->
      escapedcharPost (escapedcharPre (repchar s)) = s).
Proof.
  intros Hfree%placeholderFree_includes. split.
  - intros Hbs%lacks_includes. now apply escapedchar_plain.
  - intros Hcr%lacks_includes Hlf%lacks_includes.
    rewrite escape_unescape_tokens by assumption. now apply tokPost_last.
Qed.

Lemma escape_roundtrip_witness :
  escapedcharPost (escapedcharPre "a: b, c & d") = "a: b, c & d"
  /\ escapedcharPost (escapedcharPre (repchar "x = {a:1} # ~50% \ &"))
     = "x = {a:1} # ~50% \ &".
Proof.
  split.
  - destruct (escape_roundtrip "a: b, c & d") as [H _].
    + intros p Hp. cbn in Hp.
      decompose [or] Hp; subst; try reflexivity; contradiction.
    + now apply H.
  - destruct (escape_roundtrip "x = {a:1} # ~50% \ &") as [_ H].
    + intros p Hp. cbn in Hp.
      decompose [or] Hp; subst; try reflexivity; contradiction.
    + now apply H.
Defined.

(** C2 as stated fails: unmasking a masked escape gives the bare character,
    not the escape; an exported newline comes back as the letter n; and a
    text that holds a placeholder comes back with the character it stands
    for. *)
Lemma escape_roundtrip_counterexample :
  escapedcharPost (escapedcharPre "\:") <> "\:"
  /\ escapedcharPost (escapedcharPre (repchar [LF])) <> [LF]
  /\ escapedcharPost (escapedcharPre (repchar "&&058;")) <> "&&058;".
Proof. repeat split; discriminate. Qed.





(** *** Results and loops *)

Section ResultFacts.

Context {A B : Type}.

Lemma forEach_err (f : A -> result B) l e :
  forEach f l = Err e -> exists x, In x l /\ f x = Err e.
Proof.
  induction l as [|x l IH]; [discriminate|].
  cbn. destruct (f x) eqn:Hx; cbn.
  - destruct (forEach f l); cbn; [discriminate|].
    intros [= ->]. destruct IH as (y & Hy & Hfy); eauto.
  - intros [= ->]. eauto.
Qed.

Lemma forEach_fails (f : A -> result B) l x e :
  In x l -> f x = Err e -> exists e', forEach f l = Err e'.
Proof.
  induction l as [|y l IH]; [contradiction|].
  intros [->|Hin] Hx; cbn.
  - rewrite Hx. eauto.
  - destruct (f y); cbn; [|eauto].
    destruct (IH Hin Hx) as [e' ->]. cbn. eauto.
Qed.

Lemma forEach_ok (f : A -> result B) l ys :
  forEach f l = Ok ys -> length ys = length l /\ Forall2 (fun x y => f x = Ok y) l ys.
Proof.
  revert ys. induction l as [|x l IH]; intros ys.
  - intros [= <-]. split; [reflexivity|constructor].
  - cbn. destruct (f x) eqn:Hx; cbn; [|discriminate].
    destruct (forEach f l); cbn; [|discriminate].
    intros [= <-]. destruct (IH _ eq_refl) as [Hl HF].
    split; [cbn; congruence|now constructor].
Qed.

End ResultFacts.

(** *** Objects *)

Section ObjectFacts.

Lemma lookup_assign fields k v k' :
  Js.lookup (Js.assign fields k v) k'
  = if Str.equal k k' then v else Js.lookup fields k'.
Proof.
  induction fields as [|[k0 v0] fields IH]; cbn.
  - now destruct (Str.equal k k').
  - destruct (Str.equal k0 k) eqn:E; cbn.
    + apply equal_eq in E. subst k0. now destruct (Str.equal k k').
    + destruct (Str.equal k0 k') eqn:E'; [|exact IH].
      apply equal_eq in E'. subst k0.
      destruct (Str.equal k k') eqn:E''; [|reflexivity].
      apply equal_eq in E''. subst k'. now rewrite equal_refl in E.
Qed.

Lemma isObject_set q k v : isObject (Js.set q k v) = isObject q.
Proof. now destruct q. Qed.

Lemma get_set q k v k' :
  isObject q = true ->
  Js.get (Js.set q k v) k' = if Str.equal k k' then v else Js.get q k'.
Proof. destruct q; try discriminate. intros _. apply lookup_assign. Qed.

End ObjectFacts.

Ltac is_object := rewrite ?isObject_set; (reflexivity || assumption).
Ltac get_set :=
  repeat (rewrite get_set by is_object;
          cbn [Str.equal list_ascii_of_string Ascii.eqb Bool.eqb andb]).

(** *** Errors of the answer parsers *)

Lemma numericalValue_error raw e :
  numericalValue raw = Err e ->
  e = NumericalRange \/ e = NumericalTolerance \/ e = NumericalNumber.
Proof.
  unfold numericalValue.
  repeat match goal with
         | |- context [if ?b then _ else _] => destruct b
         end; intros [= <-]; auto.
Qed.

Lemma numericalAnswer_error fmt p e :
  numericalAnswer fmt p = Err e ->
  e = NumericalRange \/ e = NumericalTolerance \/ e = NumericalNumber.
Proof.
  unfold numericalAnswer. destruct (weightedPart p), (commentParser _ _).
  destruct (numericalValue _) eqn:H; cbn; [discriminate|].
  intros [= <-]. eauto using numericalValue_error.
Qed.

Lemma matchPair_error fmt p e : matchPair fmt p = Err e -> e = MatchNoArrow.
Proof.
  unfold matchPair. destruct (_ =? _); [|discriminate]. now intros [= <-].
Qed.

Lemma parseAnswers_error q qtype fmt answertext e :
  qtype = determineQtype answertext ->
  parseAnswers q qtype fmt answertext = Err e -> variantError qtype e = true.
Proof.
  intros Hq. unfold parseAnswers.
  assert (Hcases : In qtype [ "numerical" : str; "multichoice" : str; "match" : str;
                               "truefalse" : str; "shortanswer" : str ]).
  { subst qtype. unfold determineQtype.
    repeat match goal with
           | |- context [if ?b then _ else _] => destruct b
           end; cbn; tauto. }
  clear Hq. cbn in Hcases.
  destruct Hcases as [<-|[<-|[<-|[<-|[<-|[]]]]]]; cbn.
  - unfold parseNumerical. destruct (noItems _); [now intros [= <-]|].
    destruct (forEach _ _) eqn:H; cbn; [discriminate|]. intros [= <-].
    apply forEach_err in H as (x & _ & H).
    apply numericalAnswer_error in H as [->|[->| ->]]; reflexivity.
  - unfold parseMultichoice. destruct (_ <? _)%nat; [now intros [= <-]|discriminate].
  - unfold parseMatch. destruct (_ <? _)%nat; [now intros [= <-]|].
    destruct (forEach _ _) eqn:H; cbn; [discriminate|]. intros [= <-].
    apply forEach_err in H as (x & _ & H).
    now apply matchPair_error in H as ->.
  - unfold parseTruefalse, splitTrueFalseComment. discriminate.
  - unfold parseShortanswer. destruct (noItems _); [now intros [= <-]|discriminate].
Qed.

(** *** The braces of the answer *)

Lemma lastIndexOf_includes c s :
  (lastIndexOf s [c] =? -1) = negb (includes s [c]).
Proof.
  rewrite includes_char, negb_involutive.
  destruct (lacks c s) eqn:H.
  - apply lastIndexOf_none in H. now rewrite H.
  - apply Z.eqb_neq. rewrite lastIndexOf_none. congruence.
Qed.

Lemma indexOf_includes pat s : (indexOf s pat =? -1) = negb (includes s pat).
Proof. unfold includes. now rewrite negb_involutive. Qed.

Lemma findBraces_absent text0 :
  includes text0 "{" = false -> includes text0 "}" = false ->
  findBraces text0 = Ok Description.
Proof.
  intros H1 H2. unfold findBraces. lits.
  now rewrite indexOf_includes, lastIndexOf_includes, H1, H2.
Qed.

Lemma findBraces_mismatch text0 :
  (includes text0 "{" = true /\ includes text0 "}" = false)
  \/ (includes text0 "{" = false /\ includes text0 "}" = true)
  \/ (includes text0 "{" = true /\ includes text0 "}" = true
      /\ lastIndexOf text0 "}" < indexOf text0 "{") ->
  findBraces text0 = Err (BraceError (escapedcharPost text0)).
Proof.
  unfold findBraces. lits.
  rewrite indexOf_includes, lastIndexOf_includes.
  intros [[-> ->]|[[-> ->]|(-> & -> & H)]]; try reflexivity.
  apply Z.ltb_lt in H. now rewrite H.
Qed.

Lemma findBraces_span pre span post :
  lacks "{" pre = true -> lacks "}" post = true ->
  let text0 := pre ++ "{" ++ span ++ "}" ++ post in
  let b := Answer (Z.of_nat (length pre)) (Z.of_nat (length pre + 1 + length span)) in
  findBraces text0 = Ok b /\ answerSpan text0 b = span.
Proof.
  intros Hpre Hpost text0 b. subst text0 b. unfold findBraces. lits.
  cbn [app].
  rewrite indexOf_char by assumption.
  replace (pre ++ "{"%char :: span ++ "}"%char :: post)
    with ((pre ++ "{"%char :: span) ++ "}"%char :: post)
    by (now rewrite <- app_assoc).
  rewrite lastIndexOf_char by assumption.
  rewrite length_app. cbn [length].
  replace (length pre + S (length span))%nat with (length pre + 1 + length span)%nat by lia.
  split.
  - repeat match goal with
           | |- context [?x =? ?y] => destruct (Z.eqb_spec x y); try lia
           | |- context [?x <? ?y] => destruct (Z.ltb_spec x y); try lia
           end. reflexivity.
  - cbn [answerSpan].
    replace ((pre ++ "{"%char :: span) ++ "}"%char :: post)
      with ((pre ++ ["{"%char]) ++ span ++ ("}"%char :: post))
      by (now rewrite <- !app_assoc).
    pose proof (slice_middle (pre ++ ["{"%char]) span ("}"%char :: post)) as H.
    rewrite length_app in H. cbn [length] in H.
    now replace (Z.of_nat (length pre) + 1) with (Z.of_nat (length pre + 1)) by lia.
Qed.

Lemma parseBody_description comments name text0 :
  findBraces text0 = Ok Description ->
  exists q, parseBody comments name text0 = Ok q
    /\ Js.get q "qtype" = VStr "description"
    /\ Js.get q "questiontext" = VStr (text (parseTextWithFormat text0 FORMAT_MOODLE))
    /\ Js.get q "questiontextformat"
       = VStr (format (parseTextWithFormat text0 FORMAT_MOODLE)).
Proof.
  intros H. unfold parseBody. rewrite H. cbn [bind questionText answerSpan].
  destruct (splitGeneralFeedback _) as [gf at0].
  eexists. split; [reflexivity|].
  destruct (isEmpty name); repeat split; get_set; reflexivity.
Qed.

Lemma parseBody_answer comments name text0 s f :
  findBraces text0 = Ok (Answer s f) ->
  forall e, parseBody comments name text0 = Err e -> answerError e = true.
Proof.
  intros H e. unfold parseBody. rewrite H. cbn [bind].
  destruct (splitGeneralFeedback _) as [gf at0].
  destruct (isEmpty at0); [discriminate|].
  intros He. apply parseAnswers_error in He; [|reflexivity].
  destruct e; try discriminate; reflexivity.
Qed.

(** On such a block [parseQuestion] is [parseBody]. *)
Lemma parseQuestion_block lines comments name text0 :
  questionBlock lines = Some (comments, name, text0) ->
  parseQuestion lines = do q <- parseBody comments name text0; Ok (Some q).
Proof.
  unfold questionBlock, parseQuestion.
  destruct (separateComments lines) as [c work].
  destruct (isEmpty _); [discriminate|].
  destruct (isCategory _); [discriminate|].
  destruct (takeName _) as [n t]. now intros [= -> -> ->].
Qed.

(** C4, as amended.  Take a block that is neither empty nor a category line,
    and let [text0] be its masked text after the name wrapper is taken off.
    If neither brace occurs in [text0], the block parses as a description
    whose question text is [text0] read as a text with format.  If exactly
    one of the two occurs, or both do and the last closing brace comes before
    the first opening one, the parse fails with the brace error.  If [text0]
    is [pre], an opening brace, [span], a closing brace and [post], with no
    opening brace in [pre] and no closing brace in [post], the braces are
    found, the text cut out between them is [span] (the parser then trims
    it), and the parse raises no brace error. *)
Theorem brace_extraction (lines : list str) (comments name text0 : str) :
  questionBlock lines = Some (comments, name, text0) ->
  (includes text0 "{" = false -> includes text0 "}" = false ->
   exists q, parseQuestion lines = Ok (Some q)
     /\ Js.get q "qtype" = VStr "description"
     /\ Js.get q "questiontext"
        = VStr (text (parseTextWithFormat text0 FORMAT_MOODLE)))
  /\ ((includes text0 "{" = true /\ includes text0 "}" = false)
      \/ (includes text0 "{" = false /\ includes text0 "}" = true)
      \/ (includes text0 "{" = true /\ includes text0 "}" = true
          /\ lastIndexOf text0 "}" < indexOf text0 "{") ->
      exists e, parseQuestion lines = Err e
        /\ e = BraceError (escapedcharPost text0) /\ kindOf e = BraceMismatch)
  /\ (forall pre span post,
        text0 = pre ++ "{" ++ span ++ "}" ++ post ->
        lacks "{" pre = true -> lacks "}" post = true ->
        exists b, findBraces text0 = Ok b /\ answerSpan text0 b = span
          /\ forall e, parseQuestion lines = Err e ->
                       kindOf e <> BraceMismatch).
Proof.
  intros Hblock. rewrite (parseQuestion_block _ _ _ _ Hblock).
  split; [|split].
  - intros H1 H2.
    destruct (parseBody_description comments name text0) as (q & Hq & ? & ? & _);
      [now apply findBraces_absent|].
    exists q. rewrite Hq. auto.
  - intros H. eexists. split; [|split; reflexivity].
    unfold parseBody. now rewrite (findBraces_mismatch _ H).
  - intros pre span post -> Hpre Hpost.
    destruct (findBraces_span pre span post Hpre Hpost) as [Hb Hs].
    eexists. split; [exact Hb|]. split; [exact Hs|].
    intros e He.
    destruct (parseBody _ _ _) as [q|e'] eqn:Hp; [discriminate|].
    cbn in He. injection He as <-.
    apply (parseBody_answer _ _ _ _ _ Hb) in Hp.
    destruct e'; discriminate.
Qed.

Lemma brace_extraction_witness :
  (exists q, parseQuestion [ "::N::plain text" : str ] = Ok (Some q)
     /\ Js.get q "qtype" = VStr "description")
  /\ (exists e, parseQuestion [ "Q {" : str ] = Err e /\ kindOf e = BraceMismatch)
  /\ (exists b, findBraces "Q {=a} x" = Ok b /\ answerSpan "Q {=a} x" b = "=a").
Proof.
  split; [|split].
  - destruct (brace_extraction [ "::N::plain text" : str ] "" "N" "plain text" eq_refl)
      as (H & _ & _).
    destruct (H eq_refl eq_refl) as (q & Hq & Ht & _). now exists q.
  - destruct (brace_extraction [ "Q {" : str ] "" "" "Q {" eq_refl) as (_ & H & _).
    destruct H as (e & He & _ & Hk); [left; now split|]. now exists e.
  - destruct (brace_extraction [ "Q {=a} x" : str ] "" "" "Q {=a} x" eq_refl)
      as (_ & _ & H).
    destruct (H "Q " "=a" " x") as (b & Hb & Hs & _); try reflexivity.
    exists b. now split.
Defined.

(** C4 as stated fails: a brace inside the name wrapper is no brace of the
    answer.  The masked block holds an opening brace and no closing one, and
    it parses as a description. *)
Lemma brace_in_name_counterexample :
  includes (escapedcharPre "::a{::b") "{" = true
  /\ includes (escapedcharPre "::a{::b") "}" = false
  /\ exists q, parseQuestion [ "::a{::b" : str ] = Ok (Some q)
       /\ Js.get q "qtype" = VStr "description".
Proof.
  split; [reflexivity|]. split; [reflexivity|].
  eexists. split; [vm_compute; reflexivity|]. reflexivity.
Qed.

(** *** Classification *)

Lemma splitAux_head c cur s :
  exists rest, splitAux [c] O cur s = (rev cur ++ upTo c s) :: rest.
Proof.
  revert cur. induction s as [|x s IH]; intros cur; cbn.
  - rewrite app_nil_r. eauto.
  - rewrite andb_true_r. destruct (Ascii.eqb c x).
    + rewrite app_nil_r. eauto.
    + destruct (IH (x :: cur)) as [rest ->]. cbn. rewrite <- app_assoc. eauto.
Qed.

Lemma split_first c s : nth 0 (splitLimit s [c] 1) [] = upTo c s.
Proof.
  unfold splitLimit, Str.split.
  destruct (splitAux_head c [] s) as [rest ->]. reflexivity.
Qed.

Lemma upTo_lacks c s : lacks c s = true -> upTo c s = s.
Proof.
  induction s as [|x s IH]; [reflexivity|]. cbn.
  intros [Hx Hs]%andb_prop. rewrite Ascii.eqb_sym.
  apply negb_true_iff in Hx. rewrite Hx. now rewrite IH.
Qed.

Lemma isSpace_upper c : isSpace (upper c) = isSpace c.
Proof. ascii_cases c; reflexivity. Qed.

Lemma trimStart_upper s : trimStart (toUpperCase s) = toUpperCase (trimStart s).
Proof.
  induction s as [|c s IH]; [reflexivity|].
  cbn. rewrite isSpace_upper. now destruct (isSpace c).
Qed.

Lemma trim_upper s : trim (toUpperCase s) = toUpperCase (trim s).
Proof.
  unfold trim, trimEnd. rewrite trimStart_upper. unfold toUpperCase.
  rewrite <- map_rev. fold (toUpperCase (rev (trimStart s))).
  rewrite trimStart_upper. unfold toUpperCase. now rewrite map_rev.
Qed.

Lemma classify_determineQtype body :
  isEmpty body = false -> classify body = determineQtype body.
Proof.
  intros Hne. unfold classify, determineQtype, classificationRules.
  cbn [List.find fst snd]. rewrite Hne.
  destruct (startsWith body "#"); [reflexivity|].
  destruct (includes body "~"); [reflexivity|].
  destruct (includes body "=" && includes body "->"); [reflexivity|].
  replace (isVerdict body) with
    (inList ["T" : str; "TRUE" : str; "F" : str; "FALSE" : str]
       (toUpperCase (trim (if includes body "#"
                           then nth 0 (splitLimit body "#" 1) [] else body)))).
  { now destruct (inList _ _). }
  unfold isVerdict. rewrite trim_upper. do 3 f_equal. lits.
  rewrite split_first, includes_char.
  destruct (lacks "#" body) eqn:E; [|reflexivity]. cbn. now rewrite upTo_lacks.
Qed.

Lemma parseAnswers_qtype q qtype fmt answertext r :
  isObject q = true ->
  parseAnswers q qtype fmt answertext = Ok r ->
  Js.get r "qtype" = Js.get q "qtype".
Proof.
  intros Hq. unfold parseAnswers.
  repeat match goal with
         | |- context [if Str.equal ?a ?b then _ else _] =>
             destruct (Str.equal a b)
         end; try discriminate.
  - unfold parseMultichoice. destruct (_ <? _)%nat; [discriminate|].
    intros [= <-]. get_set. reflexivity.
  - unfold parseMatch. destruct (_ <? _)%nat; [discriminate|].
    destruct (forEach _ _); [|discriminate]. intros [= <-]. get_set. reflexivity.
  - unfold parseTruefalse. destruct (splitTrueFalseComment _ _) as [[? ?] ?].
    intros [= <-]. get_set. reflexivity.
  - unfold parseShortanswer. destruct (noItems _); [discriminate|].
    intros [= <-]. get_set. reflexivity.
  - unfold parseNumerical. destruct (noItems _); [discriminate|].
    destruct (forEach _ _); [|discriminate]. intros [= <-]. get_set. reflexivity.
Qed.

(** [parseBody] on a block with braces: the fields set so far are in an
    object [q0], and what is left is the essay, or the answers of the variant
    found for the answer text. *)
Lemma parseBody_answers (comments name text0 : str) (s f : Z) :
  findBraces text0 = Ok (Answer s f) ->
  let body := snd (splitGeneralFeedback (trim (slice text0 (s + 1) f))) in
  let fmt := format (parseTextWithFormat (questionText text0 (Answer s f)) FORMAT_MOODLE) in
  exists q0,
    isObject q0 = true
    /\ parseBody comments name text0
       = if isEmpty body then Ok (essayFields q0)
         else parseAnswers (Js.set q0 "qtype" (VStr (determineQtype body)))
                (determineQtype body) fmt body.
Proof.
  intros H body fmt. subst body fmt. unfold parseBody. rewrite H.
  cbn [bind answerSpan].
  destruct (splitGeneralFeedback _) as [gf body]. cbn [snd].
  eexists. split; [|reflexivity]. destruct (isEmpty name); is_object.
Qed.

(** C3.  Take a block that is neither empty nor a category line, with a
    well-formed answer span, and let [body] be the answer text without the
    general feedback.  The question parsed has the variant that the priority
    list of the specification gives [body] (empty: essay; starts with [#]:
    numerical; contains [~]: multichoice; contains [=] and [->]: match;
    verdict T, TRUE, F or FALSE: truefalse; otherwise shortanswer), the first
    rule that applies winning over the later ones; and when the parse fails,
    the error is one of that variant. *)
Theorem classification_priority (lines : list str) (comments name text0 : str)
  (s f : Z) :
  questionBlock lines = Some (comments, name, text0) ->
  findBraces text0 = Ok (Answer s f) ->
  let body := snd (splitGeneralFeedback (trim (slice text0 (s + 1) f))) in
  match parseQuestion lines with
  | Ok (Some q) => Js.get q "qtype" = VStr (classify body)
  | Ok None => False
  | Err e => variantError (classify body) e = true
  end.
Proof.
  intros Hblock H body. rewrite (parseQuestion_block _ _ _ _ Hblock).
  destruct (parseBody_answers comments name text0 s f H) as (q0 & Hq0 & ->).
  fold body. destruct (isEmpty body) eqn:Hbody; cbn [bind].
  - destruct body; [|discriminate]. unfold essayFields. get_set. reflexivity.
  - rewrite (classify_determineQtype _ Hbody).
    destruct (parseAnswers _ _ _ _) eqn:Hp; cbn [bind].
    + apply parseAnswers_qtype in Hp; [|is_object].
      rewrite Hp. get_set. reflexivity.
    + now apply parseAnswers_error in Hp.
Qed.

Lemma classification_priority_witness :
  match parseQuestion [ "Pick {#=1 ~T}" : str ] with
  | Ok (Some q) => Js.get q "qtype" = VStr "numerical"
  | _ => False
  end.
Proof.
  pose proof (classification_priority [ "Pick {#=1 ~T}" : str ] "" ""
                "Pick {#=1 ~T}" 5 12 eq_refl eq_refl) as H.
  vm_compute in H. vm_compute. exact H.
Defined.

(** *** The numerical wildcard *)

Lemma wildcardAnswer_fields fmt wrongfeedback :
  Js.get (wildcardAnswer fmt wrongfeedback) "answer" = VStr "*"
  /\ Js.get (wildcardAnswer fmt wrongfeedback) "fraction" = VNum (Num.ofZ 0)
  /\ Js.get (wildcardAnswer fmt wrongfeedback) "feedback"
     = VStr (text (snd (commentParser wrongfeedback fmt))).
Proof.
  unfold wildcardAnswer. destruct (commentParser _ _) as [a fb].
  repeat split.
Qed.

Lemma parseNumerical_wildcard q fmt before after r :
  lacks "~" before = true ->
  parseNumerical q fmt ("#" ++ before ++ "~" ++ after) = Ok r ->
  exists answers,
    r = Js.set q "answers" (VArr (answers ++ [wildcardAnswer fmt ("~" ++ after)]))
    /\ Forall2 (fun p a => numericalAnswer fmt p = Ok a)
         (splitParts before "=") answers.
Proof.
  intros Hb. unfold parseNumerical. lits. cbn [app].
  change (sliceFrom ("#"%char :: before ++ "~"%char :: after) 1)
    with (sliceFrom (["#"%char] ++ before ++ "~"%char :: after) (Z.of_nat (length ["#"%char]))).
  rewrite sliceFrom_suffix.
  rewrite indexOf_char by assumption.
  replace (Z.of_nat (length before) =? -1) with false by (symmetry; apply Z.eqb_neq; lia).
  cbn [negb]. rewrite slice_prefix, sliceFrom_suffix.
  destruct (noItems _); [discriminate|].
  destruct (forEach _ _) as [answers|] eqn:H; [|discriminate].
  cbn [bind isEmpty negb]. intros [= <-].
  exists answers. split; [reflexivity|]. now apply forEach_ok in H.
Qed.

Lemma determineQtype_numerical body :
  startsWith body "#" = true -> determineQtype body = "numerical".
Proof. intros H. unfold determineQtype. now rewrite H. Qed.

(** C8.  Take a block that parses to a question, whose answer text without
    the general feedback is [#], [before], a tilde and [after], with no tilde
    in [before].  The question is numerical; its answers are those of the
    parts of [before], in order, followed by exactly one more entry, made from
    the text from the tilde on; that last entry has the answer [*], the
    fraction 0 and the feedback read from that text. *)
Theorem numerical_wildcard_last (lines : list str) (comments name text0 : str)
  (s f : Z) (before after : str) (q : value) :
  questionBlock lines = Some (comments, name, text0) ->
  findBraces text0 = Ok (Answer s f) ->
  snd (splitGeneralFeedback (trim (slice text0 (s + 1) f)))
  = "#" ++ before ++ "~" ++ after ->
  lacks "~" before = true ->
  parseQuestion lines = Ok (Some q) ->
  let fmt := format (parseTextWithFormat (questionText text0 (Answer s f)) FORMAT_MOODLE) in
  let wildcard := wildcardAnswer fmt ("~" ++ after) in
  Js.get q "qtype" = VStr "numerical"
  /\ (exists answers,
        Js.get q "answers" = VArr (answers ++ [wildcard])
        /\ Forall2 (fun p a => numericalAnswer fmt p = Ok a)
             (splitParts before "=") answers)
  /\ Js.get wildcard "answer" = VStr "*"
  /\ Js.get wildcard "fraction" = VNum (Num.ofZ 0)
  /\ Js.get wildcard "feedback"
     = VStr (text (snd (commentParser ("~" ++ after) fmt))).
Proof.
  intros Hblock Hb Hbody Hbefore Hq fmt wildcard.
  rewrite (parseQuestion_block _ _ _ _ Hblock) in Hq.
  destruct (parseBody_answers comments name text0 s f Hb) as (q0 & Hq0 & Hp).
  cbn zeta in Hp. rewrite Hp, Hbody in Hq. clear Hp. fold fmt in Hq.
  cbn [isEmpty list_ascii_of_string app] in Hq.
  rewrite determineQtype_numerical in Hq by reflexivity.
  unfold parseAnswers in Hq.
  cbn [Str.equal list_ascii_of_string Ascii.eqb Bool.eqb andb] in Hq.
  destruct (parseNumerical _ _ _) as [r|] eqn:Hr; [|discriminate].
  cbn [bind] in Hq. injection Hq as <-.
  apply (parseNumerical_wildcard _ _ before after) in Hr; [|assumption].
  destruct Hr as (answers & -> & HF).
  split; [get_set; reflexivity|]. split; [|apply wildcardAnswer_fields].
  exists answers. split; [|exact HF]. get_set. reflexivity.
Qed.

Lemma numerical_wildcard_last_witness :
  exists q answers,
    parseQuestion [ "N {#=1:0.5 =%50%2 ~#no}" : str ] = Ok (Some q)
    /\ Js.get q "answers" = VArr (answers ++ [wildcardAnswer "moodle" "~#no"])
    /\ length answers = 2%nat.
Proof.
  destruct (parseQuestion [ "N {#=1:0.5 =%50%2 ~#no}" : str ]) as [[q|]|] eqn:Hq;
    try (vm_compute in Hq; discriminate).
  destruct (numerical_wildcard_last [ "N {#=1:0.5 =%50%2 ~#no}" : str ] "" ""
              "N {#=1:0.5 =%50%2 ~#no}" 2 22 "=1:0.5 =%50%2 " "#no" q
              eq_refl eq_refl eq_refl eq_refl Hq)
    as (_ & (answers & Ha & HF) & _).
  exists q, answers. split; [reflexivity|]. split; [exact Ha|].
  apply Forall2_length in HF. now rewrite <- HF.
Defined.

(** *** Splitting, and equal numbers *)

Lemma splitAux_absent sep cur s :
  absent sep s = true -> splitAux sep O cur s = [rev cur ++ s].
Proof.
  revert cur. induction s as [|x s IH]; intros cur.
  - cbn. now rewrite app_nil_r.
  - cbn [absent splitAux]. intros [Hx Hs]%andb_prop.
    apply negb_true_iff in Hx. rewrite Hx, IH by assumption.
    cbn. now rewrite <- app_assoc.
Qed.

Lemma Fin_canon (p q : Qc) : (this p == this q)%Q -> Fin p = Fin q.
Proof. intros H. f_equal. now apply Qc_is_canon. Qed.

(** *** All or nothing *)

Lemma parseLines_blocks lines buf questions :
  parseLines lines buf questions = parseBlocks (blocksFrom lines buf) questions.
Proof.
  revert buf questions. induction lines as [|line rest IH]; intros buf questions.
  - cbn. destruct (noItems buf); cbn; [reflexivity|].
    now destruct (flush buf questions).
  - cbn. destruct (isBlank line); [|apply IH].
    destruct buf as [|x buf]; cbn; [apply IH|].
    destruct (flush (x :: buf) questions); cbn; [apply IH|reflexivity].
Qed.

Lemma parseBlocks_spec bs questions :
  (exists results,
      Forall2 (fun b r => parseQuestion b = Ok r) bs results
      /\ parseBlocks bs questions = Ok (questions ++ questionsOf results))
  \/ (exists before b after e,
         bs = before ++ b :: after
         /\ Forall (fun b => exists r, parseQuestion b = Ok r) before
         /\ parseQuestion b = Err e
         /\ parseBlocks bs questions = Err e).
Proof.
  revert questions. induction bs as [|b bs IH]; intros questions.
  - left. exists []. split; [constructor|]. cbn. now rewrite app_nil_r.
  - cbn. unfold flush. destruct (parseQuestion b) as [r|e] eqn:Hb; cbn.
    + destruct (IH (match r with Some q => questions ++ [q] | None => questions end))
        as [(results & HF & ->)|(before & b' & after & e & -> & HF & He & ->)].
      * left. exists (r :: results). split; [now constructor|].
        destruct r; cbn; [now rewrite <- app_assoc|reflexivity].
      * right. exists (b :: before), b', after, e.
        repeat split; try assumption. constructor; eauto.
    + right. exists [], b, bs, e. repeat split; auto.
Qed.

Lemma Forall2_In_left {A B} (P : A -> B -> Prop) l l' x :
  Forall2 P l l' -> In x l -> exists y, P x y.
Proof.
  induction 1 as [|a b l l' Hab _ IH]; [contradiction|].
  intros [<-|Hin]; eauto.
Qed.

Lemma writeOne_unsupported question :
  (forall q, clone question = Ok q -> qtypeSupported q = false) ->
  exists e, writeOne question = Err e.
Proof.
  intros H. unfold writeOne. destruct (clone question) as [q|e] eqn:Hc; cbn; [|eauto].
  specialize (H q eq_refl). unfold writeCopy.
  destruct (notNull q) as [q'|e] eqn:Hn; cbn; [|eauto].
  assert (q' = q) as -> by (destruct q; cbn in Hn; congruence).
  unfold qtypeSupported, supportedQtypes in H. cbn [existsb] in H.
  repeat (apply orb_false_elim in H as [?H H]).
  unfold writeBody.
  repeat match goal with
         | Hs : Js.isStr _ ?t = false |- context [Js.isStr _ ?t] => rewrite Hs
         end.
  cbn. eauto.
Qed.

(** C9.  When some block of the input fails to parse, [parseGift] returns
    the error of the first block that fails, and no question; it returns
    questions only when every block parses, and then those of all the blocks
    in order.  When the copy of some question handed to [exportGift] has a
    [qtype] the exporter has no case for, [exportGift] returns an error, and
    no text. *)
Theorem all_or_nothing :
  (forall input block e,
      In block (blocks input) -> parseQuestion block = Err e ->
      exists before first after e',
        blocks input = before ++ first :: after
        /\ Forall (fun b => exists r, parseQuestion b = Ok r) before
        /\ parseQuestion first = Err e'
        /\ parseGift input = Err e')
  /\ (forall input questions,
        parseGift input = Ok questions ->
        exists results,
          Forall2 (fun b r => parseQuestion b = Ok r) (blocks input) results
          /\ questions = questionsOf results)
  /\ (forall questions question,
        In question questions ->
        (forall q, clone question = Ok q -> qtypeSupported q = false) ->
        exists e, exportGift questions = Err e).
Proof.
  split; [|split].
  - intros input block e Hin He. unfold parseGift. rewrite parseLines_blocks.
    fold (blocks input).
    destruct (parseBlocks_spec (blocks input) [])
      as [(results & HF & _)|(before & b & after & e' & ? & ? & ? & ?)].
    + exfalso. destruct (Forall2_In_left _ _ _ _ HF Hin) as [r Hr]. congruence.
    + exists before, b, after, e'. auto.
  - intros input questions. unfold parseGift. rewrite parseLines_blocks.
    fold (blocks input).
    destruct (parseBlocks_spec (blocks input) [])
      as [(results & HF & ->)|(before & b & after & e' & ? & ? & ? & ->)];
      [|discriminate].
    intros [= <-]. eauto.
  - intros questions question Hin H.
    destruct (writeOne_unsupported question H) as [e He].
    destruct (forEach_fails writeOne questions question e Hin He) as [e' He'].
    exists e'. unfold exportGift. now rewrite He'.
Qed.

Lemma all_or_nothing_witness :
  (exists e, parseGift ("Q1 {T}" ++ [LF; LF] ++ "Q {" ++ [LF; LF] ++ "Q3 {F}") = Err e)
  /\ (exists e, exportGift [ VObj [ ("qtype" : str, VStr "description") ];
                             VObj [ ("qtype" : str, VStr "cloze") ] ] = Err e).
Proof.
  destruct all_or_nothing as (Hparse & _ & Hexport). split.
  - destruct (Hparse ("Q1 {T}" ++ [LF; LF] ++ "Q {" ++ [LF; LF] ++ "Q3 {F}")
                [ "Q {" : str ] (BraceError "Q {"))
      as (_ & _ & _ & e & _ & _ & _ & H).
    + vm_compute. tauto.
    + reflexivity.
    + now exists e.
  - apply (Hexport _ (VObj [ ("qtype" : str, VStr "cloze") ])).
    + cbn. tauto.
    + intros q [= <-]. reflexivity.
Defined.

(** *** The exporter leaves the caller's objects alone *)

Lemma value_nested_ind (P : value -> Prop) :
  P VUndef -> P VNull -> (forall b, P (VBool b)) -> (forall n, P (VNum n)) ->
  (forall s, P (VStr s)) ->
  (forall items, Forall P items -> P (VArr items)) ->
  (forall fields, Forall (fun kx => P kx.2) fields -> P (VObj fields)) ->
  forall v, P v.
Proof.
  intros H1 H2 H3 H4 H5 H6 H7. fix IH 1. intros [| |b|n|s|items|fields].
  - exact H1.
  - exact H2.
  - apply H3.
  - apply H4.
  - apply H5.
  - apply H6. induction items as [|x items IHl]; constructor; [apply IH|exact IHl].
  - apply H7. induction fields as [|[k x] fields IHl]; constructor;
      [apply IH|exact IHl].
Qed.

Section Alloc.

Variable h0 : gmap loc cell.

Lemma allocated_insert h l c :
  allocated h0 h -> h !! l = None -> Forall (newSlot h0) (slots c) ->
  allocated h0 (<[ l := c ]> h) /\ h ⊆ <[ l := c ]> h /\ newSlot h0 (SRef l).
Proof.
  intros [Hsub Hnew] Hfresh Hc.
  assert (Hext : h ⊆ <[ l := c ]> h) by (now apply insert_subseteq).
  split; [split|split].
  - etrans; eassumption.
  - intros l' c' Hl Hl0. destruct (decide (l' = l)) as [->|Hne].
    + rewrite lookup_insert_eq in Hl. injection Hl as <-. exact Hc.
    + rewrite lookup_insert_ne in Hl by congruence. eapply Hnew; eassumption.
  - exact Hext.
  - unfold newSlot. destruct (h0 !! l) as [c'|] eqn:E; [|reflexivity].
    pose proof (lookup_weaken _ _ _ _ E Hsub) as E'. rewrite Hfresh in E'.
    discriminate E'.
Qed.

Lemma allocAll_allocated {A} (f : A -> gmap loc cell -> slot * gmap loc cell) l :
  Forall (fun x => forall h, allocated h0 h ->
            allocated h0 (f x h).2 /\ h ⊆ (f x h).2 /\ newSlot h0 (f x h).1) l ->
  forall h, allocated h0 h ->
    allocated h0 (allocAll f l h).2 /\ h ⊆ (allocAll f l h).2
    /\ Forall (newSlot h0) (allocAll f l h).1.
Proof.
  induction 1 as [|x l Hx _ IH]; intros h Hh.
  - cbn [allocAll fst snd]. split; [exact Hh|]. split; [reflexivity|constructor].
  - cbn [allocAll]. destruct (Hx h Hh) as (H1 & H2 & H3).
    destruct (f x h) as [s h1]. cbn [fst snd] in *.
    destruct (IH h1 H1) as (H4 & H5 & H6).
    fold (allocAll f) in *.
    destruct (allocAll f l h1) as [ss h2]. cbn [fst snd] in *.
    split; [exact H4|]. split; [etrans; eassumption|].
    constructor; assumption.
Qed.

Lemma alloc_allocated v :
  forall h, allocated h0 h ->
    allocated h0 (alloc v h).2 /\ h ⊆ (alloc v h).2 /\ newSlot h0 (alloc v h).1.
Proof.
  induction v as [| | | | |items IH|fields IH] using value_nested_ind;
    intros h Hh;
    try (cbn [alloc fst snd newSlot]; split; [exact Hh|]; split;
         [reflexivity|exact I]).
  - cbn [alloc].
    destruct (allocAll_allocated alloc items IH h Hh) as (H1 & H2 & H3).
    destruct (allocAll alloc items h) as [ss h1]. cbn [fst snd] in *.
    destruct (allocated_insert h1 (fresh (dom h1)) (CArr ss) H1) as (H4 & H5 & H6);
      [apply not_elem_of_dom, is_fresh|exact H3|].
    cbn [fst snd]. split; [exact H4|]. split; [etrans; eassumption|exact H6].
  - cbn [alloc].
    destruct (allocAll_allocated (fun kx => alloc kx.2) fields IH h Hh)
      as (H1 & H2 & H3).
    destruct (allocAll (fun kx => alloc kx.2) fields h) as [ss h1].
    cbn [fst snd] in *.
    assert (Hc : Forall (newSlot h0)
                   (slots (CObj (combine (map fst fields) ss)))).
    { cbn [slots]. apply List.Forall_forall. intros x Hx.
      apply in_map_iff in Hx as ([k x'] & <- & Hin).
      apply in_combine_r in Hin. rewrite List.Forall_forall in H3. now apply H3. }
    destruct (allocated_insert h1 (fresh (dom h1))
                (CObj (combine (map fst fields) ss)) H1) as (H4 & H5 & H6);
      [apply not_elem_of_dom, is_fresh|exact Hc|].
    cbn [fst snd]. split; [exact H4|]. split; [etrans; eassumption|exact H6].
Qed.

(** What can be got to from a new slot is new. *)
Lemma reach_new h s a :
  newCells h0 h -> newSlot h0 s -> reach h s a -> h0 !! a = None.
Proof.
  intros Hnew Hs Hr. induction Hr as [l|l c x a Hl Hx _ IH]; [exact Hs|].
  apply IH. cbn in Hs. specialize (Hnew l c Hl Hs).
  rewrite List.Forall_forall in Hnew. now apply Hnew.
Qed.

End Alloc.

Lemma allocated_refl h : allocated h h.
Proof. split; [reflexivity|]. intros l c Hl Hl0. congruence. Qed.

(** The copy is deep: the objects of the caller are as they were, and no
    object of the caller can be got to from the copy. *)
Lemma cloneAt_separate h question :
  h ⊆ (cloneAt h question).2
  /\ forall q, (cloneAt h question).1 = Ok q ->
       forall a, reach (cloneAt h question).2 q a -> h !! a = None.
Proof.
  unfold cloneAt. destruct (stringifyAt h question) as [obj|];
    [|split; [reflexivity|discriminate]].
  destruct (clone obj) as [copy|e]; [|split; [reflexivity|discriminate]].
  destruct (alloc_allocated h copy h (allocated_refl h)) as ([_ H1] & H2 & H3).
  destruct (alloc copy h) as [s h']. cbn [fst snd] in *.
  split; [exact H2|]. intros q [= <-] a Hr. eapply reach_new; eassumption.
Qed.

Section Writer.

Variable write : gmap loc cell -> slot -> result str * gmap loc cell.
Hypothesis write_local : writerLocal write.

Lemma writeOneWith_frame h question : h ⊆ (writeOneWith write h question).2.
Proof.
  unfold writeOneWith.
  destruct (cloneAt_separate h question) as [Hsub Hnew].
  destruct (cloneAt h question) as [[q|e] h']; cbn [fst snd] in *; [|exact Hsub].
  apply map_subseteq_spec. intros a c Ha.
  apply write_local.
  - eapply lookup_weaken; eassumption.
  - intros Hr. specialize (Hnew q eq_refl a Hr). congruence.
Qed.

Lemma exportLoopWith_frame h questions : h ⊆ (exportLoopWith write h questions).2.
Proof.
  revert h. induction questions as [|q rest IH]; intros h; [reflexivity|].
  cbn [exportLoopWith]. pose proof (writeOneWith_frame h q) as H.
  destruct (writeOneWith write h q) as [[block|e] h']; [|exact H].
  specialize (IH h').
  destruct (exportLoopWith write h' rest) as [[out|e] h'']; cbn in *; etrans; eauto.
Qed.

Lemma exportGiftWith_frame h questions : h ⊆ (exportGiftWith write h questions).2.
Proof.
  unfold exportGiftWith. pose proof (exportLoopWith_frame h questions) as H.
  destruct (exportLoopWith write h questions) as [[out|e] h']; exact H.
Qed.

End Writer.

Lemma writeCopyAt_local : writerLocal writeCopyAt.
Proof. intros h q a c Ha _. exact Ha. Qed.

Lemma clearAt_local : writerLocal clearAt.
Proof.
  intros h q a c Ha Hr. unfold clearAt. destruct q as [| | | | |l]; try exact Ha.
  destruct (h !! l) as [[fields|items]|] eqn:E; try exact Ha.
  cbn [snd]. rewrite lookup_insert_ne; [exact Ha|].
  intros ->. apply Hr. constructor.
Qed.

(** Run on an object of the caller, [clearAt] changes it: without the copy
    the caller's object would not be left as it was. *)
Example clearAt_assigns :
  essayStore !! 1%positive = Some (CObj [ ("qtype" : str, SStr "essay") ])
  /\ (clearAt essayStore (SRef 1%positive)).2 !! 1%positive = Some (CObj [])
  /\ ~ essayStore ⊆ (clearAt essayStore (SRef 1%positive)).2.
Proof.
  assert (H1 : essayStore !! 1%positive
               = Some (CObj [ ("qtype" : str, SStr "essay") ]))
    by (vm_compute; reflexivity).
  assert (H2 : (clearAt essayStore (SRef 1%positive)).2 !! 1%positive
               = Some (CObj []))
    by (vm_compute; reflexivity).
  split; [exact H1|]. split; [exact H2|].
  intros Hsub. pose proof (lookup_weaken _ _ _ _ H1 Hsub) as H3.
  rewrite H2 in H3. discriminate H3.
Qed.

(** C10.  Whatever [exportGift] returns, a text or an error, every object
    that was in the store before the call is in the store after it, with the
    fields it had.  This holds of the writers of the source, which only read;
    and, as they are given a deep copy, it holds of any writer in their place
    that assigns only to objects it gets to from the object it is given. *)
Theorem exportGift_frame h questions :
  h ⊆ (exportGiftAt h questions).2
  /\ forall write, writerLocal write -> h ⊆ (exportGiftWith write h questions).2.
Proof.
  split.
  - apply exportGiftWith_frame, writeCopyAt_local.
  - intros write Hw. apply exportGiftWith_frame, Hw.
Qed.

Lemma exportGift_frame_witness :
  essayStore ⊆ (exportGiftAt essayStore [SRef 1%positive]).2
  /\ writerLocal clearAt
  /\ essayStore ⊆ (exportGiftWith clearAt essayStore [SRef 1%positive]).2.
Proof.
  destruct (exportGift_frame essayStore [SRef 1%positive]) as [Hcode Hany].
  split; [exact Hcode|]. split; [exact clearAt_local|].
  apply (Hany clearAt). exact clearAt_local.
Defined.

(** The walk of [JSON.stringify] goes on as it went when the store grows. *)
Lemma readAt_mono fuel :
  forall fuel' h h' s v,
    h ⊆ h' -> (fuel <= fuel')%nat ->
    readAt fuel h s = Some v -> readAt fuel' h' s = Some v.
Proof.
  induction fuel as [|fuel IH]; intros fuel' h h' s v Hsub Hle Hr.
  - destruct s; try (destruct fuel'; exact Hr). discriminate Hr.
  - destruct s; try (destruct fuel'; exact Hr).
    destruct fuel' as [|fuel']; [lia|]. cbn [readAt] in *.
    destruct (h !! l) as [c|] eqn:E; [|discriminate Hr].
    rewrite (lookup_weaken _ _ _ _ E Hsub). destruct c as [fields|items].
    + destruct (mapM _ fields) as [fields'|] eqn:M; [|discriminate Hr].
      cbn in Hr. injection Hr as <-.
      apply mapM_Some in M.
      rewrite (mapM_Some_2 _ _ fields'); [reflexivity|].
      eapply Forall2_impl; [exact M|]. intros [k x] y Hy. cbn in *.
      destruct (readAt fuel h x) as [x'|] eqn:Ex; [|discriminate Hy].
      rewrite (IH fuel' h h' x x' Hsub ltac:(lia) Ex). exact Hy.
    + destruct (mapM _ items) as [items'|] eqn:M; [|discriminate Hr].
      cbn in Hr. injection Hr as <-.
      apply mapM_Some in M.
      rewrite (mapM_Some_2 _ _ items'); [reflexivity|].
      eapply Forall2_impl; [exact M|]. intros x y Hy.
      apply (IH fuel' h h' x y Hsub ltac:(lia) Hy).
Qed.

Lemma stringifyAt_mono h h' s v :
  h ⊆ h' -> stringifyAt h s = Some v -> stringifyAt h' s = Some v.
Proof.
  intros Hsub. apply readAt_mono; [exact Hsub|].
  apply le_n_S, map_subseteq_size, Hsub.
Qed.

Lemma allocAll_read {A} (f : A -> gmap loc cell -> slot * gmap loc cell)
  (val : A -> value) l :
  Forall (fun x => readable (val x) (f x)) l ->
  forall h,
    (fold_right (fun x n => Nat.max (height (val x)) n) O l + size h
       <= size (allocAll f l h).2)%nat
    /\ h ⊆ (allocAll f l h).2
    /\ forall h' fuel, (allocAll f l h).2 ⊆ h' ->
         (fold_right (fun x n => Nat.max (height (val x)) n) O l <= fuel)%nat ->
         Forall2 (fun s x => readAt fuel h' s = Some (val x)) (allocAll f l h).1 l.
Proof.
  induction 1 as [|x l Hx _ IH]; intros h.
  - cbn [allocAll fold_right fst snd]. split; [lia|]. split; [reflexivity|].
    intros h' fuel _ _. constructor.
  - cbn [allocAll fold_right]. destruct (Hx h) as (H1 & H2 & H3).
    destruct (f x h) as [s h1]. cbn [fst snd] in *.
    destruct (IH h1) as (H4 & H5 & H6). fold (allocAll f) in *.
    destruct (allocAll f l h1) as [ss h2]. cbn [fst snd] in *.
    split; [lia|]. split; [etrans; eassumption|].
    intros h' fuel Hsub Hle. constructor.
    + apply H3; [etrans; eassumption|lia].
    + apply H6; [exact Hsub|lia].
Qed.

(** The address of the object that [alloc] adds to [h] is free in [h]. *)
Ltac fresh_address h l H :=
  match goal with
  | |- context [ <[ ?a := _ ]> h ] =>
      assert (H : h !! a = None) by apply not_elem_of_dom, is_fresh;
      generalize dependent a; intros l H
  end.

(** Reading what [alloc] has built gives the value. *)
Lemma alloc_read v : readable v (alloc v).
Proof.
  induction v as [| | | | |items IH|fields IH] using value_nested_ind;
    try (intros h; cbn [alloc height fst snd]; split; [lia|]; split;
         [reflexivity|]; intros h' [|fuel] _ _; reflexivity).
  - intros h. cbn [alloc height].
    destruct (allocAll_read alloc (fun x => x) items IH h) as (H1 & H2 & H3).
    destruct (allocAll alloc items h) as [ss h1]. cbn [fst snd] in *.
    fresh_address h1 l Hf.
    pose proof (insert_subseteq h1 l (CArr ss) Hf) as Hext.
    split; [rewrite (map_size_insert_None _ _ _ Hf); exact (le_n_S _ _ H1)|].
    split; [etrans; eassumption|].
    intros h' [|fuel] Hsub Hle; [lia|]. cbn [readAt].
    rewrite (lookup_weaken _ _ _ _ (lookup_insert_eq h1 l (CArr ss)) Hsub).
    rewrite (mapM_Some_2 _ _ items); [reflexivity|].
    apply H3; [etrans; eassumption|exact (le_S_n _ _ Hle)].
  - intros h. cbn [alloc height].
    destruct (allocAll_read (fun kx => alloc kx.2) (fun kx => kx.2) fields IH h)
      as (H1 & H2 & H3).
    destruct (allocAll (fun kx => alloc kx.2) fields h) as [ss h1].
    cbn [fst snd] in *.
    fresh_address h1 l Hf.
    pose proof (insert_subseteq h1 l (CObj (combine (map fst fields) ss)) Hf)
      as Hext.
    split; [rewrite (map_size_insert_None _ _ _ Hf); exact (le_n_S _ _ H1)|].
    split; [etrans; eassumption|].
    intros h' [|fuel] Hsub Hle; [lia|]. cbn [readAt].
    rewrite (lookup_weaken _ _ _ _
               (lookup_insert_eq h1 l (CObj (combine (map fst fields) ss))) Hsub).
    rewrite (mapM_Some_2 _ _ fields); [reflexivity|].
    specialize (H3 h' fuel ltac:(etrans; eassumption) (le_S_n _ _ Hle)).
    clear -H3. induction H3 as [|s [k x] ss fields Hs _ IHF]; [constructor|].
    cbn. constructor; [|exact IHF]. cbn in *. now rewrite Hs.
Qed.

(** The copy holds the value that [clone] gives. *)
Lemma cloneAt_value h question obj :
  stringifyAt h question = Some obj ->
  match clone obj with
  | Ok copy =>
      exists s, (cloneAt h question).1 = Ok s
                /\ stringifyAt (cloneAt h question).2 s = Some copy
  | Err e => (cloneAt h question).1 = Err e
  end.
Proof.
  intros Hq. unfold cloneAt. rewrite Hq.
  destruct (clone obj) as [copy|e]; [|reflexivity].
  destruct (alloc_read copy h) as (H1 & _ & H3).
  destruct (alloc copy h) as [s h']. cbn [fst snd] in *.
  exists s. split; [reflexivity|]. apply H3; [reflexivity|lia].
Qed.

(** On the store the exporter writes what [exportGift] writes for the
    values of the objects given. *)
Lemma writeOneAt_value h question obj :
  stringifyAt h question = Some obj ->
  (writeOneWith writeCopyAt h question).1 = writeOne obj.
Proof.
  intros Hq. pose proof (cloneAt_value h question obj Hq) as Hc.
  unfold writeOneWith, writeOne.
  destruct (clone obj) as [copy|e].
  - destruct Hc as (s & Hs & Hread).
    destruct (cloneAt h question) as [r h']. cbn [fst snd] in *. subst r.
    unfold writeCopyAt. cbn [fst bind]. now rewrite Hread.
  - destruct (cloneAt h question) as [r h']. cbn [fst snd] in *. now subst r.
Qed.

Lemma exportLoopAt_value h questions objs :
  Forall2 (fun q obj => stringifyAt h q = Some obj) questions objs ->
  (exportLoopWith writeCopyAt h questions).1 = forEach writeOne objs.
Proof.
  revert h objs. induction questions as [|q rest IH]; intros h objs HF.
  - inversion HF. reflexivity.
  - inversion HF as [|? obj ? objs' Hq Hrest]; subst.
    cbn [exportLoopWith forEach].
    pose proof (writeOneAt_value h q obj Hq) as Hv.
    pose proof (writeOneWith_frame writeCopyAt writeCopyAt_local h q) as Hsub.
    destruct (writeOneWith writeCopyAt h q) as [[block|e] h']; cbn in Hv, Hsub;
      rewrite <- Hv; [|reflexivity].
    cbn [bind]. rewrite <- (IH h' objs').
    + now destruct (exportLoopWith writeCopyAt h' rest) as [[out|e] h''].
    + eapply Forall2_impl; [exact Hrest|].
      intros s o Hs. cbn in Hs. eapply stringifyAt_mono; eassumption.
Qed.

Lemma exportGiftAt_value h questions objs :
  Forall2 (fun q obj => stringifyAt h q = Some obj) questions objs ->
  (exportGiftAt h questions).1 = exportGift objs.
Proof.
  intros HF. unfold exportGiftAt, exportGiftWith, exportGift.
  rewrite <- (exportLoopAt_value h questions objs HF).
  now destruct (exportLoopWith writeCopyAt h questions) as [[out|e] h'].
Qed.


(** ** Weights and tags *)

Lemma spanDigits_digits s : digitsOnly (fst (Num.spanDigits s)) = true.
Proof.
  induction s as [|c s IH]; [reflexivity|]. cbn.
  destruct (isDigit c) eqn:E; [|reflexivity].
  destruct (Num.spanDigits s) as [d r]. cbn in *. now rewrite E, IH.
Qed.

Lemma spanDigits_app d r :
  digitsOnly d = true ->
  match r with [] => True | c :: _ => isDigit c = false end ->
  Num.spanDigits (d ++ r) = (d, r).
Proof.
  intros Hd Hr. induction d as [|c d IH]; cbn.
  - destruct r as [|c r]; [reflexivity|]. cbn. now rewrite Hr.
  - cbn in Hd. apply andb_prop in Hd as [Hc Hd]. now rewrite Hc, IH.
Qed.

Lemma digit_facts c :
  isDigit c = true ->
  isSpace c = false /\ Ascii.eqb c "+" = false /\ Ascii.eqb c "-" = false
  /\ Ascii.eqb "I" c = false /\ Ascii.eqb c "." = false
  /\ 0 <= Z.of_nat (nat_of_ascii c) - 48 <= 9.
Proof.
  ascii_cases c; vm_compute; intros H; try discriminate H;
    repeat split; try reflexivity; discriminate.
Qed.

Lemma digitsValue_snoc ds c :
  Num.digitsValue (ds ++ [c])
  = Num.digitsValue ds * 10 + (Z.of_nat (nat_of_ascii c) - 48).
Proof. unfold Num.digitsValue. now rewrite fold_left_app. Qed.

Lemma digitsValue_bound ds :
  digitsOnly ds = true -> 0 <= Num.digitsValue ds < 10 ^ Z.of_nat (length ds).
Proof.
  induction ds as [|c ds IH] using rev_ind; intros H.
  - cbn. lia.
  - unfold digitsOnly in H. rewrite forallb_app in H.
    apply andb_prop in H as [Hds Hc]. cbn in Hc. rewrite andb_true_r in Hc.
    apply digit_facts in Hc as (_ & _ & _ & _ & _ & Hc).
    specialize (IH Hds). rewrite digitsValue_snoc, length_app. cbn [length].
    rewrite Nat2Z.inj_add, Z.pow_add_r by lia. cbn. lia.
Qed.

Lemma digitsValue_app d1 d2 :
  Num.digitsValue (d1 ++ d2)
  = Num.digitsValue d1 * 10 ^ Z.of_nat (length d2) + Num.digitsValue d2.
Proof.
  induction d2 as [|c d2 IH] using rev_ind.
  - rewrite app_nil_r. cbn. lia.
  - rewrite app_assoc, !digitsValue_snoc, IH, length_app. cbn [length].
    rewrite Nat2Z.inj_add, Z.pow_add_r by lia. cbn. lia.
Qed.

(** The number read from [d1] or from [d1.d2]. *)
Lemma parseFloat_digits d1 d2 :
  d1 <> [] -> digitsOnly d1 = true -> digitsOnly d2 = true ->
  Num.parseFloat (d1 ++ match d2 with [] => [] | _ => "."%char :: d2 end)
  = Fin (Num.decimalValue (Num.digitsValue (d1 ++ d2)) (- Z.of_nat (length d2))).
Proof.
  intros Hne H1 H2. destruct d1 as [|c d1]; [congruence|]. clear Hne.
  pose proof H1 as Hc. cbn in Hc. apply andb_prop in Hc as [Hc _].
  destruct (digit_facts c Hc) as (Hsp & Hplus & Hminus & HI & _ & _).
  unfold Num.parseFloat. cbn [app trimStart]. rewrite Hsp.
  unfold Num.strDecimalLiteral. rewrite Hplus, Hminus.
  unfold Num.unsignedDecimal. lits. cbn [startsWith]. rewrite HI. cbn [andb].
  destruct d2 as [|c2 d2].
  - pose proof (spanDigits_app (c :: d1) [] H1 I) as E. cbn [app] in E.
    rewrite E. cbn [isEmpty]. unfold Num.finishDecimal. cbn.
    now rewrite !app_nil_r.
  - pose proof (spanDigits_app (c :: d1) ("."%char :: c2 :: d2) H1 eq_refl) as E.
    cbn [app] in *. rewrite E. cbn [Ascii.eqb Bool.eqb].
    pose proof (spanDigits_app (c2 :: d2) [] H2 I) as E2.
    rewrite app_nil_r in E2. rewrite E2.
    cbn [isEmpty andb]. unfold Num.finishDecimal. cbn [Num.exponentPart].
    reflexivity.
Qed.

Lemma digitsOnly_take n s : digitsOnly s = true -> digitsOnly (take n s) = true.
Proof.
  revert n. induction s as [|c s IH]; intros [|n] H; try reflexivity.
  cbn in *. apply andb_prop in H as [-> H]. now rewrite IH.
Qed.

Lemma matchWeight_groups s m1 m2 len :
  matchWeight s = Some (m1, m2, len) ->
  m1 <> [] /\ digitsOnly m1 = true /\ (length m1 <= 2)%nat
  /\ digitsOnly (match m2 with Some f => f | None => [] end) = true.
Proof.
  unfold matchWeight. destruct s as [|p s1]; [discriminate|].
  destruct (Ascii.eqb p "%"); [|discriminate].
  set (s2 := snd (match s1 with
                  | m :: t => if Ascii.eqb m "-" then (1%nat, t) else (0%nat, s1)
                  | [] => (0%nat, s1) end)).
  destruct (match s1 with
            | m :: t => if Ascii.eqb m "-" then (1%nat, t) else (0%nat, s1)
            | [] => (0%nat, s1) end) as [sign s2'] eqn:Es. cbn [snd] in s2. subst s2.
  pose proof (spanDigits_digits s2') as Hds.
  destruct (Num.spanDigits s2') as [ds rest]. cbn [fst] in Hds.
  destruct (isEmpty (take 2 ds)) eqn:Em; [discriminate|].
  assert (Hm : take 2 ds <> []) by (intros E; rewrite E in Em; discriminate).
  assert (Hl : (length (take 2 ds) <= 2)%nat) by (rewrite length_take; lia).
  pose proof (digitsOnly_take 2 ds Hds) as Ht.
  destruct (drop _ s2') as [|c t]; [discriminate|].
  destruct (Ascii.eqb c "%").
  - intros [= <- <- <-]. auto.
  - destruct (Ascii.eqb c "."); [|discriminate].
    pose proof (spanDigits_digits t) as Hf.
    destruct (Num.spanDigits t) as [f r]. cbn [fst] in Hf.
    destruct (startsWith r "%"); [|discriminate].
    intros [= <- <- <-]. auto.
Qed.

Lemma decimalValue_range M k :
  0 <= M < 100 * 10 ^ Z.of_nat k ->
  let q := Num.decimalValue M (- Z.of_nat k) in
  (0 <= q / Q2Qc (inject_Z 100))%Qc /\ (q / Q2Qc (inject_Z 100) < 1)%Qc.
Proof.
  intros HM q. subst q.
  assert (Hpow : 0 < 10 ^ Z.of_nat k) by (apply Z.pow_pos_nonneg; lia).
  unfold Qcle, Qclt, Qcdiv, Qcmult, Qcinv, Num.decimalValue.
  cbn [this Q2Qc].
  assert (E : (this (Q2Qc (if 0 <=? - Z.of_nat k
                            then inject_Z (M * 10 ^ (- Z.of_nat k))
                            else M # Z.to_pos (10 ^ (- - Z.of_nat k))))
               == M # Z.to_pos (10 ^ Z.of_nat k))%Q).
  { cbn [this Q2Qc]. rewrite Qred_correct.
    destruct (Z.leb_spec 0 (- Z.of_nat k)).
    - assert (k = 0%nat) as -> by lia. cbn. unfold inject_Z. now rewrite Z.mul_1_r.
    - now rewrite Z.opp_involutive. }
  destruct (0 <=? - Z.of_nat k);
    cbn [this Q2Qc] in *; rewrite !Qred_correct in *; rewrite ?E;
    unfold Qle, Qlt, Qmult, Qinv; cbn; rewrite ?Z2Pos.id by lia;
    rewrite ?Pos2Z.inj_mul, ?Z2Pos.id by lia; nia.
Qed.

(** The weight read from a prefix is never negative and never above 1,
    whether or not the prefix carries a minus sign. *)
Lemma parseWeight_range s w r :
  parseWeight s = (Some w, r) ->
  exists q, w = Fin q /\ (0 <= q)%Qc /\ (q <= 1)%Qc.
Proof.
  unfold parseWeight.
  destruct (matchWeight s) as [[[m1 m2] len]|] eqn:Hm; [|discriminate].
  intros [= <- _].
  apply matchWeight_groups in Hm as (Hne & H1 & Hlen & H2).
  set (d2 := match m2 with Some f => f | None => [] end) in *.
  lits. cbn [app].
  replace (match m2 with
           | Some f => if isEmpty f then [] else "."%char :: f
           | None => []
           end) with (match d2 with [] => [] | _ => "."%char :: d2 end)
    by (subst d2; destruct m2 as [[|? ?]|]; reflexivity).
  rewrite parseFloat_digits by assumption.
  eexists. split; [reflexivity|].
  match goal with
  | |- (0 <= ?x)%Qc /\ (?x <= 1)%Qc =>
      cut ((0 <= x)%Qc /\ (x < 1)%Qc);
      [intros [H0 Hlt]; split; [exact H0|now apply Qclt_le_weak]|]
  end.
  apply decimalValue_range.
  rewrite digitsValue_app.
  pose proof (digitsValue_bound m1 H1) as B1.
  pose proof (digitsValue_bound d2 H2) as B2.
  assert (10 ^ Z.of_nat (length m1) <= 100).
  { destruct m1 as [|? [|? [|? ?]]]; cbn in *; lia. }
  nia.
Qed.

(** A recognized tag is taken off the text and sets the format, as long as
    some text follows it. *)
Lemma recognized_tag_consumed tag rest defaultFormat :
  In tag [FORMAT_MOODLE; FORMAT_HTML; FORMAT_PLAIN; FORMAT_MARKDOWN] ->
  isEmpty rest = false ->
  parseTextWithFormat ("[" ++ tag ++ "]" ++ rest) defaultFormat
  = {| text := escapedcharPost (trim rest); format := tag |}.
Proof.
  intros Htag Hrest. unfold parseTextWithFormat.
  assert (Hidx : indexOf ("[" ++ tag ++ "]" ++ rest) "]"
                 = Z.of_nat (length ("[" ++ tag : str))).
  { cbn in Htag. decompose [or] Htag; subst; try contradiction; reflexivity. }
  rewrite Hidx.
  assert (Hs1 : slice ("[" ++ tag ++ "]" ++ rest) 1
                  (Z.of_nat (length ("[" ++ tag : str))) = tag).
  { pose proof (slice_middle "[" tag ("]" ++ rest)) as H.
    lits. cbn [app length] in *. exact H. }
  assert (Hs2 : sliceFrom ("[" ++ tag ++ "]" ++ rest)
                  (Z.of_nat (length ("[" ++ tag : str)) + 1) = rest).
  { pose proof (sliceFrom_suffix ("[" ++ tag ++ "]") rest) as H.
    rewrite <- !app_assoc in H. rewrite <- H at 2. f_equal.
    lits. cbn [app length]. rewrite length_app. cbn [length]. lia. }
  rewrite Hs1, Hs2.
  assert (Hf : formatNameToConst tag = tag).
  { cbn in Htag. decompose [or] Htag; subst; try contradiction; reflexivity. }
  rewrite Hf.
  assert (Hne : isEmpty tag = false).
  { cbn in Htag. decompose [or] Htag; subst; try contradiction; reflexivity. }
  rewrite Hne. lits. cbn [app isEmpty startsWith Ascii.eqb Bool.eqb andb negb].
  replace (0 <? Z.of_nat (length ("["%char :: tag))) with true
    by (symmetry; apply Z.ltb_lt; cbn [length]; lia).
  cbn [text format]. now rewrite Hrest.
Qed.

Lemma answerObject_fraction answer tolerance answerformat fraction feedback :
  Js.get (answerObject answer tolerance answerformat fraction feedback) "fraction"
  = VNum fraction.
Proof. destruct tolerance, answerformat; reflexivity. Qed.

Lemma unit_zero : unitFraction (VNum (Num.ofZ 0)).
Proof. eexists. split; [reflexivity|]. split; discriminate. Qed.

Lemma unit_one : unitFraction (VNum (Num.ofZ 1)).
Proof. eexists. split; [reflexivity|]. split; discriminate. Qed.

Lemma unit_weight s w r : parseWeight s = (Some w, r) -> unitFraction (VNum w).
Proof.
  intros (q & -> & H0 & H1)%parseWeight_range.
  exists q. split; [reflexivity|]. split; [exact H0|exact H1].
Qed.

Lemma multichoiceAnswer_fraction fmt part :
  unitFraction (Js.get (multichoiceAnswer fmt part) "fraction").
Proof.
  unfold multichoiceAnswer. destruct (startsWith part "=").
  - destruct (commentParser _ _). rewrite answerObject_fraction. apply unit_one.
  - destruct (parseWeight part) as [[w|] r] eqn:Hw;
      destruct (commentParser _ _); rewrite answerObject_fraction;
      eauto using unit_weight, unit_zero.
Qed.

Lemma weightedPart_fraction p : unitFraction (VNum (fst (weightedPart p))).
Proof.
  unfold weightedPart. destruct (parseWeight p) as [[w|] r] eqn:Hw; cbn;
    eauto using unit_weight, unit_one.
Qed.

Lemma shortAnswer_fraction fmt p :
  unitFraction (Js.get (shortAnswer fmt p) "fraction").
Proof.
  unfold shortAnswer. pose proof (weightedPart_fraction p) as H.
  destruct (weightedPart p), (commentParser _ _).
  now rewrite answerObject_fraction.
Qed.

Lemma numericalAnswer_fraction fmt p a :
  numericalAnswer fmt p = Ok a -> unitFraction (Js.get a "fraction").
Proof.
  unfold numericalAnswer. pose proof (weightedPart_fraction p) as H.
  destruct (weightedPart p), (commentParser _ _).
  destruct (numericalValue _); cbn; [|discriminate].
  intros [= <-]. now rewrite answerObject_fraction.
Qed.

(** ** Metadata

    Every match of the tag pattern consumes at least one character, so the
    loop over the matches needs no more rounds than the text is long. *)

Lemma metaLoop_shorter_aux n allowed entered s cap r :
  (length s <= n)%nat ->
  metaLoop allowed entered s = Some (cap, r) -> (length r < length s)%nat.
Proof.
  revert entered s cap r. induction n as [|n IH]; intros entered s cap r Hn.
  - destruct s; [discriminate|cbn in Hn; lia].
  - destruct s as [|c s]; [discriminate|]. cbn [length] in Hn.
    cbn [metaLoop].
    repeat match goal with
           | |- context [match metaLoop ?a ?e ?x with _ => _ end] =>
               let E := fresh "E" in
               destruct (metaLoop a e x) as [[? ?]|] eqn:E;
               [apply IH in E; [|cbn [length] in *; lia]|]
           | |- context [if ?b then _ else _] => destruct b
           | |- context [match ?x with [] => _ | _ :: _ => _ end] =>
               is_var x; destruct x
           end;
    try discriminate; intros H; injection H as; intros; subst;
    cbn [length] in *; lia.
Qed.

Lemma metaLoop_shorter allowed entered s cap r :
  metaLoop allowed entered s = Some (cap, r) -> (length r < length s)%nat.
Proof. now apply (metaLoop_shorter_aux (length s)). Qed.

Lemma findMeta_shorter prefix allowed s cap r :
  findMeta prefix allowed s = Some (cap, r) -> (length r < length s)%nat.
Proof.
  induction s as [|c s IH]; [discriminate|]. cbn [findMeta].
  assert (Hrec : findMeta prefix allowed s = Some (cap, r) ->
                 (length r < length (c :: s))%nat).
  { intros H. apply IH in H. cbn [length]. lia. }
  destruct (startsWith (c :: s) prefix); [|exact Hrec].
  destruct (metaLoop _ _ _) as [[cap' r']|] eqn:E; [|exact Hrec].
  intros [= <- <-]. apply metaLoop_shorter in E.
  rewrite length_drop in E. lia.
Qed.

(** The loop over the matches ends within the fuel it is given: more fuel
    finds no more matches. *)
Lemma allMeta_enough prefix allowed s fuel :
  (length s <= fuel)%nat ->
  allMeta fuel prefix allowed s = allMeta (length s) prefix allowed s.
Proof.
  assert (H : forall n s fuel fuel',
             (length s <= n)%nat -> (length s <= fuel)%nat ->
             (length s <= fuel')%nat ->
             allMeta fuel prefix allowed s = allMeta fuel' prefix allowed s).
  { clear s fuel. induction n as [|n IH]; intros s fuel fuel' Hn Hf Hf'.
    - destruct s; [|cbn in Hn; lia]. now destruct fuel, fuel'.
    - destruct fuel as [|fuel], fuel' as [|fuel'];
        try (destruct s; [reflexivity|cbn in *; lia]).
      cbn [allMeta].
      destruct (findMeta prefix allowed s) as [[cap r]|] eqn:E; [|reflexivity].
      apply findMeta_shorter in E. f_equal. apply IH; lia. }
  intros Hfuel. apply (H (length s)); lia.
Qed.

Example metadata_example :
  extractIdnumberAndTags "// [id:q\]1] [tag:a] [tag:b c] [tag:<x>]"
  = ("q]1" : str, [ "a" : str; "b c" : str ]).
Proof. reflexivity. Qed.

(** ** Evaluations *)

Lemma supported_formats text0 defaultFormat :
  In defaultFormat [FORMAT_MOODLE; FORMAT_HTML; FORMAT_PLAIN; FORMAT_MARKDOWN] ->
  In (format (parseTextWithFormat text0 defaultFormat))
     [FORMAT_MOODLE; FORMAT_HTML; FORMAT_PLAIN; FORMAT_MARKDOWN].
Proof.
  intros Hd. unfold parseTextWithFormat.
  destruct (isEmpty text0); [exact Hd|]. cbn [format].
  destruct (startsWith text0 "["); [|exact Hd].
  destruct (0 <? indexOf text0 "]"); [|exact Hd].
  destruct (negb (isEmpty (formatNameToConst _))) eqn:E; [|exact Hd].
  cbn [format]. unfold formatNameToConst.
  repeat match goal with
         | |- context [if ?b then _ else _] => destruct b
         end; cbn; tauto.
Qed.

(** C5, at the input where the code departs from it.  The tag [foo] is no
    format name, and yet it is taken off the text: the text is [bar], not the
    span as written. *)
Theorem unrecognized_tag_consumed :
  parseTextWithFormat "[foo]bar" FORMAT_MOODLE
  = {| text := "bar"; format := FORMAT_MOODLE |}
  /\ formatNameToConst "foo" = FORMAT_MOODLE.
Proof. split; reflexivity. Qed.

(** C6, at the input where the code departs from it.  The minus sign of the
    prefix is matched and dropped: the weight read is one half, not minus one
    half. *)
Theorem negative_weight_sign_lost :
  parseWeight "%-50%wrong" = (Some (Fin (Q2Qc (1 # 2))), "wrong" : str)
  /\ parseWeight "%50%wrong" = (Some (Fin (Q2Qc (1 # 2))), "wrong" : str).
Proof.
  split; vm_compute;
    (apply (f_equal2 pair); [apply (f_equal Some), Fin_canon|]; reflexivity).
Qed.

(** C7, at the input where the code departs from it.  A bare [*] is
    accepted, but what is stored as the answer is what [parseFloat] reads in
    it, which is not a number, and the exporter writes it as the answer
    [null] with the tolerance 0.  The wildcard is the string [*]: that is
    what the entry after a tilde stores, and what the exporter looks for to
    write the entry back. *)
Theorem bare_wildcard_lost :
  (exists q exported,
      parseGift "Any number? {#*}" = Ok [q]
      /\ answersOf q = [VNum NaN]
      /\ exportGift [q] = Ok exported
      /\ includes exported "=%100%null:0#" = true)
  /\ (exists q exported,
        parseGift "Any number? {#5 ~#none}" = Ok [q]
        /\ nth 1 (answersOf q) VUndef = VStr "*"
        /\ exportGift [q] = Ok exported
        /\ includes exported "~#none" = true).
Proof.
  split.
  - eexists. eexists.
    split; [vm_compute; reflexivity|].
    split; [reflexivity|].
    split; vm_compute; reflexivity.
  - eexists. eexists.
    split; [vm_compute; reflexivity|].
    split; [reflexivity|].
    split; vm_compute; reflexivity.
Qed.

(** C1, at an input where the code departs from it.  The exporter writes the
    weight of a short answer as [%100%], which the weight pattern of the
    parser (one or two digits) does not read: parsed again, the answer is no
    longer [Paris].  For the numerical question the second parse fails
    altogether. *)
Theorem roundtrip_breaks_on_weight :
  (exists questions again,
      parseGift "::Q1::Capital of France {=Paris}" = Ok questions
      /\ roundTrip "::Q1::Capital of France {=Paris}" = Ok again
      /\ map answersOf questions = [[VStr "Paris"]]
      /\ map answersOf again = [[VStr "%100%Paris"]]
      /\ again <> questions)
  /\ (exists questions,
        parseGift "Pi? {#3.14159:0.00001}" = Ok questions
        /\ roundTrip "Pi? {#3.14159:0.00001}" = Err NumericalTolerance).
Proof.
  split.
  - eexists. eexists.
    split; [vm_compute; reflexivity|].
    split; [vm_compute; reflexivity|].
    split; [reflexivity|]. split; [reflexivity|].
    intros H. apply (f_equal (map answersOf)) in H. discriminate H.
  - eexists. split; [vm_compute; reflexivity|]. vm_compute. reflexivity.
Qed.

(** The scenarios of the specification for numerical answers, read from a
    question. *)
Example numerical_scenarios :
  match parseGift "N {#1..3 =5:0.5 =7}" with
  | Ok [q] => answerAndTolerance q
  | _ => []
  end = [ ("2" : str, "1" : str); ("5" : str, "0.5" : str); ("7" : str, "0" : str) ].
Proof. vm_compute. reflexivity. Qed.

(** Texts on which parsing, exporting and parsing again gives the questions
    of the first parse: no weight is written for them. *)
Example roundtrip_holds :
  roundTrip "Is the sky blue? {T}" = parseGift "Is the sky blue? {T}"
  /\ roundTrip "2+2? {=4 ~3 ~5}" = parseGift "2+2? {=4 ~3 ~5}"
  /\ roundTrip "Pairs {=a -> b =c -> d}" = parseGift "Pairs {=a -> b =c -> d}"
  /\ roundTrip "$CATEGORY: top/sub" = parseGift "$CATEGORY: top/sub"
  /\ roundTrip "Write an essay {}" = parseGift "Write an essay {}"
  /\ roundTrip "::Intro::[html]Read <b>this</b>: a=b"
     = parseGift "::Intro::[html]Read <b>this</b>: a=b".
Proof. do 5 (split; [vm_compute; reflexivity|]). vm_compute. reflexivity. Qed.

(** ** Further properties *)

(** X1.  The pattern that [escapeRegExp] builds from a text is a literal one:
    it holds no operator, and the text it matches is the text it was built
    from.  So the global replacement that [escapedcharPre] and
    [escapedcharPost] run with the pattern of a key replaces the occurrences
    of the key itself, whatever syntax characters the key holds. *)
Theorem escapeRegExp_literal s : literalPattern (escapeRegExp s) = Some s.
Proof.
  induction s as [|c s IH]; [reflexivity|].
  unfold escapeRegExp in *. cbn [flat_map].
  destruct (isSyntaxChar c) eqn:E.
  - cbn [app literalPattern]. cbn [Ascii.eqb backslash].
    change (Ascii.eqb backslash backslash) with true. cbn iota.
    rewrite E, IH. reflexivity.
  - cbn [app literalPattern]. rewrite E.
    assert (Ascii.eqb c backslash = false) as ->.
    { destruct (Ascii.eqb_spec c backslash) as [->|]; [discriminate E|reflexivity]. }
    now rewrite IH.
Qed.

Lemma lower_upper c : lower (upper c) = lower c.
Proof. ascii_cases c; reflexivity. Qed.

Lemma toLowerCase_upper s : toLowerCase (toUpperCase s) = toLowerCase s.
Proof.
  unfold toLowerCase, toUpperCase. rewrite map_map.
  apply map_ext. intros c. apply lower_upper.
Qed.

Lemma formatNameToConst_cases name :
  In (formatNameToConst name) formats.
Proof.
  unfold formatNameToConst, formats.
  repeat match goal with
         | |- context [if ?b then _ else _] => destruct b
         end; cbn; tauto.
Qed.

(** X2.  The two maps between format names and format constants: whatever
    they are given, both return one of the four format constants; for a name
    of ASCII characters, [formatNameToConst] gives the same constant for the
    name in upper case; and each leaves alone what the other returns. *)
Theorem format_names (name : str) (fmt : value) :
  In (formatNameToConst name) formats
  /\ In (formatConstToName fmt) formats
  /\ (isAscii name = true ->
      formatNameToConst (toUpperCase name) = formatNameToConst name)
  /\ formatConstToName (VStr (formatNameToConst name)) = formatNameToConst name
  /\ formatNameToConst (formatConstToName fmt) = formatConstToName fmt.
Proof.
  split; [apply formatNameToConst_cases|].
  split.
  { unfold formatConstToName, formats.
    repeat match goal with
           | |- context [if ?b then _ else _] => destruct b
           end; cbn; tauto. }
  split.
  { intros _. unfold formatNameToConst. rewrite toLowerCase_upper.
    now destruct name. }
  split.
  { pose proof (formatNameToConst_cases name) as H. unfold formats in H.
    cbn in H. decompose [or] H; try contradiction;
      match goal with E : _ = formatNameToConst _ |- _ => rewrite <- E end;
      reflexivity. }
  unfold formatConstToName.
  repeat match goal with
         | |- context [if ?b then _ else _] => destruct b
         end; reflexivity.
Qed.

Lemma format_names_witness :
  isAscii "Html" = true
  /\ formatNameToConst (toUpperCase "Html") = formatNameToConst "Html".
Proof.
  destruct (format_names "Html" VUndef) as (_ & _ & Hcase & _).
  split; [reflexivity|]. apply Hcase. reflexivity.
Defined.

(** *** Texts without white space at the ends *)

Lemma trimStart_startsOk s : startsOk (trimStart s).
Proof.
  induction s as [|c s IH]; [exact I|]. cbn [trimStart].
  destruct (isSpace c) eqn:E; [exact IH|exact E].
Qed.

Lemma trimStart_id s : startsOk s -> trimStart s = s.
Proof. destruct s as [|c s]; [reflexivity|]. cbn. now intros ->. Qed.

Lemma trimStart_snoc l c :
  isSpace c = false -> trimStart (l ++ [c]) = trimStart l ++ [c].
Proof.
  intros Hc. induction l as [|x l IH]; cbn; [now rewrite Hc|].
  destruct (isSpace x); [exact IH|reflexivity].
Qed.

Lemma last_rev (s : str) : last (rev s) = head s.
Proof. destruct s as [|c s]; [reflexivity|]. cbn [rev]. now rewrite last_snoc. Qed.

Lemma head_rev (s : str) : head (rev s) = last s.
Proof. rewrite <- (rev_involutive s) at 2. now rewrite last_rev. Qed.

Lemma startsOk_head s :
  startsOk s <-> match head s with Some c => isSpace c = false | None => True end.
Proof. now destruct s. Qed.

Lemma endsOk_rev s : endsOk s <-> startsOk (rev s).
Proof. unfold endsOk. rewrite startsOk_head, head_rev. reflexivity. Qed.

Lemma trimEnd_cons c s :
  isSpace c = false -> trimEnd (c :: s) = c :: trimEnd s.
Proof.
  intros Hc. unfold trimEnd. cbn [rev].
  rewrite trimStart_snoc by exact Hc. now rewrite rev_app_distr.
Qed.

Lemma trim_ends s : startsOk (trim s) /\ endsOk (trim s).
Proof.
  unfold trim. split.
  - pose proof (trimStart_startsOk s) as H.
    destruct (trimStart s) as [|c u]; [exact I|].
    cbn in H. now rewrite trimEnd_cons.
  - apply endsOk_rev. unfold trimEnd. rewrite rev_involutive.
    apply trimStart_startsOk.
Qed.

Lemma trim_id s : startsOk s -> endsOk s -> trim s = s.
Proof.
  intros H1 H2%endsOk_rev. unfold trim, trimEnd.
  rewrite (trimStart_id s H1), (trimStart_id _ H2). apply rev_involutive.
Qed.

Lemma endsOk_app a b : endsOk a -> endsOk b -> endsOk (a ++ b).
Proof.
  unfold endsOk. intros Ha Hb.
  destruct b as [|x b] using rev_ind; [now rewrite app_nil_r|].
  rewrite app_assoc, last_snoc. now rewrite last_snoc in Hb.
Qed.

Lemma endsOk_cons c s : s <> [] -> endsOk s -> endsOk (c :: s).
Proof.
  unfold endsOk. intros Hs H. destruct s as [|x s]; [congruence|].
  now rewrite last_cons_cons.
Qed.

Lemma endsOk_tail c s : endsOk (c :: s) -> endsOk s.
Proof.
  unfold endsOk. destruct s as [|x s]; [intros _; exact I|].
  now rewrite last_cons_cons.
Qed.

Section Replace.

Variables pat rep : str.
Hypothesis rep_nonempty : rep <> [].
Hypothesis rep_starts : startsOk rep.
Hypothesis rep_ends : endsOk rep.

Lemma replaceAux_nonempty s : s <> [] -> replaceAux pat rep O s <> [].
Proof.
  destruct s as [|c s]; [congruence|]. intros _. cbn [replaceAux].
  destruct (startsWith _ _); [|discriminate].
  destruct rep; [congruence|discriminate].
Qed.

Lemma replaceAux_startsOk s : startsOk s -> startsOk (replaceAux pat rep O s).
Proof.
  destruct s as [|c s]; [trivial|]. cbn [replaceAux startsOk]. intros Hc.
  destruct (startsWith _ _); [|exact Hc].
  destruct rep; [congruence|exact rep_starts].
Qed.

Lemma replaceAux_endsOk skip s : endsOk s -> endsOk (replaceAux pat rep skip s).
Proof.
  revert skip. induction s as [|c s IH]; intros skip Hs; [exact I|].
  cbn [replaceAux]. destruct skip as [|k].
  - destruct (startsWith _ _).
    + apply endsOk_app; [exact rep_ends|]. apply IH. eapply endsOk_tail, Hs.
    + destruct s as [|x s]; [exact Hs|].
      apply endsOk_cons; [now apply replaceAux_nonempty|].
      apply IH. eapply endsOk_tail, Hs.
  - apply IH. eapply endsOk_tail, Hs.
Qed.

End Replace.

Lemma escapedcharPost_ends s :
  startsOk s -> endsOk s -> startsOk (escapedcharPost s) /\ endsOk (escapedcharPost s).
Proof.
  rewrite escapedcharPost_unfold.
  unfold replaceEach, ESC_POST, ESC_PRE, replaceAll. cbn [fold_left map fst snd].
  intros H1 H2.
  split.
  - repeat (apply replaceAux_startsOk; [now vm_compute..|]). exact H1.
  - repeat (apply replaceAux_endsOk; [now vm_compute..|]). exact H2.
Qed.

Lemma parseTextWithFormat_format t d :
  format (parseTextWithFormat t d) = d
  \/ In (format (parseTextWithFormat t d)) formats.
Proof.
  unfold parseTextWithFormat.
  destruct (isEmpty t); [now left|]. cbn [format].
  repeat match goal with
         | |- context [if ?b then _ else _] => destruct b
         end; cbn [format]; try (now left).
  right. apply formatNameToConst_cases.
Qed.

(** X3.  What [parseTextWithFormat] returns for any text: the format is the
    default it was given or one of the four format constants, and the text
    has no white space at either end. *)
Theorem parsed_text_wellformed (t d : str) :
  let r := parseTextWithFormat t d in
  (format r = d \/ In (format r) formats) /\ trim (text r) = text r.
Proof.
  cbn zeta. split; [apply parseTextWithFormat_format|].
  unfold parseTextWithFormat.
  destruct (isEmpty t); [reflexivity|]. cbn [text].
  match goal with |- context [escapedcharPost (trim ?b)] => generalize b end.
  intros body. destruct (trim_ends body) as [H1 H2].
  destruct (escapedcharPost_ends _ H1 H2) as [H3 H4].
  now apply trim_id.
Qed.

Lemma formatNameToConst_nonempty tag : isEmpty (formatNameToConst tag) = false.
Proof.
  pose proof (formatNameToConst_cases tag) as H. cbn in H.
  decompose [or] H; try contradiction;
    match goal with E : _ = formatNameToConst _ |- _ => rewrite <- E end;
    reflexivity.
Qed.

(** The tag in brackets at the start of a text, and what follows it. *)
Lemma tag_and_rest (tag rest : str) :
  lacks "]" tag = true ->
  let text0 := "[" ++ tag ++ "]" ++ rest in
  indexOf text0 "]" = Z.of_nat (length tag) + 1
  /\ slice text0 1 (Z.of_nat (length tag) + 1) = tag
  /\ sliceFrom text0 (Z.of_nat (length tag) + 1 + 1) = rest.
Proof.
  intros Htag. lits. cbn [app].
  replace (Z.of_nat (length tag) + 1) with (Z.of_nat (length ("["%char :: tag)))
    by (cbn [length]; lia).
  split; [|split].
  - apply (indexOf_char "]" ("["%char :: tag) rest). cbn. exact Htag.
  - exact (slice_middle ["["%char] tag ("]"%char :: rest)).
  - pose proof (sliceFrom_suffix ("["%char :: tag ++ ["]"%char]) rest) as H.
    rewrite <- app_comm_cons, <- app_assoc in H. cbn [app] in H.
    rewrite <- H at 2. f_equal.
    cbn [length]. rewrite length_app. cbn [length]. lia.
Qed.

Lemma tag_consumed (tag rest d : str) :
  lacks "]" tag = true -> rest <> [] ->
  parseTextWithFormat ("[" ++ tag ++ "]" ++ rest) d
  = {| text := escapedcharPost (trim rest); format := formatNameToConst tag |}.
Proof.
  intros Htag Hrest. destruct (tag_and_rest tag rest Htag) as (H1 & H2 & H3).
  unfold parseTextWithFormat. rewrite H1, H2, H3.
  lits. cbn [app isEmpty startsWith Ascii.eqb Bool.eqb andb].
  replace (0 <? Z.of_nat (length tag) + 1) with true
    by (symmetry; apply Z.ltb_lt; lia).
  rewrite formatNameToConst_nonempty. cbn [negb text format].
  destruct rest; [congruence|reflexivity].
Qed.

(** X4.  A text that starts with a tag in brackets: the format read is the
    one [formatNameToConst] gives for the tag (so the default of that
    function for an unknown name, not the default passed), and the text is
    what follows the tag, trimmed and unmasked; when nothing follows the tag,
    the text is the tag itself, brackets included. *)
Theorem bracket_tag_read (tag rest d : str) :
  lacks "]" tag = true ->
  parseTextWithFormat ("[" ++ tag ++ "]" ++ rest) d
  = {| text := escapedcharPost
                 (trim (if isEmpty rest then "[" ++ tag ++ "]" else rest));
       format := formatNameToConst tag |}.
Proof.
  intros Htag. destruct rest as [|c rest].
  - destruct (tag_and_rest tag [] Htag) as (H1 & H2 & H3).
    unfold parseTextWithFormat. rewrite H1, H2, H3.
    lits. cbn [app isEmpty startsWith Ascii.eqb Bool.eqb andb].
    replace (0 <? Z.of_nat (length tag) + 1) with true
      by (symmetry; apply Z.ltb_lt; lia).
    now rewrite formatNameToConst_nonempty.
  - now rewrite tag_consumed.
Qed.

Lemma bracket_tag_read_witness :
  parseTextWithFormat ("[" ++ "Html" ++ "]" ++ " <b>2 &&061; 2</b> ") FORMAT_MOODLE
  = {| text := "<b>2 = 2</b>"; format := FORMAT_HTML |}
  /\ parseTextWithFormat ("[" ++ "latex" ++ "]" ++ []) FORMAT_HTML
     = {| text := "[latex]"; format := FORMAT_MOODLE |}.
Proof.
  split.
  - apply (bracket_tag_read "Html" " <b>2 &&061; 2</b> " FORMAT_MOODLE). reflexivity.
  - apply (bracket_tag_read "latex" [] FORMAT_HTML). reflexivity.
Defined.

(** *** The masked form of an escaped text *)

Lemma placeholderFree_clean s p :
  lacks CR s = true -> placeholderFree s = true -> In p placeholders -> clean p s.
Proof.
  intros Hcr Hfree Hp. split; [exact Hcr|].
  unfold placeholderFree in Hfree. rewrite forallb_forall in Hfree. auto.
Qed.

Lemma mask_tokens s :
  lacks CR s = true -> absent "&&092;" s = true ->
  escapedcharPre (repchar s) = flat_map (tokPost 0) s.
Proof.
  intros Hcr Habs.
  rewrite repchar_flat, escapedcharPre_unfold, pre_first.
  unfold replaceEach, ESC_PRE. cbn [fold_left map fst snd].
  rewrite (pre_pass 0), (pre_pass 1), (pre_pass 2), (pre_pass 3),
    (pre_pass 4), (pre_pass 5), (pre_pass 6) by lia.
  apply restore_pass. now split.
Qed.

Lemma unmask_tokens s :
  lacks CR s = true -> placeholderFree s = true ->
  escapedcharPost (flat_map (tokPost 0) s) = flat_map (tokPost 7) s.
Proof.
  intros Hcr Hfree.
  pose proof (placeholderFree_clean s) as Hall.
  rewrite escapedcharPost_unfold.
  unfold replaceEach, ESC_POST, ESC_PRE. cbn [fold_left map fst snd].
  rewrite (post_pass 0), (post_pass 1), (post_pass 2), (post_pass 3),
    (post_pass 4), (post_pass 5), (post_pass 6)
    by (lia || (apply Hall; [assumption..|cbn; tauto])).
  reflexivity.
Qed.

Lemma placeholderFree_backslash s :
  placeholderFree s = true -> absent "&&092;" s = true.
Proof.
  unfold placeholderFree, placeholders. cbn [forallb].
  now intros [H _]%andb_prop.
Qed.

(** A pass of the escaper leaves alone a prefix in which the first character
    of the pattern does not occur. *)
Lemma replaceAux_prefix p w rep pre s :
  lacks p pre = true ->
  replaceAux (p :: w) rep O (pre ++ s) = pre ++ replaceAux (p :: w) rep O s.
Proof.
  induction pre as [|c pre IH]; [reflexivity|].
  cbn [lacks forallb]. intros [Hc Hpre]%andb_prop.
  cbn [app]. rewrite replaceAux_skip.
  - f_equal. apply IH, Hpre.
  - cbn [startsWith]. rewrite Ascii.eqb_sym.
    apply negb_true_iff in Hc. now rewrite Hc.
Qed.

Lemma escapedcharPre_prefix pre s :
  lacks backslash pre = true -> lacks "&" pre = true ->
  escapedcharPre (pre ++ s) = pre ++ escapedcharPre s.
Proof.
  intros Hb Ha. rewrite !escapedcharPre_unfold.
  unfold replaceEach, ESC_PRE, replaceAll. cbn [fold_left map fst snd]. lits.
  now rewrite !replaceAux_prefix.
Qed.

(** The masked form of a text without white space at the ends has none
    either, and starts with a bracket only where the text does. *)
Lemma tokPost_head c :
  isSpace c = false ->
  exists x r, tokPost 0 c = x :: r /\ isSpace x = false
              /\ endsOk (x :: r)
              /\ (Ascii.eqb c "[" = false -> Ascii.eqb x "[" = false).
Proof.
  ascii_cases c; intros H; try discriminate H;
    (eexists; eexists; split; [vm_compute; reflexivity|];
     split; [reflexivity|]; split; [vm_compute; reflexivity|];
     vm_compute; congruence).
Qed.

Lemma endsOk_app_r a b : b <> [] -> endsOk b -> endsOk (a ++ b).
Proof.
  unfold endsOk. intros Hb H.
  destruct b as [|x b _] using rev_ind; [congruence|].
  rewrite app_assoc, last_snoc. now rewrite last_snoc in H.
Qed.

Lemma masked_ends t :
  t <> [] -> startsOk t -> endsOk t ->
  let m := flat_map (tokPost 0) t in
  m <> [] /\ startsOk m /\ endsOk m
  /\ (startsWith t "[" = false -> startsWith m "[" = false).
Proof.
  intros Hne Hs He. cbn zeta.
  destruct t as [|c t]; [congruence|]. cbn [startsOk] in Hs.
  destruct (tokPost_head c Hs) as (x & r & Hx & Hsp & _ & Hbr).
  split; [|split; [|split]].
  - cbn [flat_map]. now rewrite Hx.
  - cbn [flat_map]. now rewrite Hx.
  - clear Hx Hsp Hbr x r Hne Hs.
    destruct (c :: t) as [|z u _] using rev_ind; [exact I|].
    rewrite flat_map_app. cbn [flat_map]. rewrite app_nil_r.
    unfold endsOk in He. rewrite last_snoc in He.
    destruct (tokPost_head z He) as (x & r & Hx & _ & Hend & _).
    rewrite Hx. now apply endsOk_app_r.
  - cbn [flat_map startsWith]. lits. cbn [startsWith]. rewrite Hx. cbn [app].
    rewrite !andb_true_r, (Ascii.eqb_sym _ c), (Ascii.eqb_sym _ x). exact Hbr.
Qed.

Lemma trim_ends_iff s : trim s = s -> startsOk s /\ endsOk s.
Proof. intros <-. apply trim_ends. Qed.

Lemma formatConstToName_format f :
  In f formats -> formatConstToName (VStr f) = f /\ formatNameToConst f = f
                  /\ lacks "]" f = true /\ lacks backslash f = true
                  /\ lacks "&" f = true /\ f <> [].
Proof.
  unfold formats. cbn [In]. intros H.
  decompose [or] H; try contradiction; subst; now vm_compute.
Qed.

Lemma span_masked (t f d : str) :
  In f formats -> t <> [] ->
  lacks CR t = true -> placeholderFree t = true ->
  escapedcharPre (writeQuestionText (VStr t) (VStr f) (VStr d))
  = formatTag f d ++ flat_map (tokPost 0) t.
Proof.
  intros Hf Hne Hcr Hfree.
  destruct (formatConstToName_format f Hf) as (Hname & Hconst & Hf1 & Hf2 & Hf3 & Hf4).
  unfold writeQuestionText, Js.or, formatTag.
  cbn [orMoodle Js.truthy Js.strictEq repcharV Js.toString].
  assert (isEmpty t = false) as -> by (destruct t; [congruence|reflexivity]).
  assert (isEmpty f = false) as -> by (destruct f; [congruence|reflexivity]).
  cbn [negb andb repcharV Js.toString].
  destruct (Str.equal f d); cbn [negb andb app].
  - apply mask_tokens; [assumption|now apply placeholderFree_backslash].
  - rewrite Hname, escapedcharPre_prefix.
    + now rewrite mask_tokens by (assumption || now apply placeholderFree_backslash).
    + lits. cbn [app lacks forallb]. rewrite forallb_app. cbn [forallb].
      fold (lacks backslash f). now rewrite Hf2.
    + lits. cbn [app lacks forallb]. rewrite forallb_app. cbn [forallb].
      fold (lacks "&" f). now rewrite Hf3.
Qed.

Lemma span_read (t f d : str) :
  In f formats ->
  t <> [] -> trim t = t ->
  lacks CR t = true -> lacks LF t = true -> placeholderFree t = true ->
  (f = d -> startsWith t "[" = false) ->
  parseTextWithFormat (formatTag f d ++ flat_map (tokPost 0) t) d
  = {| text := t; format := f |}.
Proof.
  intros Hf Hne Htrim Hcr Hlf Hfree Hbr.
  destruct (trim_ends_iff t Htrim) as [Hs He].
  destruct (masked_ends t Hne Hs He) as (Hm & Hms & Hme & Hmb).
  destruct (formatConstToName_format f Hf) as (Hname & Hconst & Hf1 & Hf2 & Hf3 & Hf4).
  assert (Hback : escapedcharPost (trim (flat_map (tokPost 0) t)) = t).
  { rewrite trim_id by assumption.
    rewrite unmask_tokens by assumption. now apply tokPost_last. }
  unfold formatTag. destruct (Str.equal f d) eqn:E.
  - apply equal_eq in E. subst d. cbn [app].
    unfold parseTextWithFormat.
    assert (isEmpty (flat_map (tokPost 0) t) = false) as ->
        by (destruct (flat_map _ t); [congruence|reflexivity]).
    rewrite (Hmb (Hbr eq_refl)). cbn [text format isEmpty list_ascii_of_string].
    now rewrite Hback.
  - rewrite <- !app_assoc. rewrite tag_consumed by assumption.
    now rewrite Hback, Hconst.
Qed.

(** X5.  A text with its format, written by [writeQuestionText], masked as
    the parser masks a block and read by [parseTextWithFormat] with the same
    default format, comes back as it was.  The text is not empty, has no
    white space at the ends, no line break and no placeholder of the escaper;
    the format is one of the four constants; and a text in the default
    format does not start with a bracket. *)
Theorem text_span_roundtrip (t f d : str) :
  In f formats ->
  t <> [] -> trim t = t ->
  lacks CR t = true -> lacks LF t = true -> placeholderFree t = true ->
  (f = d -> startsWith t "[" = false) ->
  parseTextWithFormat
    (escapedcharPre (writeQuestionText (VStr t) (VStr f) (VStr d))) d
  = {| text := t; format := f |}.
Proof.
  intros Hf Hne Htrim Hcr Hlf Hfree Hbr.
  rewrite span_masked by assumption.
  now apply span_read.
Qed.

Lemma text_span_roundtrip_witness :
  parseTextWithFormat
    (escapedcharPre (writeQuestionText (VStr "<b>2 + 2 = {x}?</b>") (VStr "html")
                       (VStr "moodle"))) "moodle"
  = {| text := "<b>2 + 2 = {x}?</b>"; format := "html" |}.
Proof.
  apply (text_span_roundtrip "<b>2 + 2 = {x}?</b>" "html" "moodle");
    try (vm_compute; tauto); try reflexivity; try discriminate.
Defined.

(** *** Comments *)

Lemma splitAux_char c cur a s :
  lacks c a = true ->
  splitAux [c] O cur (a ++ c :: s) = (rev cur ++ a) :: splitAux [c] O [] s.
Proof.
  revert cur. induction a as [|x a IH]; intros cur Ha.
  - cbn. now rewrite Ascii.eqb_refl, app_nil_r.
  - cbn [lacks forallb] in Ha. apply andb_prop in Ha as [Hx Ha].
    apply negb_true_iff in Hx. cbn [app splitAux startsWith].
    rewrite Ascii.eqb_sym, Hx. cbn [andb]. rewrite IH by exact Ha.
    cbn [rev]. now rewrite <- app_assoc.
Qed.

Lemma split_char c a s :
  lacks c a = true -> Str.split (a ++ c :: s) [c] = a :: Str.split s [c].
Proof. intros Ha. unfold Str.split. now rewrite splitAux_char. Qed.

Lemma split_none c a : lacks c a = true -> Str.split a [c] = [a].
Proof.
  intros Ha. unfold Str.split. rewrite splitAux_absent; [reflexivity|].
  now rewrite absent_single.
Qed.

(** X6.  [commentParser] cuts an answer at its first two [#]: the part
    before the first is the answer, the part between them the feedback, and
    what follows the second is dropped.  Without a [#] the feedback is the
    empty text in the default format. *)
Theorem comment_fields (a b rest d : str) :
  lacks "#" a = true -> lacks "#" b = true ->
  commentParser a d = (parseTextWithFormat (trim a) d, emptyText d)
  /\ commentParser (a ++ "#" ++ b) d
     = (parseTextWithFormat (trim a) d, parseTextWithFormat (trim b) d)
  /\ commentParser (a ++ "#" ++ b ++ "#" ++ rest) d
     = commentParser (a ++ "#" ++ b) d.
Proof.
  intros Ha Hb. unfold commentParser, splitLimit. lits. cbn [app].
  rewrite (split_none _ a Ha).
  rewrite !(split_char _ a) by exact Ha.
  rewrite (split_char _ b) by exact Hb.
  rewrite (split_none _ b Hb).
  destruct (Str.split rest ["#"%char]) eqn:E; repeat split; reflexivity.
Qed.

Lemma comment_fields_witness :
  commentParser "Paris " "moodle"
  = (parseTextWithFormat (trim "Paris ") "moodle", emptyText "moodle")
  /\ commentParser ("Paris " ++ "#" ++ " right ") "moodle"
     = (parseTextWithFormat (trim "Paris ") "moodle",
        parseTextWithFormat (trim " right ") "moodle")
  /\ commentParser ("Paris " ++ "#" ++ " right " ++ "#" ++ " once more") "moodle"
     = commentParser ("Paris " ++ "#" ++ " right ") "moodle".
Proof. apply (comment_fields "Paris " " right " " once more" "moodle"); reflexivity. Defined.

(** X7.  [splitTrueFalseComment] cuts an answer at its first three [#]: the
    answer, the feedback for a wrong reply and the feedback for a right one,
    each empty in the default format when its part is missing; what follows a
    third [#] is dropped. *)
Theorem truefalse_comment_fields (a b c rest d : str) :
  lacks "#" a = true -> lacks "#" b = true -> lacks "#" c = true ->
  splitTrueFalseComment a d
  = (parseTextWithFormat (trim a) d, emptyText d, emptyText d)
  /\ splitTrueFalseComment (a ++ "#" ++ b) d
     = (parseTextWithFormat (trim a) d, parseTextWithFormat (trim b) d, emptyText d)
  /\ splitTrueFalseComment (a ++ "#" ++ b ++ "#" ++ c) d
     = (parseTextWithFormat (trim a) d, parseTextWithFormat (trim b) d,
        parseTextWithFormat (trim c) d)
  /\ splitTrueFalseComment (a ++ "#" ++ b ++ "#" ++ c ++ "#" ++ rest) d
     = splitTrueFalseComment (a ++ "#" ++ b ++ "#" ++ c) d.
Proof.
  intros Ha Hb Hc. unfold splitTrueFalseComment, splitLimit. lits. cbn [app].
  rewrite (split_none _ a Ha).
  rewrite !(split_char _ a) by exact Ha.
  rewrite !(split_char _ b) by exact Hb.
  rewrite (split_char _ c) by exact Hc.
  rewrite (split_none _ b Hb), (split_none _ c Hc).
  repeat split; reflexivity.
Qed.

Lemma truefalse_comment_fields_witness :
  splitTrueFalseComment "T" "moodle"
  = (parseTextWithFormat (trim "T") "moodle", emptyText "moodle", emptyText "moodle")
  /\ splitTrueFalseComment ("T" ++ "#" ++ "no") "moodle"
     = (parseTextWithFormat (trim "T") "moodle",
        parseTextWithFormat (trim "no") "moodle", emptyText "moodle")
  /\ splitTrueFalseComment ("T" ++ "#" ++ "no" ++ "#" ++ "yes") "moodle"
     = (parseTextWithFormat (trim "T") "moodle",
        parseTextWithFormat (trim "no") "moodle",
        parseTextWithFormat (trim "yes") "moodle")
  /\ splitTrueFalseComment ("T" ++ "#" ++ "no" ++ "#" ++ "yes" ++ "#" ++ "more") "moodle"
     = splitTrueFalseComment ("T" ++ "#" ++ "no" ++ "#" ++ "yes") "moodle".
Proof.
  apply (truefalse_comment_fields "T" "no" "yes" "more" "moodle"); reflexivity.
Defined.

(** *** Weights *)

Lemma spanDigits_split s :
  s = fst (Num.spanDigits s) ++ snd (Num.spanDigits s).
Proof.
  induction s as [|c s IH]; [reflexivity|]. cbn [Num.spanDigits].
  destruct (isDigit c); [|reflexivity].
  destruct (Num.spanDigits s) as [d r]. cbn [fst snd] in *. now rewrite IH at 1.
Qed.

Lemma matchWeight_shape s m1 m2 len :
  matchWeight s = Some (m1, m2, len) ->
  exists minus rest,
    s = weightPrefix minus m1 m2 ++ rest
    /\ len = length (weightPrefix minus m1 m2).
Proof.
  unfold matchWeight. destruct s as [|p s1]; [discriminate|].
  destruct (Ascii.eqb_spec p "%") as [->|]; [|discriminate].
  assert (Hsign : exists (minus : bool) (s2 : str),
             match s1 with
             | m :: t => if Ascii.eqb m "-" then (1%nat, t) else (0%nat, s1)
             | [] => (0%nat, s1) end = ((if minus then 1 else 0)%nat, s2)
             /\ s1 = (if minus then "-" else []) ++ s2).
  { destruct s1 as [|m t]; [exists false; now exists (@nil ascii)|].
    destruct (Ascii.eqb_spec m "-") as [->|]; [exists true; now exists t|].
    exists false. now exists (m :: t). }
  destruct Hsign as (minus & s2 & -> & ->).
  pose proof (spanDigits_split s2) as Hsplit.
  destruct (Num.spanDigits s2) as [ds r0]. cbn [fst snd] in Hsplit.
  destruct (isEmpty (take 2 ds)) eqn:Em; [discriminate|].
  assert (Hdrop : s2 = take 2 ds ++ drop (length (take 2 ds)) s2).
  { rewrite Hsplit.
    rewrite drop_app_le by (rewrite length_take; lia).
    rewrite app_assoc. f_equal.
    destruct ds as [|a [|b ds]]; reflexivity. }
  destruct (drop (length (take 2 ds)) s2) as [|c t] eqn:Ed; [discriminate|].
  destruct (Ascii.eqb_spec c "%") as [->|].
  - intros [= <- <- <-]. exists minus, t. unfold weightPrefix. lits.
    split.
    + rewrite Hdrop. destruct minus; cbn [app]; rewrite <- ?app_assoc;
        cbn [app]; reflexivity.
    + destruct minus; cbn [app length]; rewrite ?length_app; cbn [length]; lia.
  - destruct (Ascii.eqb_spec c ".") as [->|]; [|discriminate].
    pose proof (spanDigits_split t) as Hsplit2.
    destruct (Num.spanDigits t) as [f r]. cbn [fst snd] in Hsplit2.
    destruct r as [|x r]; [discriminate|]. lits. cbn [startsWith].
    destruct (Ascii.eqb_spec "%" x) as [<-|]; [|discriminate].
    subst t.
    intros [= <- <- <-]. exists minus, r. unfold weightPrefix. lits.
    split.
    + rewrite Hdrop. destruct minus; cbn [app]; rewrite <- ?app_assoc;
        cbn [app]; rewrite <- ?app_assoc; cbn [app]; reflexivity.
    + destruct minus; cbn [app length]; rewrite ?length_app; cbn [length];
        rewrite ?length_app; cbn [length]; lia.
Qed.

(** X8.  [parseWeight] either returns the text unchanged, with no weight,
    or takes off a prefix made of a percent sign, an optional minus sign, one
    or two digits, an optional point with digits, and a percent sign; the
    rest is what follows that prefix, and the weight is a number between 0
    and 1. *)
Theorem weight_prefix_read (s : str) :
  match parseWeight s with
  | (None, r) => r = s
  | (Some w, r) =>
      exists minus m1 m2 q,
        s = weightPrefix minus m1 m2 ++ r
        /\ digitsOnly m1 = true /\ (1 <= length m1 <= 2)%nat
        /\ digitsOnly (default [] m2) = true
        /\ w = Fin q /\ (0 <= q)%Qc /\ (q <= 1)%Qc
  end.
Proof.
  destruct (parseWeight s) as [[w|] r] eqn:E.
  - destruct (parseWeight_range s w r E) as (q & Hq & H0 & H1).
    unfold parseWeight in E.
    destruct (matchWeight s) as [[[m1 m2] len]|] eqn:Hm; [|discriminate].
    destruct (matchWeight_shape _ _ _ _ Hm) as (minus & rest & Hs & Hlen).
    destruct (matchWeight_groups _ _ _ _ Hm) as (Hne & Hd1 & Hl1 & Hd2).
    injection E as _ Hr.
    exists minus, m1, m2, q.
    assert (r = rest) as ->.
    { rewrite <- Hr, Hlen. rewrite Hs at 1. apply sliceFrom_suffix. }
    repeat split; try assumption.
    + destruct m1; [congruence|cbn [length]; lia].
  - unfold parseWeight in E.
    destruct (matchWeight s) as [[[m1 m2] len]|]; [discriminate|].
    now injection E.
Qed.

Lemma forallb_Forall_true {A} (f : A -> bool) l :
  forallb f l = true <-> Forall (fun x => f x = true) l.
Proof.
  induction l as [|x l IH]; cbn; [split; [constructor|reflexivity]|].
  rewrite andb_true_iff, IH. split.
  - intros [? ?]. now constructor.
  - intros H. inversion H; subst. now split.
Qed.

(** *** What the loop captures *)

Section Captured.

Variable allowed : ascii -> bool.

Lemma metaLoop_captured_aux n entered s cap r :
  (length s <= n)%nat ->
  metaLoop allowed entered s = Some (cap, r) -> Forall (capturable allowed) cap.
Proof.
  revert entered s cap r. induction n as [|n IH]; intros entered s cap r Hn.
  - destruct s; [discriminate|cbn in Hn; lia].
  - destruct s as [|c s]; [discriminate|]. cbn [length] in Hn.
    cbn [metaLoop].
    repeat match goal with
           | |- context [match metaLoop ?a ?e ?x with _ => _ end] =>
               let E := fresh "E" in
               destruct (metaLoop a e x) as [[? ?]|] eqn:E;
               [apply IH in E; [|cbn [length] in *; lia]|]
           | |- context [if ?b then _ else _] =>
               let B := fresh "B" in destruct b eqn:B
           | |- context [match ?x with [] => _ | _ :: _ => _ end] =>
               is_var x; destruct x
           end;
    try discriminate; intros H; injection H as; intros; subst;
    repeat match goal with
           | H : _ && _ = true |- _ => apply andb_prop in H as [? ?]
           end;
    repeat match goal with
           | H : Ascii.eqb _ _ = true |- _ => apply Ascii.eqb_eq in H; subst
           end;
    repeat (constructor; [unfold capturable; now auto|]); try assumption; constructor.
Qed.

Lemma metaLoop_captured entered s cap r :
  metaLoop allowed entered s = Some (cap, r) -> Forall (capturable allowed) cap.
Proof. now apply (metaLoop_captured_aux (length s)). Qed.

Lemma findMeta_captured prefix s cap r :
  findMeta prefix allowed s = Some (cap, r) -> Forall (capturable allowed) cap.
Proof.
  induction s as [|c s IH]; [discriminate|]. cbn [findMeta].
  destruct (startsWith (c :: s) prefix); [|exact IH].
  destruct (metaLoop _ _ _) as [[cap' r']|] eqn:E; [|exact IH].
  intros [= <- <-]. eapply metaLoop_captured, E.
Qed.

Lemma allMeta_captured fuel prefix s :
  Forall (Forall (capturable allowed)) (allMeta fuel prefix allowed s).
Proof.
  revert s. induction fuel as [|fuel IH]; intros s; [constructor|].
  cbn [allMeta].
  destruct (findMeta prefix allowed s) as [[cap r]|] eqn:E; [|constructor].
  constructor; [eapply findMeta_captured, E|apply IH].
Qed.

End Captured.

Lemma Forall_trimStart (P : ascii -> Prop) s : Forall P s -> Forall P (trimStart s).
Proof.
  induction 1 as [|c s Hc Hs IH]; [constructor|]. cbn [trimStart].
  destruct (isSpace c); [exact IH|now constructor].
Qed.

Lemma Forall_trim (P : ascii -> Prop) s : Forall P s -> Forall P (trim s).
Proof.
  intros H. unfold trim, trimEnd.
  apply Forall_rev, Forall_trimStart, Forall_rev, Forall_trimStart, H.
Qed.

Lemma Forall_replaceAux (P : ascii -> Prop) pat rep skip s :
  Forall P rep -> Forall P s -> Forall P (replaceAux pat rep skip s).
Proof.
  intros Hrep Hs. revert skip.
  induction Hs as [|c s Hc Hs IH]; intros skip; [constructor|].
  cbn [replaceAux]. destruct skip; [|apply IH].
  destruct (startsWith _ _).
  - apply Forall_app. split; [exact Hrep|apply IH].
  - constructor; [exact Hc|apply IH].
Qed.

Lemma unescapeBracket_chars (P : ascii -> Prop) cap :
  P "]"%char -> Forall P cap -> Forall P (unescapeBracket cap).
Proof.
  intros Hb Hcap. unfold unescapeBracket, replaceAll.
  apply Forall_trim, Forall_replaceAux; [|exact Hcap].
  repeat constructor. exact Hb.
Qed.

(** X9.  Whatever the comment block, the identifier that
    [extractIdnumberAndTags] returns holds no control character, and no tag
    it returns holds a control character, an angle bracket or a backquote. *)
Theorem metadata_characters (commentBlock : str) :
  forallb (fun c => negb (isCntrl c)) (fst (extractIdnumberAndTags commentBlock)) = true
  /\ Forall (fun t => forallb tagSafe t = true)
       (snd (extractIdnumberAndTags commentBlock)).
Proof.
  unfold extractIdnumberAndTags. cbn [fst snd]. split.
  - destruct (findMeta _ idChar commentBlock) as [[cap r]|] eqn:E; [|reflexivity].
    apply findMeta_captured in E.
    apply forallb_Forall_true.
    apply unescapeBracket_chars; [reflexivity|].
    eapply Forall_impl; [exact E|].
    intros c [H|[->| ->]]; [|reflexivity..].
    unfold idChar in H. now apply andb_prop in H as [_ H].
  - apply Forall_map.
    eapply Forall_impl; [apply allMeta_captured|].
    intros cap Hcap. cbn beta.
    apply forallb_Forall_true.
    apply unescapeBracket_chars; [reflexivity|].
    eapply Forall_impl; [exact Hcap|].
    intros c [H|[->| ->]]; [|reflexivity..].
    unfold tagChar, idChar in H. unfold tagSafe.
    repeat (apply andb_prop in H as [H ?]).
    repeat (apply andb_true_intro; split); assumption.
Qed.

(** *** Metadata written and read back *)

Lemma escapeBracket_flat t :
  escapeBracket (VStr t)
  = flat_map (fun c => if Ascii.eqb "]" c then "\]" : str else [c]) t.
Proof. unfold escapeBracket, replaceAll. cbn [Js.toString]. apply replaceAux_single. Qed.

Lemma metaChars_cons allowed c t :
  metaChars allowed (c :: t) ->
  (allowed c = true \/ c = "]"%char) /\ c <> backslash /\ c <> "["%char
  /\ metaChars allowed t.
Proof.
  unfold metaChars. cbn [forallb].
  intros [[[H1 H2]%andb_prop H3]%andb_prop H4]%andb_prop.
  apply negb_true_iff in H2, H3.
  repeat split; try assumption.
  - apply orb_prop in H1 as [H1|H1]; [now left|right].
    now apply Ascii.eqb_eq in H1.
  - intros ->. now rewrite Ascii.eqb_refl in H2.
  - intros ->. now rewrite Ascii.eqb_refl in H3.
Qed.

Section MetaRoundTrip.

Variable allowed : ascii -> bool.
Hypothesis bracket_refused : allowed "]" = false.

Lemma metaLoop_written t entered rest :
  metaChars allowed t -> t <> [] \/ entered = true ->
  metaLoop allowed entered (escapeBracket (VStr t) ++ "]"%char :: rest)
  = Some (escapeBracket (VStr t), rest).
Proof.
  rewrite escapeBracket_flat.
  revert entered. induction t as [|c t IH]; intros entered Ht Hne.
  - destruct Hne as [?| ->]; [congruence|].
    cbn [flat_map app]. lits. cbn [app metaLoop andb].
    rewrite Ascii.eqb_refl, bracket_refused.
    change (Ascii.eqb "]" backslash) with false. cbn [andb].
    now destruct rest.
  - apply metaChars_cons in Ht as (Hc & Hbs & Hbr & Ht).
    specialize (IH true Ht (or_intror eq_refl)).
    cbn [flat_map]. lits. cbn [app] in *.
    destruct (Ascii.eqb_spec "]" c) as [<-|Hne'].
    + cbn [app metaLoop].
      change (Ascii.eqb backslash backslash) with true.
      change (Ascii.eqb "]" "]") with true. cbn [andb].
      now rewrite IH.
    + destruct Hc as [Hc| ->]; [|congruence].
      cbn [app metaLoop]. rewrite Hc, IH.
      assert (Ascii.eqb c backslash = false) as ->
          by (now apply Ascii.eqb_neq).
      cbn [andb].
      now destruct (flat_map _ t ++ _).
Qed.

Lemma unescape_written t :
  metaChars allowed t -> unescapeBracket (escapeBracket (VStr t)) = trim t.
Proof.
  intros Ht. unfold unescapeBracket. f_equal.
  rewrite escapeBracket_flat. unfold replaceAll.
  induction t as [|c t IH]; [reflexivity|].
  apply metaChars_cons in Ht as (_ & Hbs & _ & Ht). specialize (IH Ht).
  cbn [flat_map]. lits.
  destruct (Ascii.eqb_spec "]" c) as [<-|Hne'].
  - cbn [app replaceAux startsWith length Nat.sub].
    change (Ascii.eqb backslash backslash) with true.
    change (Ascii.eqb "]" "]") with true. cbn [andb app].
    now rewrite IH.
  - cbn [app]. rewrite replaceAux_skip; [now rewrite IH|].
    lits. cbn [startsWith].
    apply andb_false_iff. left. apply Ascii.eqb_neq. intros E. now apply Hbs.
Qed.

Lemma metaChars_escaped t :
  metaChars allowed t -> lacks "[" (escapeBracket (VStr t)) = true.
Proof.
  rewrite escapeBracket_flat.
  induction t as [|c t IH]; [reflexivity|].
  intros (_ & _ & Hbr & Ht)%metaChars_cons. specialize (IH Ht).
  cbn [flat_map]. rewrite lacks_app, IH, andb_true_r.
  destruct (Ascii.eqb "]" c); [reflexivity|].
  cbn. apply Ascii.eqb_neq in Hbr. now rewrite Hbr.
Qed.

End MetaRoundTrip.

(** The search for a pattern passes over a text in which the first character
    of the pattern does not occur. *)
Lemma findMeta_skip p w allowed pre s :
  lacks p pre = true ->
  findMeta (p :: w) allowed (pre ++ s) = findMeta (p :: w) allowed s.
Proof.
  induction pre as [|c pre IH]; [reflexivity|].
  cbn [lacks forallb]. intros [Hc Hpre]%andb_prop.
  apply negb_true_iff in Hc.
  cbn [app findMeta startsWith]. rewrite Ascii.eqb_sym, Hc. cbn [andb].
  apply IH, Hpre.
Qed.

Lemma allMeta_same fuel prefix allowed s s' :
  findMeta prefix allowed s = findMeta prefix allowed s' ->
  allMeta fuel prefix allowed s = allMeta fuel prefix allowed s'.
Proof. intros H. destruct fuel; [reflexivity|]. cbn [allMeta]. now rewrite H. Qed.

Lemma findMeta_found prefix allowed body r :
  prefix <> [] -> metaLoop allowed false body = Some r ->
  findMeta prefix allowed (prefix ++ body) = Some r.
Proof.
  intros Hne Hr. destruct prefix as [|p w]; [congruence|].
  change (findMeta (p :: w) allowed ((p :: w) ++ body))
    with (if startsWith ((p :: w) ++ body) (p :: w)
          then match metaLoop allowed false
                       (drop (length (p :: w)) ((p :: w) ++ body)) with
               | Some r => Some r
               | None => findMeta (p :: w) allowed (w ++ body)
               end
          else findMeta (p :: w) allowed (w ++ body)).
  now rewrite startsWith_app, drop_app_length, Hr.
Qed.

Lemma findMeta_next prefix allowed c s :
  startsWith (c :: s) prefix = false ->
  findMeta prefix allowed (c :: s) = findMeta prefix allowed s.
Proof. intros H. cbn [findMeta]. now rewrite H. Qed.

Lemma tagBit_found t rest :
  metaChars tagChar t -> t <> [] ->
  findMeta "[tag:" tagChar (tagBit t ++ rest) = Some (escapeBracket (VStr t), rest).
Proof.
  intros Ht Hne. unfold tagBit. rewrite <- !app_assoc.
  apply findMeta_found; [discriminate|].
  lits. cbn [app]. apply metaLoop_written; [reflexivity|assumption|now left].
Qed.

Lemma idBit_found t rest :
  metaChars idChar t -> t <> [] ->
  findMeta "[id:" idChar (idBit t ++ rest) = Some (escapeBracket (VStr t), rest).
Proof.
  intros Ht Hne. unfold idBit. rewrite <- !app_assoc.
  apply findMeta_found; [discriminate|].
  lits. cbn [app]. apply metaLoop_written; [reflexivity|assumption|now left].
Qed.

Lemma tags_read ts fuel :
  Forall (fun t => metaChars tagChar t /\ t <> []) ts ->
  (length ts < fuel)%nat ->
  allMeta fuel "[tag:" tagChar (bitsTail (map tagBit ts))
  = map (fun t => escapeBracket (VStr t)) ts.
Proof.
  intros Hts. revert fuel. induction Hts as [|t ts [Ht Hne] Hts IH]; intros fuel Hfuel.
  - destruct fuel; [cbn in Hfuel; lia|]. reflexivity.
  - destruct fuel as [|fuel]; [cbn in Hfuel; lia|].
    cbn [map bitsTail allMeta].
    rewrite (findMeta_skip "[" "tag:" tagChar " ") by reflexivity.
    rewrite tagBit_found by assumption.
    f_equal. apply IH. cbn [length] in Hfuel. lia.
Qed.

(** The search passes over a bit that the pattern does not match at its
    bracket: the rest of the bit holds no other bracket. *)
Lemma bit_passed w allowed body rest :
  startsWith ("["%char :: body ++ rest) ("["%char :: w) = false ->
  lacks "[" body = true ->
  findMeta ("["%char :: w) allowed (("["%char :: body) ++ rest)
  = findMeta ("["%char :: w) allowed rest.
Proof.
  intros Hs Hb. cbn [app]. rewrite findMeta_next by exact Hs.
  now apply findMeta_skip.
Qed.

Lemma tagBit_passed t rest :
  metaChars tagChar t ->
  findMeta "[id:" idChar (tagBit t ++ rest) = findMeta "[id:" idChar rest.
Proof.
  intros Ht. unfold tagBit. lits. cbn [app].
  apply (bit_passed "id:" idChar ("tag:" ++ escapeBracket (VStr t) ++ "]") rest).
  - reflexivity.
  - lits. cbn [app]. cbn [lacks forallb Ascii.eqb Bool.eqb negb andb].
    fold (lacks "[" (escapeBracket (VStr t) ++ ["]"%char])).
    rewrite lacks_app, (metaChars_escaped tagChar) by assumption. reflexivity.
Qed.

Lemma idBit_passed t rest :
  metaChars idChar t ->
  findMeta "[tag:" tagChar (idBit t ++ rest) = findMeta "[tag:" tagChar rest.
Proof.
  intros Ht. unfold idBit. lits. cbn [app].
  apply (bit_passed "tag:" tagChar ("id:" ++ escapeBracket (VStr t) ++ "]") rest).
  - reflexivity.
  - lits. cbn [app]. cbn [lacks forallb Ascii.eqb Bool.eqb negb andb].
    fold (lacks "[" (escapeBracket (VStr t) ++ ["]"%char])).
    rewrite lacks_app, (metaChars_escaped idChar) by assumption. reflexivity.
Qed.

Lemma tags_without_id ts :
  Forall (fun t => metaChars tagChar t /\ t <> []) ts ->
  findMeta "[id:" idChar (bitsTail (map tagBit ts)) = None.
Proof.
  induction 1 as [|t ts [Ht _] Hts IH]; [reflexivity|].
  cbn [map bitsTail].
  rewrite (findMeta_skip "[" "id:" idChar " ") by reflexivity.
  now rewrite tagBit_passed.
Qed.

Lemma bitsTail_length bits : (length bits < length (bitsTail bits))%nat.
Proof.
  induction bits as [|b bits IH]; cbn [bitsTail length]; [cbn; lia|].
  rewrite !length_app. cbn [length list_ascii_of_string]. lia.
Qed.

Lemma join_bits b bits : join " " (b :: bits) ++ [LF] = b ++ bitsTail bits.
Proof.
  revert b. induction bits as [|b' bits IH]; intros b; [reflexivity|].
  change (join " " (b :: b' :: bits)) with (b ++ " " ++ join " " (b' :: bits)).
  rewrite <- !app_assoc. now rewrite IH.
Qed.

Lemma unescape_all ts :
  Forall (metaText tagChar) ts ->
  map unescapeBracket (map (fun t => escapeBracket (VStr t)) ts) = ts.
Proof.
  induction 1 as [|t ts [Htrim Ht] Hts IH]; [reflexivity|].
  cbn [map]. rewrite IH. f_equal.
  rewrite (unescape_written tagChar) by assumption. exact Htrim.
Qed.

(** The comment block of an exported question: what comes before the line
    of the identifier and the tags holds no bracket. *)
Lemma metadata_read pre q idnumber tags :
  lacks "[" pre = true ->
  Js.isStr (Js.get q "qtype") "category" = false ->
  Js.get q "idnumber" = VStr idnumber ->
  Js.get q "tags" = VArr (map VStr tags) ->
  metaText idChar idnumber ->
  Forall (fun t => metaText tagChar t /\ t <> []) tags ->
  extractIdnumberAndTags (pre ++ writeIdnumberAndTags q) = (idnumber, tags).
Proof.
  intros Hpre Hq Hid Htags [Htrim Hidc] Hts.
  assert (Hts1 : Forall (fun t => metaChars tagChar t /\ t <> []) tags).
  { eapply Forall_impl; [exact Hts|]. now intros t [[_ ?] ?]. }
  assert (Hts2 : Forall (metaText tagChar) tags).
  { eapply Forall_impl; [exact Hts|]. now intros t [? _]. }
  unfold writeIdnumberAndTags. rewrite Hq, Hid, Htags. cbn [Js.truthy].
  rewrite map_map.
  change (map (fun x => "[tag:" ++ escapeBracket (VStr x) ++ "]") tags)
    with (map tagBit tags).
  destruct idnumber as [|c idn].
  - cbn [isEmpty negb app].
    destruct tags as [|t ts].
    + cbn [map noItems]. rewrite app_nil_r. unfold extractIdnumberAndTags.
      assert (E1 : findMeta "[id:" idChar pre = None).
      { pose proof (findMeta_skip "[" "id:" idChar pre [] Hpre) as E.
        now rewrite app_nil_r in E. }
      assert (E2 : findMeta "[tag:" tagChar pre = None).
      { pose proof (findMeta_skip "[" "tag:" tagChar pre [] Hpre) as E.
        now rewrite app_nil_r in E. }
      rewrite E1. destruct (length pre); cbn [allMeta]; [reflexivity|].
      now rewrite E2.
    + cbn [map noItems]. rewrite join_bits.
      inversion Hts1 as [|? ? [Ht Hne] Hts1']; subst.
      unfold extractIdnumberAndTags. f_equal.
      * rewrite (findMeta_skip "[" "id:" idChar pre) by exact Hpre.
        rewrite (findMeta_skip "[" "id:" idChar "// ") by reflexivity.
        rewrite tagBit_passed by assumption.
        now rewrite tags_without_id.
      * rewrite (allMeta_same _ _ _ _ (bitsTail (map tagBit (t :: ts)))).
        -- rewrite tags_read; [exact (unescape_all (t :: ts) Hts2)|assumption|].
           rewrite !length_app.
           pose proof (bitsTail_length (map tagBit ts)) as H.
           rewrite length_map in H. lits. cbn [length]. unfold str in *. lia.
        -- cbn [map bitsTail].
           rewrite (findMeta_skip "[" "tag:" tagChar pre) by exact Hpre.
           rewrite (findMeta_skip "[" "tag:" tagChar "// ") by reflexivity.
           now rewrite (findMeta_skip "[" "tag:" tagChar " ") by reflexivity.
  - cbn [isEmpty negb app noItems].
    change (("[id:" ++ escapeBracket (VStr (c :: idn)) ++ "]") :: map tagBit tags)
      with (idBit (c :: idn) :: map tagBit tags).
    rewrite join_bits.
    unfold extractIdnumberAndTags. f_equal.
    + rewrite (findMeta_skip "[" "id:" idChar pre) by exact Hpre.
      rewrite (findMeta_skip "[" "id:" idChar "// ") by reflexivity.
      rewrite idBit_found by (assumption || discriminate).
      rewrite (unescape_written idChar) by assumption. exact Htrim.
    + rewrite (allMeta_same _ _ _ _ (bitsTail (map tagBit tags))).
      * rewrite tags_read; [exact (unescape_all tags Hts2)|assumption|].
        rewrite !length_app.
        pose proof (bitsTail_length (map tagBit tags)) as H.
        rewrite length_map in H. lits. cbn [length]. unfold str in *. lia.
      * rewrite (findMeta_skip "[" "tag:" tagChar pre) by exact Hpre.
        rewrite (findMeta_skip "[" "tag:" tagChar "// ") by reflexivity.
        now apply idBit_passed.
Qed.

(** X10.  The identifier and the tags of a question that is no category,
    written by [writeIdnumberAndTags] and read by [extractIdnumberAndTags],
    come back as they were, closing brackets included.  The identifier and
    each tag have no white space at the ends, no backslash, no opening
    bracket and no character that the pattern refuses; no tag is empty. *)
Theorem metadata_roundtrip (q : value) (idnumber : str) (tags : list str) :
  Js.isStr (Js.get q "qtype") "category" = false ->
  Js.get q "idnumber" = VStr idnumber ->
  Js.get q "tags" = VArr (map VStr tags) ->
  metaText idChar idnumber ->
  Forall (fun t => metaText tagChar t /\ t <> []) tags ->
  extractIdnumberAndTags (writeIdnumberAndTags q) = (idnumber, tags).
Proof.
  intros Hq Hid Htags Hi Hts.
  exact (metadata_read [] q idnumber tags eq_refl Hq Hid Htags Hi Hts).
Qed.

Lemma metadata_roundtrip_witness :
  extractIdnumberAndTags
    (writeIdnumberAndTags
       (VObj [ ("qtype" : str, VStr "essay"); ("idnumber" : str, VStr "Q]1");
               ("tags" : str, VArr (map VStr [ "easy" : str; "unit 1" : str ])) ]))
  = ("Q]1" : str, [ "easy" : str; "unit 1" : str ]).
Proof.
  apply metadata_roundtrip;
    try reflexivity; try (split; reflexivity);
    repeat (constructor; [split; [split; reflexivity|discriminate]|]); constructor.
Defined.

(** *** Line endings *)

Lemma normalizeNewlines_plain s : lacks CR s = true -> normalizeNewlines s = s.
Proof.
  induction s as [|c s IH]; [reflexivity|].
  cbn [lacks forallb]. intros [Hc Hs]%andb_prop.
  apply negb_true_iff in Hc. cbn [normalizeNewlines]. rewrite Hc.
  f_equal. apply IH, Hs.
Qed.

Lemma normalizeNewlines_crlf s :
  lacks CR s = true ->
  normalizeNewlines (flat_map (fun c => if Ascii.eqb LF c then [CR; LF] else [c]) s) = s.
Proof.
  induction s as [|c s IH]; [reflexivity|].
  cbn [lacks forallb]. intros [Hc Hs]%andb_prop.
  apply negb_true_iff in Hc. cbn [flat_map].
  destruct (Ascii.eqb_spec LF c) as [<-|Hne].
  - cbn [app normalizeNewlines].
    change (Ascii.eqb CR CR) with true. change (Ascii.eqb LF LF) with true.
    cbn iota. f_equal. apply IH, Hs.
  - cbn [app normalizeNewlines]. rewrite Hc. f_equal. apply IH, Hs.
Qed.

Lemma normalizeNewlines_cr s :
  lacks CR s = true ->
  normalizeNewlines (flat_map (fun c => if Ascii.eqb LF c then [CR] else [c]) s) = s.
Proof.
  induction s as [|c s IH]; [reflexivity|].
  cbn [lacks forallb]. intros [Hc Hs]%andb_prop.
  apply negb_true_iff in Hc. cbn [flat_map].
  specialize (IH Hs).
  destruct (Ascii.eqb_spec LF c) as [<-|Hne].
  - cbn [app normalizeNewlines].
    change (Ascii.eqb CR CR) with true. cbn iota.
    destruct s as [|d s]; [reflexivity|].
    cbn [flat_map] in *.
    cbn [lacks forallb] in Hs. apply andb_prop in Hs as [Hd _].
    apply negb_true_iff in Hd.
    destruct (Ascii.eqb_spec LF d) as [<-|Hd'].
    + cbn [app] in *. change (Ascii.eqb CR LF) with false. cbn iota.
      now rewrite IH.
    + cbn [app] in *.
      assert (Ascii.eqb d LF = false) as ->
          by (apply Ascii.eqb_neq; congruence).
      now rewrite IH.
  - cbn [app normalizeNewlines]. rewrite Hc. f_equal. exact IH.
Qed.

(** X11.  [parseGift] reads a text the same way whether its lines end with
    a newline, with a carriage return and a newline, or with a carriage
    return alone. *)
Theorem line_endings (s : str) :
  lacks CR s = true ->
  parseGift (replaceAll s [LF] [CR; LF]) = parseGift s
  /\ parseGift (replaceAll s [LF] [CR]) = parseGift s.
Proof.
  intros Hs. unfold parseGift, replaceAll. rewrite !replaceAux_single.
  now rewrite normalizeNewlines_crlf, normalizeNewlines_cr,
    normalizeNewlines_plain.
Qed.

Lemma line_endings_witness :
  parseGift (replaceAll ("Q1 {T}" ++ [LF; LF] ++ "Q2 {F}") [LF] [CR; LF])
  = parseGift ("Q1 {T}" ++ [LF; LF] ++ "Q2 {F}")
  /\ parseGift (replaceAll ("Q1 {T}" ++ [LF; LF] ++ "Q2 {F}") [LF] [CR])
     = parseGift ("Q1 {T}" ++ [LF; LF] ++ "Q2 {F}").
Proof. apply line_endings. reflexivity. Defined.

(** *** Blocks of a concatenation *)

Lemma splitAux_app c cur x y :
  splitAux [c] O cur (x ++ c :: y) = splitAux [c] O cur x ++ splitAux [c] O [] y.
Proof.
  revert cur. induction x as [|d x IH]; intros cur.
  - cbn. now rewrite Ascii.eqb_refl.
  - cbn [app splitAux startsWith length Nat.sub]. rewrite andb_true_r.
    destruct (Ascii.eqb c d); [|apply IH].
    cbn [app]. f_equal. apply IH.
Qed.

Lemma split_app c x y :
  Str.split (x ++ c :: y) [c] = Str.split x [c] ++ Str.split y [c].
Proof. apply splitAux_app. Qed.

Lemma blocksFrom_app l1 l2 cur line :
  isBlank line = true ->
  blocksFrom (l1 ++ line :: l2) cur = blocksFrom l1 cur ++ blocksFrom l2 [].
Proof.
  intros Hb. revert cur. induction l1 as [|x l1 IH]; intros cur.
  - cbn [app blocksFrom]. rewrite Hb. now destruct (noItems cur).
  - cbn [app blocksFrom]. destruct (isBlank x); [|apply IH].
    destruct (noItems cur); [apply IH|]. cbn [app]. f_equal. apply IH.
Qed.

Lemma normalizeNewlines_crlf_cons s :
  normalizeNewlines (CR :: LF :: s) = LF :: normalizeNewlines s.
Proof. reflexivity. Qed.

Lemma normalizeNewlines_cr_cons d s :
  Ascii.eqb d LF = false ->
  normalizeNewlines (CR :: d :: s) = LF :: normalizeNewlines (d :: s).
Proof.
  intros Hd. change (normalizeNewlines (CR :: d :: s))
    with (if Ascii.eqb d LF then LF :: normalizeNewlines s
          else LF :: normalizeNewlines (d :: s)).
  now rewrite Hd.
Qed.

Lemma normalizeNewlines_cons c s :
  Ascii.eqb c CR = false ->
  normalizeNewlines (c :: s) = c :: normalizeNewlines s.
Proof. intros Hc. cbn [normalizeNewlines]. now rewrite Hc. Qed.

Lemma endsWithCR_cons x (u : str) : u <> [] -> endsWithCR (x :: u) = endsWithCR u.
Proof.
  intros Hu. unfold endsWithCR. destruct u; [congruence|].
  now rewrite last_cons_cons.
Qed.

Lemma normalizeNewlines_app_aux n a r :
  (length a <= n)%nat ->
  normalizeNewlines (a ++ LF :: r)
  = if endsWithCR a then normalizeNewlines a ++ normalizeNewlines r
    else normalizeNewlines a ++ LF :: normalizeNewlines r.
Proof.
  revert a. induction n as [|n IH]; intros a Hn.
  - destruct a; [reflexivity|cbn in Hn; lia].
  - destruct a as [|c a]; [reflexivity|]. cbn [length] in Hn.
    destruct (Ascii.eqb_spec c CR) as [->|Hc].
    + destruct a as [|d a]; [reflexivity|].
      rewrite (endsWithCR_cons CR (d :: a)) by discriminate.
      destruct (Ascii.eqb_spec d LF) as [->|Hd].
      * cbn [app]. rewrite !normalizeNewlines_crlf_cons.
        rewrite (IH a) by (cbn [length] in Hn; lia).
        destruct a as [|e a]; [reflexivity|].
        rewrite (endsWithCR_cons LF (e :: a)) by discriminate.
        now destruct (endsWithCR (e :: a)).
      * apply Ascii.eqb_neq in Hd.
        cbn [app]. rewrite !normalizeNewlines_cr_cons by exact Hd.
        change (d :: a ++ LF :: r) with ((d :: a) ++ LF :: r).
        rewrite (IH (d :: a)) by lia.
        now destruct (endsWithCR (d :: a)).
    + apply Ascii.eqb_neq in Hc.
      cbn [app]. rewrite !normalizeNewlines_cons by exact Hc.
      rewrite (IH a) by lia.
      destruct a as [|d a].
      * unfold endsWithCR. cbn [last]. now rewrite Hc.
      * rewrite (endsWithCR_cons c (d :: a)) by discriminate.
        now destruct (endsWithCR (d :: a)).
Qed.

Lemma normalizeNewlines_endsWithCR_aux n a :
  (length a <= n)%nat ->
  endsWithCR a = true -> exists u, normalizeNewlines a = u ++ [LF].
Proof.
  revert a. induction n as [|n IH]; intros a Hn.
  - destruct a; [discriminate|cbn in Hn; lia].
  - destruct a as [|c a]; [discriminate|]. cbn [length] in Hn.
    destruct a as [|d a].
    + unfold endsWithCR. cbn [last]. intros Hc.
      apply Ascii.eqb_eq in Hc. subst c. now exists [].
    + rewrite (endsWithCR_cons c (d :: a)) by discriminate. intros He.
      destruct (Ascii.eqb_spec c CR) as [->|Hc].
      * destruct (Ascii.eqb_spec d LF) as [->|Hd].
        -- rewrite normalizeNewlines_crlf_cons.
           destruct a as [|e a]; [discriminate He|].
           rewrite (endsWithCR_cons LF (e :: a)) in He by discriminate.
           destruct (IH (e :: a)) as [u Hu]; [cbn [length] in *; lia|exact He|].
           exists (LF :: u). now rewrite Hu.
        -- apply Ascii.eqb_neq in Hd. rewrite normalizeNewlines_cr_cons by exact Hd.
           destruct (IH (d :: a)) as [u Hu]; [lia|exact He|].
           exists (LF :: u). now rewrite Hu.
      * apply Ascii.eqb_neq in Hc. rewrite normalizeNewlines_cons by exact Hc.
        destruct (IH (d :: a)) as [u Hu]; [lia|exact He|].
        exists (c :: u). now rewrite Hu.
Qed.

Lemma blocks_app a b :
  blocks (a ++ [LF; LF] ++ b) = blocks a ++ blocks b.
Proof.
  unfold blocks. cbn [app].
  rewrite (normalizeNewlines_app_aux (length a)) by lia.
  change (normalizeNewlines (LF :: b)) with (LF :: normalizeNewlines b).
  destruct (endsWithCR a) eqn:He.
  - destruct (normalizeNewlines_endsWithCR_aux (length a) a) as [u Hu];
      [lia|exact He|].
    rewrite Hu, <- app_assoc. cbn [app].
    rewrite !split_app.
    pose proof (split_app LF [] (normalizeNewlines b)) as E.
    cbn [app] in E. rewrite E.
    change (Str.split [] [LF]) with [[] : str]. cbn [app].
    rewrite !(blocksFrom_app _ _ [] []) by reflexivity.
    cbn [blocksFrom noItems]. now rewrite app_nil_r.
  - rewrite !split_app.
    pose proof (split_app LF [] (normalizeNewlines b)) as E.
    cbn [app] in E. rewrite E.
    change (Str.split [] [LF]) with [[] : str]. cbn [app].
    now rewrite (blocksFrom_app _ _ [] []) by reflexivity.
Qed.

Lemma parseBlocks_app bs1 bs2 questions :
  parseBlocks (bs1 ++ bs2) questions
  = do questions <- parseBlocks bs1 questions; parseBlocks bs2 questions.
Proof.
  revert questions. induction bs1 as [|b bs1 IH]; intros questions; [reflexivity|].
  cbn [app parseBlocks]. destruct (flush b questions); cbn [bind]; [apply IH|reflexivity].
Qed.

Lemma parseBlocks_from bs questions :
  parseBlocks bs questions
  = do more <- parseBlocks bs []; Ok (questions ++ more).
Proof.
  revert questions. induction bs as [|b bs IH]; intros questions.
  - cbn. now rewrite app_nil_r.
  - cbn [parseBlocks]. unfold flush.
    destruct (parseQuestion b) as [[q|]|e]; cbn [bind app].
    + rewrite (IH (questions ++ [q])), (IH [q]).
      destruct (parseBlocks bs []); cbn [bind]; [|reflexivity].
      now rewrite <- app_assoc.
    + apply IH.
    + reflexivity.
Qed.

(** X12.  An empty line between two texts separates them for [parseGift]:
    the questions of the whole are the questions of the first text followed
    by those of the second, and the first error of either, in that order, is
    the error of the whole.  No question depends on the blocks before it. *)
Theorem blank_line_separates (a b : str) :
  parseGift (a ++ [LF; LF] ++ b)
  = do first <- parseGift a; do second <- parseGift b; Ok (first ++ second).
Proof.
  unfold parseGift. rewrite !parseLines_blocks.
  fold (blocks (a ++ [LF; LF] ++ b)). fold (blocks a). fold (blocks b).
  rewrite blocks_app, parseBlocks_app.
  destruct (parseBlocks (blocks a) []) as [first|e]; cbn [bind]; [|reflexivity].
  rewrite parseBlocks_from.
  destruct (parseBlocks (blocks b) []); reflexivity.
Qed.

(** *** Blocks without a question *)

Lemma isBlank_trim s : isBlank s = true -> trim s = [].
Proof.
  intros H. unfold trim.
  assert (E : trimStart s = []).
  { induction s as [|c s IH]; [reflexivity|].
    cbn [isBlank forallb] in H. apply andb_prop in H as [Hc Hs].
    cbn [trimStart]. rewrite Hc. now apply IH. }
  now rewrite E.
Qed.

Lemma isBlank_app a b : isBlank (a ++ b) = isBlank a && isBlank b.
Proof. apply forallb_app. Qed.

Lemma isBlank_join work :
  Forall (fun w => isBlank w = true) work -> isBlank (join [LF] work) = true.
Proof.
  induction 1 as [|w work Hw Hwork IH]; [reflexivity|].
  destruct work as [|w' work]; [exact Hw|].
  change (join [LF] (w :: w' :: work)) with (w ++ [LF] ++ join [LF] (w' :: work)).
  now rewrite !isBlank_app, Hw, IH.
Qed.

Lemma separateComments_blank lines acc :
  Forall (fun ln => isBlank ln = true \/ isComment ln = true) lines ->
  Forall (fun w => isBlank w = true) (snd acc) ->
  Forall (fun w => isBlank w = true)
    (snd (fold_left
            (fun acc ln =>
               let s := trim ln in
               if startsWith s "//"
               then (fst acc ++ s ++ [LF], snd acc ++ [" " : str])
               else (fst acc, snd acc ++ [ln]))
            lines acc)).
Proof.
  intros Hlines. revert acc.
  induction Hlines as [|ln lines Hln Hlines IH]; intros acc Hacc; [exact Hacc|].
  cbn [fold_left]. apply IH. cbn zeta.
  destruct (startsWith (trim ln) "//") eqn:E; cbn [snd].
  - apply Forall_app. split; [exact Hacc|]. now repeat constructor.
  - apply Forall_app. split; [exact Hacc|]. repeat constructor.
    destruct Hln as [H|H]; [exact H|]. unfold isComment in H. congruence.
Qed.

Lemma parseQuestion_comments lines :
  Forall (fun ln => isBlank ln = true \/ isComment ln = true) lines ->
  parseQuestion lines = Ok None.
Proof.
  intros H. unfold parseQuestion.
  assert (Hw : Forall (fun w => isBlank w = true) (snd (separateComments lines)))
    by exact (separateComments_blank lines ([], []) H (List.Forall_nil _)).
  destruct (separateComments lines) as [comments work]. cbn [snd] in Hw.
  now rewrite (isBlank_trim _ (isBlank_join work Hw)).
Qed.

Lemma parseLines_comments lines buf questions :
  Forall (fun ln => isBlank ln = true \/ isComment ln = true) lines ->
  Forall (fun ln => isBlank ln = true \/ isComment ln = true) buf ->
  parseLines lines buf questions = Ok questions.
Proof.
  intros Hlines. revert buf questions.
  induction Hlines as [|ln lines Hln Hlines IH]; intros buf questions Hbuf.
  - cbn [parseLines]. destruct (noItems buf); cbn [negb]; [reflexivity|].
    unfold flush. now rewrite parseQuestion_comments by exact Hbuf.
  - cbn [parseLines]. destruct (isBlank ln).
    + destruct (noItems buf); cbn [negb]; [now apply IH|].
      unfold flush. rewrite parseQuestion_comments by exact Hbuf.
      cbn [bind]. apply IH. constructor.
    + apply IH. apply Forall_app. split; [exact Hbuf|].
      constructor; [|constructor].
      destruct Hln as [?|?]; [discriminate|now right].
Qed.

(** X13.  A block whose lines are all blank or comments gives no question,
    whatever the comments hold, and a text with no other line parses to the
    empty list. *)
Theorem comments_only :
  (forall lines,
      Forall (fun ln => isBlank ln = true \/ isComment ln = true) lines ->
      parseQuestion lines = Ok None)
  /\ (forall input,
         Forall (fun ln => isBlank ln = true \/ isComment ln = true)
           (Str.split (normalizeNewlines input) [LF]) ->
         parseGift input = Ok []).
Proof.
  split; [exact parseQuestion_comments|].
  intros input H. unfold parseGift. apply parseLines_comments; [exact H|constructor].
Qed.

Lemma comments_only_witness :
  parseQuestion [ "// [id:lost] [tag:lost]" : str; "  " : str ] = Ok None
  /\ parseGift ("  // a note" ++ [CR; LF; LF] ++ "// [tag:lost]" ++ [LF]) = Ok [].
Proof.
  destruct comments_only as [H1 H2]. split.
  - apply H1. constructor; [right; reflexivity|].
    constructor; [left; reflexivity|constructor].
  - apply H2.
    repeat (constructor; [(left; reflexivity) || (right; reflexivity)|]).
    constructor.
Defined.

(** *** The question before its answers are read *)

Lemma parseQuestion_cases lines q :
  parseQuestion lines = Ok (Some q) ->
  (exists text0,
      q = Js.set (Js.set defaultQuestion "qtype" (VStr "category"))
            "category" (VStr (categoryName text0)))
  \/ (exists comments name text0,
         questionBlock lines = Some (comments, name, text0)
         /\ parseBody comments name text0 = Ok q).
Proof.
  unfold parseQuestion, questionBlock.
  destruct (separateComments lines) as [comments work].
  destruct (isEmpty _); [discriminate|].
  destruct (isCategory _).
  - intros [= <-]. left. eauto.
  - destruct (takeName _) as [name text0].
    destruct (parseBody comments name text0) as [q'|e] eqn:E; [|discriminate].
    intros [= <-]. right. eauto.
Qed.

Lemma parseBody_cases comments name text0 q :
  parseBody comments name text0 = Ok q ->
  exists b q0 body fmt,
    findBraces text0 = Ok b
    /\ isObject q0 = true
    /\ Js.get q0 "name"
       = VStr (if isEmpty name
               then defaultName
                      (text (parseTextWithFormat (questionText text0 b) FORMAT_MOODLE))
               else name)
    /\ Js.get q0 "answers" = VUndef
    /\ Js.get q0 "subquestions" = VUndef
    /\ ((b = Description
         /\ q = Js.set (Js.set (Js.set q0 "qtype" (VStr "description"))
                          "defaultmark" (VNum (Num.ofZ 0)))
                  "length" (VNum (Num.ofZ 0)))
        \/ (b <> Description /\ q = essayFields q0)
        \/ (b <> Description /\ body <> []
            /\ parseAnswers (Js.set q0 "qtype" (VStr (determineQtype body)))
                 (determineQtype body) fmt body = Ok q)).
Proof.
  unfold parseBody. destruct (findBraces text0) as [b|e]; [|discriminate].
  cbn [bind]. destruct (splitGeneralFeedback _) as [gf body].
  match goal with
  | |- match b with
       | Description => _
       | Answer _ _ => if _ then Ok (essayFields ?qq) else _
       end = _ -> _ => set (q0 := qq)
  end.
  intros H. exists b, q0, body.
  exists (format (parseTextWithFormat (questionText text0 b) FORMAT_MOODLE)).
  assert (Hobj : isObject q0 = true) by (subst q0; destruct (isEmpty name); is_object).
  split; [reflexivity|]. split; [exact Hobj|].
  split; [|split; [|split]].
  - subst q0. unfold defaultName. destruct (isEmpty name); get_set; reflexivity.
  - subst q0. destruct (isEmpty name); get_set; reflexivity.
  - subst q0. destruct (isEmpty name); get_set; reflexivity.
  - destruct b as [|s f].
    + left. split; [reflexivity|]. now injection H as <-.
    + right. destruct (isEmpty body) eqn:E.
      * left. split; [discriminate|]. now injection H as <-.
      * right. split; [discriminate|]. split; [now destruct body|exact H].
Qed.

(** *** The answers *)

Lemma multichoiceAnswer_object fmt p : isObject (multichoiceAnswer fmt p) = true.
Proof.
  unfold multichoiceAnswer.
  destruct (startsWith p "="); [|destruct (parseWeight p) as [[w|] r]];
    destruct (commentParser _ _); reflexivity.
Qed.

Lemma shortAnswer_object fmt p : isObject (shortAnswer fmt p) = true.
Proof.
  unfold shortAnswer. destruct (weightedPart p), (commentParser _ _). reflexivity.
Qed.

Lemma numericalAnswer_object fmt p a :
  numericalAnswer fmt p = Ok a -> isObject a = true.
Proof.
  unfold numericalAnswer. destruct (weightedPart p), (commentParser _ _).
  destruct (numericalValue _); cbn [bind]; [|discriminate]. now intros [= <-].
Qed.

Lemma wildcardAnswer_object fmt w : isObject (wildcardAnswer fmt w) = true.
Proof. unfold wildcardAnswer. now destruct (commentParser _ _). Qed.

Lemma matchPair_object fmt p a : matchPair fmt p = Ok a -> isObject a = true.
Proof.
  unfold matchPair. destruct (_ =? _); [discriminate|]. now intros [= <-].
Qed.

Lemma forEach_Forall {A B} (f : A -> result B) (P : B -> Prop) l ys :
  (forall x y, f x = Ok y -> P y) -> forEach f l = Ok ys -> Forall P ys.
Proof.
  intros Hf. revert ys. induction l as [|x l IH]; intros ys.
  - intros [= <-]. constructor.
  - cbn [forEach]. destruct (f x) as [y|] eqn:E; [|discriminate].
    cbn [bind]. destruct (forEach f l) as [ys'|]; [|discriminate].
    cbn [bind]. intros [= <-]. constructor; eauto.
Qed.

Lemma wildcardAnswer_fraction fmt w :
  unitFraction (Js.get (wildcardAnswer fmt w) "fraction").
Proof.
  unfold wildcardAnswer. destruct (commentParser _ _).
  rewrite answerObject_fraction. apply unit_zero.
Qed.

Lemma parseAnswers_shape q qtype fmt answertext r :
  isObject q = true ->
  parseAnswers q qtype fmt answertext = Ok r ->
  isObject r = true
  /\ Js.get r "name" = Js.get q "name"
  /\ Js.get r "qtype" = Js.get q "qtype"
  /\ In qtype supportedQtypes
  /\ (forall field, listField qtype = Some field ->
        exists l, Js.get r field = VArr l /\ Forall (fun a => isObject a = true) l)
  /\ (forall l, Js.get q "answers" = VUndef -> Js.get r "answers" = VArr l ->
        Forall (fun a => unitFraction (Js.get a "fraction")) l).
Proof.
  intros Hq. unfold parseAnswers.
  destruct (Str.equal qtype "multichoice") eqn:E1;
    [|destruct (Str.equal qtype "match") eqn:E2;
      [|destruct (Str.equal qtype "truefalse") eqn:E3;
        [|destruct (Str.equal qtype "shortanswer") eqn:E4;
          [|destruct (Str.equal qtype "numerical") eqn:E5; [|discriminate]]]]];
    match goal with E : Str.equal _ _ = true |- _ => apply equal_eq in E; subst qtype end.
  - unfold parseMultichoice. destruct (_ <? _)%nat; [discriminate|].
    intros [= <-]. split; [is_object|].
    split; [get_set; reflexivity|]. split; [get_set; reflexivity|].
    split; [cbn; tauto|]. split.
    + intros field [= <-]. get_set. eexists. split; [reflexivity|].
      apply Forall_map, Forall_forall. intros p _. apply multichoiceAnswer_object.
    + intros l _. get_set. intros [= <-].
      apply Forall_map, Forall_forall. intros p _. apply multichoiceAnswer_fraction.
  - unfold parseMatch. destruct (_ <? _)%nat; [discriminate|].
    destruct (forEach _ _) as [subs|] eqn:E; [|discriminate]. cbn [bind].
    intros [= <-]. split; [is_object|].
    split; [get_set; reflexivity|]. split; [get_set; reflexivity|].
    split; [cbn; tauto|]. split.
    + intros field [= <-]. get_set. eexists. split; [reflexivity|].
      eapply forEach_Forall; [|exact E]. intros p a. apply matchPair_object.
    + intros l Hl. get_set. lits. rewrite Hl. discriminate.
  - unfold parseTruefalse. destruct (splitTrueFalseComment _ _) as [[? ?] ?].
    intros [= <-]. split; [is_object|].
    split; [get_set; reflexivity|]. split; [get_set; reflexivity|].
    split; [cbn; tauto|]. split.
    + intros field. discriminate.
    + intros l Hl. get_set. lits. rewrite Hl. discriminate.
  - unfold parseShortanswer. destruct (noItems _); [discriminate|].
    intros [= <-]. split; [is_object|].
    split; [get_set; reflexivity|]. split; [get_set; reflexivity|].
    split; [cbn; tauto|]. split.
    + intros field [= <-]. get_set. eexists. split; [reflexivity|].
      apply Forall_map, Forall_forall. intros p _. apply shortAnswer_object.
    + intros l _. get_set. intros [= <-].
      apply Forall_map, Forall_forall. intros p _. apply shortAnswer_fraction.
  - unfold parseNumerical. destruct (noItems _); [discriminate|].
    destruct (forEach _ _) as [answers|] eqn:E; [|discriminate]. cbn [bind].
    intros [= <-]. split; [is_object|].
    split; [get_set; reflexivity|]. split; [get_set; reflexivity|].
    split; [cbn; tauto|]. split.
    + intros field [= <-]. get_set. eexists. split; [reflexivity|].
      apply Forall_app. split.
      * eapply forEach_Forall; [|exact E]. intros p a. apply numericalAnswer_object.
      * destruct (negb (isEmpty _)); [|constructor].
        constructor; [apply wildcardAnswer_object|constructor].
    + intros l _. get_set. intros [= <-].
      apply Forall_app. split.
      * eapply forEach_Forall; [|exact E]. intros p a. apply numericalAnswer_fraction.
      * destruct (negb (isEmpty _)); [|constructor].
        constructor; [apply wildcardAnswer_fraction|constructor].
Qed.

(** *** Names *)

Lemma defaultName_bounds questiontext :
  defaultName questiontext <> [] /\ (length (defaultName questiontext) <= 30)%nat.
Proof.
  unfold defaultName.
  destruct (isEmpty _) eqn:E; [split; [discriminate|cbn; lia]|].
  split; [now destruct (slice _ _ _)|].
  unfold slice. rewrite length_take. unfold sliceIdx. cbn [Z.ltb Z.compare].
  lia.
Qed.

(** X14.  The name of a parsed question: a category has the empty name; any
    other question has a name that is not empty, which is the name between
    the double colons when there is one, and otherwise has at most thirty
    characters. *)
Theorem parsed_name (lines : list str) (q : value) :
  parseQuestion lines = Ok (Some q) ->
  (Js.get q "qtype" = VStr "category" /\ Js.get q "name" = VStr "")
  \/ (exists comments name text0 n,
         questionBlock lines = Some (comments, name, text0)
         /\ Js.get q "name" = VStr n /\ n <> []
         /\ (name <> [] -> n = name)
         /\ (name = [] -> (length n <= 30)%nat)).
Proof.
  intros [[text0 ->]|(comments & name & text0 & Hblock & Hbody)]%parseQuestion_cases.
  - left. split; reflexivity.
  - right. exists comments, name, text0.
    apply parseBody_cases in Hbody
      as (b & q0 & body & fmt & _ & Hobj & Hname & _ & _ & Hcases).
    set (n := if isEmpty name
              then defaultName
                     (text (parseTextWithFormat (questionText text0 b) FORMAT_MOODLE))
              else name) in *.
    exists n.
    assert (Hq : Js.get q "name" = VStr n).
    { destruct Hcases as [[_ ->]|[[_ ->]|(_ & _ & Hans)]].
      - get_set. exact Hname.
      - unfold essayFields. get_set. exact Hname.
      - apply parseAnswers_shape in Hans as (_ & -> & _); [|is_object].
        get_set. exact Hname. }
    split; [exact Hblock|]. split; [exact Hq|].
    subst n. destruct name as [|c name]; cbn [isEmpty].
    + destruct (defaultName_bounds
                  (text (parseTextWithFormat (questionText text0 b) FORMAT_MOODLE)))
        as [H1 H2].
      repeat split; [exact H1|congruence|intros _; exact H2].
    + repeat split; [discriminate|discriminate].
Qed.

Lemma parsed_name_witness :
  exists q,
    parseQuestion [ "<b>Is water wet?</b> Answer true or false. {T}" : str ]
    = Ok (Some q)
    /\ ((Js.get q "qtype" = VStr "category" /\ Js.get q "name" = VStr "")
        \/ (exists comments name text0 n,
               questionBlock [ "<b>Is water wet?</b> Answer true or false. {T}" : str ]
               = Some (comments, name, text0)
               /\ Js.get q "name" = VStr n /\ n <> []
               /\ (name <> [] -> n = name)
               /\ (name = [] -> (length n <= 30)%nat))).
Proof.
  eexists. split; [vm_compute; reflexivity|].
  apply (parsed_name [ "<b>Is water wet?</b> Answer true or false. {T}" : str ]).
  vm_compute. reflexivity.
Defined.

(** *** What the parser returns, the exporter writes *)

Lemma parse_exportable lines q :
  parseQuestion lines = Ok (Some q) -> exportable q.
Proof.
  intros [[text0 ->]|(comments & name & text0 & Hblock & Hbody)]%parseQuestion_cases.
  - split; [reflexivity|]. exists "category".
    split; [reflexivity|]. split; [cbn; tauto|]. discriminate.
  - apply parseBody_cases in Hbody
      as (b & q0 & body & fmt & _ & Hobj & _ & _ & _ & Hcases).
    destruct Hcases as [[_ ->]|[[_ ->]|(_ & _ & Hans)]].
    + split; [is_object|]. exists "description".
      split; [get_set; reflexivity|]. split; [cbn; tauto|]. discriminate.
    + split; [unfold essayFields; is_object|]. exists "essay".
      split; [unfold essayFields; get_set; reflexivity|].
      split; [cbn; tauto|]. discriminate.
    + apply parseAnswers_shape in Hans as (Hr & _ & Hqt & Hin & Hlist & _);
        [|is_object].
      split; [exact Hr|]. exists (determineQtype body).
      split; [rewrite Hqt; get_set; reflexivity|]. split; assumption.
Qed.

Lemma lookup_copy fields k v :
  Js.lookup fields k = v -> v <> VUndef ->
  Js.get (Js.jsonCopy (VObj fields)) k = Js.jsonCopy v.
Proof.
  cbn [Js.jsonCopy Js.get].
  induction fields as [|[k' x] fields IH]; cbn [Js.lookup].
  - intros <-. congruence.
  - destruct (Str.equal k' k) eqn:E.
    + intros -> Hv. destruct v; try congruence; cbn [Js.lookup]; now rewrite E.
    + intros Hl Hv. specialize (IH Hl Hv).
      destruct x; cbn [Js.lookup]; rewrite ?E; exact IH.
Qed.

Lemma get_copy q k v :
  isObject q = true -> Js.get q k = v -> v <> VUndef ->
  Js.get (Js.jsonCopy q) k = Js.jsonCopy v.
Proof. destruct q; try discriminate. intros _. apply lookup_copy. Qed.

Lemma forEach_total {A B} (f : A -> result B) l :
  Forall (fun x => exists y, f x = Ok y) l -> exists ys, forEach f l = Ok ys.
Proof.
  induction 1 as [|x l [y Hy] _ [ys Hys]]; [now exists []|].
  exists (y :: ys). cbn [forEach]. now rewrite Hy, Hys.
Qed.

Lemma writeList_total c open field line l :
  Js.get c field = VArr l ->
  Forall (fun a => exists out, line c a = Ok out) l ->
  exists out, writeList c open field line = Ok out.
Proof.
  intros Hl Hlines. unfold writeList. rewrite Hl. cbn [Js.or Js.truthy iterate bind].
  destruct (forEach_total (line c) l Hlines) as [lines ->]. cbn [bind]. eauto.
Qed.

Lemma copied_objects l :
  Forall (fun a => isObject a = true) l ->
  Forall (fun a => exists fields, a = VObj fields) (map Js.jsonCopy l).
Proof.
  intros H. apply Forall_map. eapply Forall_impl; [exact H|].
  intros [] Ha; try discriminate. cbn [Js.jsonCopy]. eauto.
Qed.

Lemma exportable_written q : exportable q -> exists out, writeOne q = Ok out.
Proof.
  intros (Hobj & qtype & Hqt & Hin & Hlist).
  unfold writeOne, clone. destruct q as [| | | | | |fields]; try discriminate Hobj.
  cbn [bind]. set (c := Js.jsonCopy (VObj fields)).
  assert (Hc : Js.get c "qtype" = VStr qtype).
  { subst c. erewrite get_copy; [| |exact Hqt|]; [reflexivity|reflexivity|discriminate]. }
  assert (Hcl : forall field, listField qtype = Some field ->
                  exists l, Js.get c field = VArr l
                            /\ Forall (fun a => exists fs, a = VObj fs) l).
  { intros field Hf. destruct (Hlist field Hf) as (l & Hl & Hall).
    exists (map Js.jsonCopy l). split; [|now apply copied_objects].
    subst c. erewrite get_copy; [| |exact Hl|]; [reflexivity|reflexivity|discriminate]. }
  assert (Hbody : exists body, writeBody c = Ok body).
  { unfold writeBody. rewrite Hc.
    unfold supportedQtypes in Hin. cbn [In] in Hin.
    decompose [or] Hin; try contradiction; subst qtype;
      cbn [Js.isStr Str.equal list_ascii_of_string Ascii.eqb Bool.eqb andb];
      eauto.
    - destruct (Hcl "answers" eq_refl) as (l & Hl & Hall).
      eapply writeList_total; [exact Hl|].
      eapply Forall_impl; [exact Hall|]. intros a [fs ->].
      unfold writeMultichoiceAnswer. cbn [notNull bind]. eauto.
    - destruct (Hcl "answers" eq_refl) as (l & Hl & Hall).
      eapply writeList_total; [exact Hl|].
      eapply Forall_impl; [exact Hall|]. intros a [fs ->].
      unfold writeShortAnswer. cbn [notNull bind]. eauto.
    - destruct (Hcl "answers" eq_refl) as (l & Hl & Hall).
      eapply writeList_total; [exact Hl|].
      eapply Forall_impl; [exact Hall|]. intros a [fs ->].
      unfold writeNumericalAnswer. cbn [notNull bind].
      destruct (_ && _); eauto.
    - destruct (Hcl "subquestions" eq_refl) as (l & Hl & Hall).
      eapply writeList_total; [exact Hl|].
      eapply Forall_impl; [exact Hall|]. intros a [fs ->].
      unfold writeSubquestion. cbn [notNull bind]. eauto. }
  destruct Hbody as [body Hbody].
  unfold writeCopy. subst c. cbn [Js.jsonCopy notNull bind] in *.
  rewrite Hbody. cbn [bind]. eauto.
Qed.

Lemma parseGift_questions input questions :
  parseGift input = Ok questions ->
  Forall (fun q => exists lines, parseQuestion lines = Ok (Some q)) questions.
Proof.
  unfold parseGift. rewrite parseLines_blocks.
  generalize (blocksFrom (Str.split (normalizeNewlines input) [LF]) []).
  intros bs.
  destruct (parseBlocks_spec bs [])
    as [(results & HF & ->)|(before & b & after & e & _ & _ & _ & ->)];
    [|discriminate].
  intros [= <-]. cbn [app].
  induction HF as [|b r bs results Hb _ IH]; [constructor|].
  destruct r as [q|]; cbn; [|exact IH].
  constructor; [eauto|exact IH].
Qed.

(** X15.  [exportGift] raises no error on what [parseGift] returned: every
    parsed question has a type that [writeOne] writes, and the list that
    type is written from. *)
Theorem parsed_is_exported (input : str) (questions : list value) :
  parseGift input = Ok questions -> exists out, exportGift questions = Ok out.
Proof.
  intros H%parseGift_questions. unfold exportGift.
  destruct (forEach_total writeOne questions) as [out ->]; [|cbn [bind]; eauto].
  eapply Forall_impl; [exact H|].
  intros q [lines Hq]. apply exportable_written. eapply parse_exportable, Hq.
Qed.

Lemma parsed_is_exported_witness :
  exists questions,
    parseGift ("$CATEGORY: top" ++ [LF; LF] ++ "::N::What? {=a ~b}" ++ [LF; LF]
               ++ "Pi? {#3.14:0.01}" ++ [LF; LF] ++ "Match {=a -> b =c -> d}")
    = Ok questions
    /\ exists out, exportGift questions = Ok out.
Proof.
  eexists. split; [vm_compute; reflexivity|].
  apply (parsed_is_exported
           ("$CATEGORY: top" ++ [LF; LF] ++ "::N::What? {=a ~b}" ++ [LF; LF]
            ++ "Pi? {#3.14:0.01}" ++ [LF; LF] ++ "Match {=a -> b =c -> d}")).
  vm_compute. reflexivity.
Defined.

(** X16.  Every answer of every question that [parseGift] returns has a
    fraction between 0 and 1. *)
Theorem parsed_fractions (input : str) (questions : list value) :
  parseGift input = Ok questions ->
  Forall (fun q => forall l, Js.get q "answers" = VArr l ->
                   Forall (fun a => unitFraction (Js.get a "fraction")) l)
    questions.
Proof.
  intros H%parseGift_questions. eapply Forall_impl; [exact H|].
  intros q [lines Hq] l Hl.
  apply parseQuestion_cases in Hq
    as [[text0 ->]|(comments & name & text0 & Hblock & Hbody)]; [discriminate Hl|].
  apply parseBody_cases in Hbody
    as (b & q0 & body & fmt & _ & Hobj & _ & Hnone & _ & Hcases).
  destruct Hcases as [[_ ->]|[[_ ->]|(_ & _ & Hans)]].
  - revert Hl. get_set. lits. rewrite Hnone. discriminate.
  - revert Hl. unfold essayFields. get_set. lits. rewrite Hnone. discriminate.
  - apply parseAnswers_shape in Hans as (_ & _ & _ & _ & _ & Hfr); [|is_object].
    apply Hfr; [|exact Hl]. get_set. exact Hnone.
Qed.

Lemma parsed_fractions_witness :
  exists questions,
    parseGift ("What? {=a ~%50%b ~%-25%c}" ++ [LF; LF] ++ "Pi? {#3.14:0.01 =%50%3}")
    = Ok questions
    /\ Forall (fun q => forall l, Js.get q "answers" = VArr l ->
                        Forall (fun a => unitFraction (Js.get a "fraction")) l)
         questions.
Proof.
  eexists. split; [vm_compute; reflexivity|].
  apply (parsed_fractions
           ("What? {=a ~%50%b ~%-25%c}" ++ [LF; LF] ++ "Pi? {#3.14:0.01 =%50%3}")).
  vm_compute. reflexivity.
Defined.

(** *** An escaped text holds no syntax *)

Lemma tokPost_inert c x :
  In x reserved -> lacks x (tokPost 0 c) = true.
Proof.
  unfold reserved. lits. cbn [app In]. intros H.
  decompose [or] H; try contradiction; subst x; ascii_cases c; reflexivity.
Qed.

(** X17.  After [repchar] and the masking of [escapedcharPre], a text holds
    none of the characters that the parser gives a meaning to: no colon, no
    [#], no [=], no brace, no tilde and no newline.  The text has no carriage
    return and does not hold the placeholder of the backslash. *)
Theorem escaped_text_inert (s : str) (x : ascii) :
  lacks CR s = true -> absent "&&092;" s = true ->
  In x reserved ->
  lacks x (escapedcharPre (repchar s)) = true.
Proof.
  intros Hcr Habs Hx. rewrite mask_tokens by assumption.
  induction s as [|c s IH]; [reflexivity|].
  cbn [flat_map]. rewrite lacks_app, tokPost_inert by exact Hx.
  cbn [andb]. apply IH.
  - cbn [lacks forallb] in Hcr. now apply andb_prop in Hcr as [_ ?].
  - cbn [absent] in Habs. now apply andb_prop in Habs as [_ ?].
Qed.

Lemma escaped_text_inert_witness :
  lacks "{" (escapedcharPre (repchar "a {=b ~c} # d: e")) = true.
Proof.
  apply escaped_text_inert; [reflexivity|reflexivity|].
  unfold reserved. lits. cbn [app In]. tauto.
Defined.

(** *** Copies *)

Lemma jsonCopy_defined v : Js.jsonCopy v <> VUndef.
Proof. destruct v as [| | |[| |]| | |]; discriminate. Qed.

Lemma jsonCopy_idempotent : forall v, Js.jsonCopy (Js.jsonCopy v) = Js.jsonCopy v.
Proof.
  fix IH 1. intros [| | |[| |]| |l|fields]; try reflexivity.
  - cbn [Js.jsonCopy]. f_equal.
    induction l as [|a l IHl]; [reflexivity|].
    cbn [map]. f_equal; [apply IH|exact IHl].
  - cbn [Js.jsonCopy]. f_equal.
    induction fields as [|[k x] fields IHf]; [reflexivity|].
    pose proof (IH x) as Hx. pose proof (jsonCopy_defined x) as Hd.
    destruct x as [| | |n| |l|fs]; try (cbn; f_equal; exact IHf).
    + exact IHf.
    + destruct n as [| |q]; cbn; f_equal; exact IHf.
    + cbn [Js.jsonCopy] in Hx. cbn. rewrite Hx. f_equal. exact IHf.
    + cbn [Js.jsonCopy] in Hx. cbn. rewrite Hx. f_equal. exact IHf.
Qed.

Lemma writeOne_copy q : q <> VUndef -> writeOne (Js.jsonCopy q) = writeOne q.
Proof.
  intros Hq. unfold writeOne, clone.
  pose proof (jsonCopy_defined q) as Hc.
  destruct (Js.jsonCopy q) eqn:E; try congruence;
    rewrite <- E, jsonCopy_idempotent; destruct q; congruence.
Qed.

(** X18.  Questions that went through JSON, as the command line stores and
    reloads them, export to the same text as the questions themselves.  No
    question is [undefined] (which JSON turns into [null] in an array). *)
Theorem stored_questions_export (questions : list value) :
  Forall (fun q => q <> VUndef) questions ->
  exportGift (map Js.jsonCopy questions) = exportGift questions.
Proof.
  intros H. unfold exportGift. f_equal.
  induction H as [|q questions Hq _ IH]; [reflexivity|].
  cbn [map forEach]. now rewrite writeOne_copy, IH.
Qed.

Lemma stored_questions_export_witness :
  exportGift (map Js.jsonCopy
                [ VObj [ ("id" : str, VUndef); ("qtype" : str, VStr "description");
                         ("name" : str, VStr "N"); ("score" : str, VNum NaN) ] ])
  = exportGift [ VObj [ ("id" : str, VUndef); ("qtype" : str, VStr "description");
                        ("name" : str, VStr "N"); ("score" : str, VNum NaN) ] ].
Proof. apply stored_questions_export. repeat constructor. discriminate. Defined.

(** *** The words left out of a sentence *)

Lemma forallb_rev' {A} (f : A -> bool) l : forallb f (rev l) = forallb f l.
Proof.
  induction l as [|x l IH]; [reflexivity|].
  cbn [rev forallb]. rewrite forallb_app, IH. cbn [forallb].
  rewrite andb_true_r. apply andb_comm.
Qed.

Lemma endsWithBrace_post pre post :
  lacks "}" post = true ->
  endsWithBrace (pre ++ "}"%char :: post) = isBlank post.
Proof.
  intros Hpost.
  unfold endsWithBrace. rewrite rev_app_distr. cbn [rev]. rewrite <- app_assoc.
  cbn [app].
  assert (H : forall u v,
             lacks "}" u = true ->
             startsWith (trimStart (u ++ "}"%char :: v)) "}" = forallb isSpace u).
  { induction u as [|c u IH]; intros v Hu; [reflexivity|].
    cbn [lacks forallb] in Hu. apply andb_prop in Hu as [Hc Hu].
    cbn [app trimStart forallb]. destruct (isSpace c) eqn:E; [now apply IH|].
    cbn [startsWith list_ascii_of_string]. rewrite andb_true_r.
    apply negb_true_iff in Hc. now rewrite Ascii.eqb_sym. }
  rewrite H.
  - unfold isBlank. now rewrite forallb_rev'.
  - unfold lacks. now rewrite forallb_rev'.
Qed.

(** The question text of a text with one answer in braces. *)
Lemma questionText_span pre span post :
  lacks "{" pre = true -> lacks "}" post = true ->
  questionText (pre ++ "{" ++ span ++ "}" ++ post)
    (Answer (Z.of_nat (length pre)) (Z.of_nat (length pre + 1 + length span)))
  = pre ++ (if isBlank post then [] else "_____") ++ post.
Proof.
  intros Hpre Hpost. cbn [questionText].
  assert (H1 : slice (pre ++ "{" ++ span ++ "}" ++ post) 0 (Z.of_nat (length pre)) = pre)
    by apply slice_prefix.
  assert (H2 : sliceFrom (pre ++ "{" ++ span ++ "}" ++ post)
                 (Z.of_nat (length pre + 1 + length span) + 1) = post).
  { pose proof (sliceFrom_suffix (pre ++ "{" ++ span ++ "}") post) as H.
    rewrite <- !app_assoc in H. rewrite <- H at 2. f_equal.
    rewrite !length_app. lits. cbn [length]. lia. }
  rewrite H1, H2.
  replace (pre ++ "{" ++ span ++ "}" ++ post)
    with ((pre ++ "{" ++ span) ++ "}"%char :: post)
    by (now rewrite <- !app_assoc).
  rewrite endsWithBrace_post by exact Hpost. now destruct (isBlank post).
Qed.

(** X19.  The question text of a block with an answer in braces is the text
    before the opening brace followed by the text after the closing one, with
    five underscores between them when something other than white space
    follows the answer, and nothing between them otherwise. *)
Theorem missing_word (pre span post : str) :
  lacks "{" pre = true -> lacks "}" post = true ->
  let text0 := pre ++ "{" ++ span ++ "}" ++ post in
  exists s f,
    findBraces text0 = Ok (Answer s f)
    /\ questionText text0 (Answer s f)
       = pre ++ (if isBlank post then [] else "_____") ++ post.
Proof.
  intros Hpre Hpost text0.
  destruct (findBraces_span pre span post Hpre Hpost) as [Hb _].
  fold text0 in Hb. eexists. eexists. split; [exact Hb|].
  subst text0. now apply questionText_span.
Qed.

Lemma missing_word_witness :
  exists s f,
    findBraces ("The capital of " ++ "{" ++ "=Paris ~Lyon" ++ "}" ++ " is in France.")
    = Ok (Answer s f)
    /\ questionText
         ("The capital of " ++ "{" ++ "=Paris ~Lyon" ++ "}" ++ " is in France.")
         (Answer s f)
       = "The capital of " ++ (if isBlank " is in France." then [] else "_____")
         ++ " is in France.".
Proof.
  apply (missing_word "The capital of " "=Paris ~Lyon" " is in France."); reflexivity.
Defined.

(** *** The errors of the exporter *)

Lemma writeList_error c open field line e :
  (forall a e', line c a = Err e' -> e' = TypeError) ->
  writeList c open field line = Err e -> e = TypeError.
Proof.
  intros Hline. unfold writeList.
  destruct (iterate _) as [items|e'] eqn:Hi; cbn [bind].
  - destruct (forEach _ _) as [lines|e'] eqn:Hf; cbn [bind]; [discriminate|].
    intros [= <-]. apply forEach_err in Hf as (a & _ & Ha). eapply Hline, Ha.
  - intros [= <-]. unfold iterate in Hi.
    destruct (Js.or _ _); congruence.
Qed.

Lemma notNull_error v e : notNull v = Err e -> e = TypeError.
Proof. destruct v; cbn; congruence. Qed.

(** X20.  When [exportGift] fails, one of the questions is to blame: it is
    [undefined] and the error is a [SyntaxError]; or the error is a
    [TypeError]; or its type is none that [writeOne] writes and the error
    names that type. *)
Theorem export_errors (questions : list value) (e : error) :
  exportGift questions = Err e ->
  exists q, In q questions
    /\ ((q = VUndef /\ e = SyntaxError)
        \/ (q <> VUndef /\ e = TypeError)
        \/ (qtypeSupported (Js.jsonCopy q) = false
            /\ e = UnsupportedQtype (Js.toString (Js.get (Js.jsonCopy q) "qtype")))).
Proof.
  unfold exportGift.
  destruct (forEach writeOne questions) as [out|e'] eqn:Hf; cbn [bind]; [discriminate|].
  intros [= ->]. apply forEach_err in Hf as (q & Hin & Hq).
  exists q. split; [exact Hin|].
  unfold writeOne, clone in Hq.
  assert (Hdec : q = VUndef \/ q <> VUndef)
    by (destruct q; (now left) || (right; discriminate)).
  destruct Hdec as [->|Hne].
  - left. split; [reflexivity|]. cbn in Hq. congruence.
  - right.
    assert (Hw : writeCopy (Js.jsonCopy q) = Err e)
      by (destruct q; try congruence; exact Hq).
    clear Hq. unfold writeCopy in Hw.
    destruct (notNull (Js.jsonCopy q)) as [c|e'] eqn:Hn; cbn [bind] in Hw.
    + assert (c = Js.jsonCopy q) as -> by (destruct (Js.jsonCopy q); cbn in Hn; congruence).
      destruct (writeBody (Js.jsonCopy q)) as [body|e'] eqn:Hb; cbn [bind] in Hw;
        [discriminate|].
      injection Hw as ->. unfold writeBody in Hb.
      unfold qtypeSupported, supportedQtypes. cbn [existsb].
      repeat match type of Hb with
             | (if ?b then _ else _) = _ => destruct b; [try discriminate Hb|]
             end.
      * left. split; [exact Hne|]. eapply writeList_error, Hb.
        intros a e'. unfold writeMultichoiceAnswer.
        destruct (notNull a) eqn:Ha; cbn [bind]; [discriminate|].
        intros [= <-]. eapply notNull_error, Ha.
      * left. split; [exact Hne|]. eapply writeList_error, Hb.
        intros a e'. unfold writeShortAnswer.
        destruct (notNull a) eqn:Ha; cbn [bind]; [discriminate|].
        intros [= <-]. eapply notNull_error, Ha.
      * left. split; [exact Hne|]. eapply writeList_error, Hb.
        intros a e'. unfold writeNumericalAnswer.
        destruct (notNull a) eqn:Ha; cbn [bind].
        -- destruct (_ && _); discriminate.
        -- intros [= <-]. eapply notNull_error, Ha.
      * left. split; [exact Hne|]. eapply writeList_error, Hb.
        intros a e'. unfold writeSubquestion.
        destruct (notNull a) eqn:Ha; cbn [bind]; [discriminate|].
        intros [= <-]. eapply notNull_error, Ha.
      * right. split; [reflexivity|]. now injection Hb as <-.
    + left. split; [exact Hne|]. injection Hw as <-. eapply notNull_error, Hn.
Qed.

Lemma export_errors_witness :
  exists q, In q [ VObj [ ("qtype" : str, VStr "cloze") ] ]
    /\ ((q = VUndef /\ UnsupportedQtype "cloze" = SyntaxError)
        \/ (q <> VUndef /\ UnsupportedQtype "cloze" = TypeError)
        \/ (qtypeSupported (Js.jsonCopy q) = false
            /\ UnsupportedQtype "cloze"
               = UnsupportedQtype (Js.toString (Js.get (Js.jsonCopy q) "qtype")))).
Proof.
  apply (export_errors [ VObj [ ("qtype" : str, VStr "cloze") ] ]). reflexivity.
Defined.

(** *** One block of lines *)

Lemma split_join lines :
  lines <> [] -> Forall (fun l => lacks LF l = true) lines ->
  Str.split (join [LF] lines) [LF] = lines.
Proof.
  intros Hne H. induction H as [|l lines Hl Hlines IH]; [congruence|].
  destruct lines as [|l' lines].
  - cbn [join]. now apply split_none.
  - change (join [LF] (l :: l' :: lines)) with (l ++ LF :: join [LF] (l' :: lines)).
    rewrite split_char by exact Hl. f_equal. apply IH. discriminate.
Qed.

Lemma lacks_join c sep lines :
  lacks c sep = true -> Forall (fun l => lacks c l = true) lines ->
  lacks c (join sep lines) = true.
Proof.
  intros Hsep H. induction H as [|l lines Hl Hlines IH]; [reflexivity|].
  destruct lines as [|l' lines]; [exact Hl|].
  change (join sep (l :: l' :: lines)) with (l ++ sep ++ join sep (l' :: lines)).
  now rewrite !lacks_app, Hl, Hsep, IH.
Qed.

Lemma parseLines_blank_tail blanks buf questions :
  Forall (fun l => isBlank l = true) blanks -> blanks <> [] ->
  parseLines blanks buf questions = parseLines [] buf questions.
Proof.
  intros H. revert buf questions.
  induction H as [|l blanks Hl Hblanks IH]; intros buf questions Hne; [congruence|].
  cbn [parseLines]. rewrite Hl.
  destruct buf as [|b buf]; cbn [noItems negb].
  - destruct blanks as [|l' blanks]; [reflexivity|]. apply IH. discriminate.
  - destruct (flush (b :: buf) questions) as [qs|e]; cbn [bind]; [|reflexivity].
    destruct blanks as [|l' blanks]; [reflexivity|].
    rewrite IH by discriminate. reflexivity.
Qed.

Lemma parseLines_lines lines blanks buf :
  Forall (fun l => isBlank l = false) lines ->
  Forall (fun l => isBlank l = true) blanks -> blanks <> [] ->
  parseLines (lines ++ blanks) buf [] = parseLines [] (buf ++ lines) [].
Proof.
  intros Hlines Hblanks Hb. revert buf.
  induction Hlines as [|l ls Hl Hls IH]; intros buf.
  - cbn [app]. rewrite app_nil_r. now apply parseLines_blank_tail.
  - cbn [app parseLines]. rewrite Hl, IH, <- app_assoc. reflexivity.
Qed.

(** The text of one block, followed by blank lines, is parsed as that
    block. *)
Lemma parseGift_block lines blanks :
  lines <> [] -> Forall blockLine lines ->
  blanks <> [] -> Forall (fun l => l = []) blanks ->
  parseGift (join [LF] (lines ++ blanks)) = flush lines [].
Proof.
  intros Hne Hlines Hb Hblanks. unfold parseGift.
  assert (Hlf : Forall (fun l => lacks LF l = true) (lines ++ blanks)).
  { apply Forall_app. split.
    - eapply Forall_impl; [exact Hlines|]. now intros l [? _].
    - eapply Forall_impl; [exact Hblanks|]. intros l E; cbn beta in E; now subst. }
  assert (Hcr : Forall (fun l => lacks CR l = true) (lines ++ blanks)).
  { apply Forall_app. split.
    - eapply Forall_impl; [exact Hlines|]. now intros l (_ & ? & _).
    - eapply Forall_impl; [exact Hblanks|]. intros l E; cbn beta in E; now subst. }
  rewrite normalizeNewlines_plain by (now apply lacks_join).
  rewrite split_join by (assumption || now destruct lines).
  rewrite parseLines_lines; [|
      eapply Forall_impl; [exact Hlines|]; now intros l (_ & _ & ?) |
      eapply Forall_impl; [exact Hblanks|]; intros l E; cbn beta in E; now subst |
      exact Hb].
  cbn [app parseLines]. now destruct lines.
Qed.

(** *** Categories *)

Lemma escapedcharPre_plain s :
  lacks backslash s = true -> absent "&&092;" s = true -> escapedcharPre s = s.
Proof.
  intros Hbs Habs. rewrite escapedcharPre_unfold.
  unfold replaceEach, ESC_PRE, replaceAll. cbn [fold_left map fst snd].
  rewrite !(replaceAux_absent (list_ascii_of_string _) _ s)
    by (apply absent_first, Hbs).
  now apply replaceAux_absent.
Qed.

Lemma trim_blank_prefix sp s : isBlank sp = true -> trim (sp ++ s) = trim s.
Proof.
  intros H. unfold trim. f_equal.
  induction sp as [|c sp IH]; [reflexivity|].
  cbn [isBlank forallb] in H. apply andb_prop in H as [Hc Hsp].
  cbn [app trimStart]. rewrite Hc. now apply IH.
Qed.

Lemma trim_keep pre s :
  pre <> [] -> startsOk pre -> s <> [] -> endsOk s -> trim (pre ++ s) = pre ++ s.
Proof.
  intros Hpre Hs Hne He. apply trim_id.
  - destruct pre; [congruence|exact Hs].
  - now apply endsOk_app_r.
Qed.

Lemma join_two (sep a b : str) : join sep [a; b] = a ++ sep ++ b.
Proof. reflexivity. Qed.

Lemma category_line c :
  c <> [] -> trim c = c -> lacks backslash c = true -> absent "&&092;" c = true ->
  parseQuestion [ "// question:   name: " : str; "$CATEGORY: " ++ c ]
  = Ok (Some (categoryQuestion c)).
Proof.
  intros Hne Htrim Hbs Habs.
  destruct (trim_ends_iff c Htrim) as [Hs He].
  assert (Hline : trim ("$CATEGORY: " ++ c) = "$CATEGORY: " ++ c)
    by (apply trim_keep; [discriminate|reflexivity|assumption..]).
  assert (Hmask : escapedcharPre ("$CATEGORY: " ++ c) = "$CATEGORY: " ++ c).
  { rewrite escapedcharPre_prefix by reflexivity.
    now rewrite escapedcharPre_plain. }
  assert (Hname : categoryName ("$CATEGORY: " ++ c) = c).
  { unfold categoryName. lits. cbn [app drop trimStart].
    change (isSpace " ") with true. cbn iota.
    now rewrite (trimStart_id c Hs). }
  assert (Hcat : isCategory ("$CATEGORY: " ++ c) = true) by reflexivity.
  assert (Hnot : startsWith ("$CATEGORY: " ++ c) "//" = false) by reflexivity.
  assert (Hfull : isEmpty ("$CATEGORY: " ++ c) = false) by reflexivity.
  set (line := "$CATEGORY: " ++ c) in *.
  unfold parseQuestion, separateComments. cbn [fold_left fst snd].
  change (trim "// question:   name: ") with ("// question:   name:" : str).
  change (startsWith "// question:   name:" "//") with true. cbn iota.
  rewrite Hline, Hnot. cbn [fst snd app].
  rewrite join_two, app_assoc, trim_blank_prefix by reflexivity.
  rewrite Hline, Hfull, Hmask, Hcat, Hname. reflexivity.
Qed.

(** X21.  A category question, exported and parsed again, comes back as the
    same object.  The category is not empty, has no white space at the ends,
    no line break, no backslash and not the placeholder of the backslash. *)
Theorem category_roundtrip (c : str) :
  c <> [] -> trim c = c ->
  lacks LF c = true -> lacks CR c = true ->
  lacks backslash c = true -> absent "&&092;" c = true ->
  exists out,
    exportGift [categoryQuestion c] = Ok out
    /\ parseGift out = Ok [categoryQuestion c].
Proof.
  intros Hne Htrim Hlf Hcr Hbs Habs.
  exists (join [LF] ([ "// question:   name: " : str; "$CATEGORY: " ++ c ] ++ [[]; []])).
  split.
  - unfold exportGift, categoryQuestion. cbn. now rewrite <- !app_assoc.
  - rewrite parseGift_block.
    + unfold flush. rewrite category_line by assumption. reflexivity.
    + discriminate.
    + destruct (trim_ends_iff c Htrim) as [Hs He].
      repeat constructor; try reflexivity.
      * lits. cbn [app lacks forallb Ascii.eqb Bool.eqb negb andb]. exact Hlf.
      * lits. cbn [app lacks forallb Ascii.eqb Bool.eqb negb andb]. exact Hcr.
    + discriminate.
    + repeat constructor.
Qed.

Lemma category_roundtrip_witness :
  exists out,
    exportGift [categoryQuestion "top/Geography & maps"] = Ok out
    /\ parseGift out = Ok [categoryQuestion "top/Geography & maps"].
Proof. apply category_roundtrip; (reflexivity || discriminate). Defined.

(** *** Masking an escaped text that is followed by another text *)

Lemma pass_tail (P : str -> Prop) (tok tok' : ascii -> str) (pat rep tail : str) :
  (forall c r, P (c :: r) -> P r) ->
  (forall c r, P (c :: r) ->
     replaceAux pat rep O (tok c ++ flat_map tok r ++ tail)
     = tok' c ++ replaceAux pat rep O (flat_map tok r ++ tail)) ->
  forall s, P s ->
    replaceAux pat rep O (flat_map tok s ++ tail)
    = flat_map tok' s ++ replaceAux pat rep O tail.
Proof.
  intros Htail Hstep s.
  induction s as [|c s IH]; intros HP; [reflexivity|].
  cbn [flat_map]. rewrite <- !app_assoc, (Hstep c s HP). f_equal.
  apply IH. eapply Htail, HP.
Qed.

Lemma pre_first_tail s tail :
  replaceAll (flat_map enc s ++ tail) "\\" "&&092;"
  = flat_map (tokPre 0) s ++ replaceAll tail "\\" "&&092;".
Proof.
  apply (pass_tail (fun _ => True)); [trivial| |trivial].
  intros c r _. ascii_cases c; reflexivity.
Qed.

Lemma pre_pass_tail i s tail : (i < 7)%nat ->
  replaceAll (flat_map (tokPre i) s ++ tail) (escapeOf i) (placeholderOf i)
  = flat_map (tokPre (S i)) s ++ replaceAll tail (escapeOf i) (placeholderOf i).
Proof.
  intros Hi. apply (pass_tail (fun _ => True)); [trivial| |trivial].
  intros c r _.
  do 7 (destruct i as [|i]; [ascii_cases c; reflexivity|]). lia.
Qed.

Lemma look_restore_tail r tail :
  lacks CR r = true -> startsWith ("&"%char :: r) "&&092;" = false ->
  tailOk tail ->
  startsWith ("&"%char :: flat_map (tokPre 7) r ++ tail) "&&092;" = false.
Proof.
  intros Hcr H (H1 & H2 & H3 & H4 & H5).
  destruct r as [|c r].
  - cbn. exact H1.
  - ascii_cases c; try reflexivity; try discriminate Hcr.
    cbn in *. destruct r as [|c r].
    + cbn. exact H2.
    + ascii_cases c; try reflexivity; try discriminate Hcr.
      cbn in *. destruct r as [|c r].
      * cbn. exact H3.
      * ascii_cases c; try reflexivity; try discriminate Hcr.
        cbn in *. destruct r as [|c r].
        -- cbn. exact H4.
        -- ascii_cases c; try reflexivity; try discriminate Hcr.
           cbn in *. destruct r as [|c r].
           ++ cbn. exact H5.
           ++ ascii_cases c; try reflexivity; try discriminate Hcr.
              cbn in H. discriminate H.
Qed.

Lemma restore_pass_tail s tail :
  clean "&&092;" s -> tailOk tail ->
  replaceAll (flat_map (tokPre 7) s ++ tail) "&&092;" [backslash]
  = flat_map (tokPost 0) s ++ replaceAll tail "&&092;" [backslash].
Proof.
  intros Hs Htail.
  apply (pass_tail (clean "&&092;")); [apply clean_tail| |exact Hs].
  intros c r [Hhead Hcr]%clean_head.
  pose proof (look_restore_tail r tail Hcr) as Hlook.
  ascii_cases c; try reflexivity.
  exact (replaceAux_skip _ _ "&"%char _ (Hlook Hhead Htail)).
Qed.

(** The first eight passes of [escapedcharPre]. *)
Lemma masked_tail s tail :
  lacks CR s = true -> absent "&&092;" s = true ->
  tailOk (replaceEach ESC_PRE (replaceAll tail "\\" "&&092;")) ->
  escapedcharPre (repchar s ++ tail)
  = flat_map (tokPost 0) s ++ escapedcharPre tail.
Proof.
  intros Hcr Habs Htail.
  rewrite repchar_flat, !escapedcharPre_unfold, pre_first_tail.
  unfold replaceEach, ESC_PRE in *. cbn [fold_left map fst snd] in *.
  rewrite (pre_pass_tail 0), (pre_pass_tail 1), (pre_pass_tail 2),
    (pre_pass_tail 3), (pre_pass_tail 4), (pre_pass_tail 5), (pre_pass_tail 6) by lia.
  apply restore_pass_tail; [now split|exact Htail].
Qed.

(** A text that starts with a colon. *)
Lemma tailOk_colon rest :
  tailOk (replaceEach ESC_PRE (replaceAll (":"%char :: rest) "\\" "&&092;")).
Proof.
  unfold replaceEach, ESC_PRE, replaceAll. cbn [fold_left map fst snd]. lits.
  rewrite !(replaceAux_skip _ _ ":"%char) by reflexivity.
  repeat split.
Qed.

Lemma masked_name n rest :
  lacks CR n = true -> absent "&&092;" n = true ->
  escapedcharPre ("::" ++ repchar n ++ "::" ++ rest)
  = "::" ++ flat_map (tokPost 0) n ++ "::" ++ escapedcharPre rest.
Proof.
  intros Hcr Habs.
  rewrite escapedcharPre_prefix by reflexivity. f_equal.
  lits. cbn [app]. rewrite masked_tail by (assumption || apply tailOk_colon).
  f_equal.
  exact (escapedcharPre_prefix "::" rest eq_refl eq_refl).
Qed.

(** *** The name wrapper *)

Lemma indexOfAux_pair c a b i :
  lacks c a = true ->
  indexOfAux [c; c] (a ++ c :: c :: b) i = i + Z.of_nat (length a).
Proof.
  revert i. induction a as [|x a IH]; intros i Ha.
  - cbn. rewrite Ascii.eqb_refl. cbn. lia.
  - cbn [lacks forallb] in Ha. apply andb_prop in Ha as [Hx Ha].
    apply negb_true_iff in Hx.
    cbn [app indexOfAux startsWith]. rewrite Ascii.eqb_sym, Hx. cbn [andb].
    rewrite IH by exact Ha. cbn [length]. lia.
Qed.

Lemma takeName_wrapped m rest :
  lacks ":" m = true -> m <> [] ->
  takeName ("::" ++ m ++ "::" ++ rest) = (escapedcharPost m, trim rest).
Proof.
  intros Hm Hne. unfold takeName. lits. cbn [app startsWith Ascii.eqb Bool.eqb andb].
  assert (Hpos : indexOfFrom (":"%char :: ":"%char :: m ++ ":"%char :: ":"%char :: rest)
                   [":"%char; ":"%char] 2 = 2 + Z.of_nat (length m)).
  { unfold indexOfFrom. cbn [length].
    replace (Z.min (Z.max 2 0)
               (Z.of_nat (S (S (length (m ++ ":"%char :: ":"%char :: rest))))))
      with 2 by lia.
    change (Z.to_nat 2) with 2%nat. cbn [drop].
    now apply indexOfAux_pair. }
  rewrite Hpos.
  replace (2 + Z.of_nat (length m) =? -1) with false by (symmetry; apply Z.eqb_neq; lia).
  cbn [negb].
  assert (Hs1 : slice (":"%char :: ":"%char :: m ++ ":"%char :: ":"%char :: rest) 2
                  (2 + Z.of_nat (length m)) = m).
  { pose proof (slice_middle "::" m ("::" ++ rest)) as H.
    lits. cbn [app length] in H.
    replace (2 + Z.of_nat (length m)) with (Z.of_nat (2 + length m)) by lia.
    exact H. }
  assert (Hs2 : sliceFrom (":"%char :: ":"%char :: m ++ ":"%char :: ":"%char :: rest)
                  (2 + Z.of_nat (length m) + 2) = rest).
  { pose proof (sliceFrom_suffix ("::" ++ m ++ "::") rest) as H.
    lits. rewrite <- !app_assoc in H. cbn [app] in H. rewrite <- H at 2. f_equal.
    cbn [length]. rewrite length_app. cbn [length]. lia. }
  rewrite Hs1, Hs2.
  now destruct m.
Qed.

(** *** Descriptions *)

Lemma masked_inert t x :
  In x reserved -> lacks x (flat_map (tokPost 0) t) = true.
Proof.
  intros Hx. induction t as [|c t IH]; [reflexivity|].
  cbn [flat_map]. now rewrite lacks_app, tokPost_inert, IH.
Qed.

Lemma formatTag_lacks f d x :
  In f formats -> In x reserved -> lacks x (formatTag f d) = true.
Proof.
  intros Hf Hx. unfold formatTag. destruct (Str.equal f d); [reflexivity|].
  unfold formats in Hf. unfold reserved in Hx. lits. cbn [app In] in *.
  decompose [or] Hf; try contradiction; subst f;
    decompose [or] Hx; try contradiction; subst x; reflexivity.
Qed.

Lemma description_body comments n t f :
  n <> [] -> In f formats ->
  plainText t -> trim t = t ->
  (f = FORMAT_MOODLE -> startsWith t "[" = false) ->
  parseBody comments n (formatTag f FORMAT_MOODLE ++ flat_map (tokPost 0) t)
  = Ok (descriptionQuestion n t f (fst (extractIdnumberAndTags comments))
          (snd (extractIdnumberAndTags comments))).
Proof.
  intros Hn Hf (Hne & Hcr & Hlf & Hfree) Htrim Hbr.
  set (r := formatTag f FORMAT_MOODLE ++ flat_map (tokPost 0) t).
  assert (Hopen : includes r "{" = false).
  { unfold r. lits. rewrite includes_char, lacks_app, formatTag_lacks, masked_inert;
      try reflexivity; try assumption; unfold reserved; lits; cbn [app In]; tauto. }
  assert (Hclose : includes r "}" = false).
  { unfold r. lits. rewrite includes_char, lacks_app, formatTag_lacks, masked_inert;
      try reflexivity; try assumption; unfold reserved; lits; cbn [app In]; tauto. }
  unfold parseBody. rewrite (findBraces_absent r Hopen Hclose).
  cbn [bind answerSpan questionText].
  change (splitGeneralFeedback (trim [])) with ([] : str, [] : str).
  unfold r. rewrite span_read by assumption.
  cbn [text format]. 
  change (parseTextWithFormat [] f) with {| text := ""; format := f |}.
  cbn [text format].
  assert (isEmpty n = false) as -> by (now destruct n).
  reflexivity.
Qed.

Lemma map_copy_strings l : map Js.jsonCopy (map VStr l) = map VStr l.
Proof. rewrite map_map. apply map_ext. reflexivity. Qed.

Lemma writeOne_description n t f i ts :
  writeOne (descriptionQuestion n t f i ts)
  = Ok (headLine n ++ [LF]
        ++ writeIdnumberAndTags (descriptionQuestion n t f i ts)
        ++ descriptionLine n t f ++ [LF]).
Proof.
  unfold writeOne, clone, descriptionQuestion. cbn [bind Js.jsonCopy].
  rewrite map_copy_strings. unfold writeCopy. cbn [notNull bind].
  unfold writeBody, writeHead, writeIdnumberAndTags, headLine, descriptionLine.
  cbn [Js.get Js.lookup Str.equal list_ascii_of_string Ascii.eqb Bool.eqb andb
         Js.isStr Js.nullish Js.toString bind].
  rewrite <- !app_assoc. reflexivity.
Qed.

Lemma writeIdnumberAndTags_bits q idnumber tags :
  Js.isStr (Js.get q "qtype") "category" = false ->
  Js.get q "idnumber" = VStr idnumber ->
  Js.get q "tags" = VArr (map VStr tags) ->
  writeIdnumberAndTags q
  = match metaBits idnumber tags with
    | [] => []
    | bits => ("// " ++ join " " bits) ++ [LF]
    end.
Proof.
  intros Hq Hi Ht. unfold writeIdnumberAndTags, metaBits.
  rewrite Hq, Hi, Ht. cbn [Js.truthy]. rewrite map_map.
  change (map (fun x => "[tag:" ++ escapeBracket (VStr x) ++ "]") tags)
    with (map tagBit tags).
  destruct (isEmpty idnumber); cbn [negb app].
  - destruct (map tagBit tags); [reflexivity|]. cbn [noItems].
    now rewrite <- app_assoc.
  - cbn [noItems]. now rewrite <- app_assoc.
Qed.

Lemma escapeBracket_lacks allowed x t :
  metaChars allowed t ->
  (forall c, allowed c = true -> Ascii.eqb c x = false) ->
  Ascii.eqb "]" x = false -> Ascii.eqb backslash x = false ->
  lacks x (escapeBracket (VStr t)) = true.
Proof.
  intros Ht Hall Hb Hs. rewrite escapeBracket_flat.
  induction t as [|c t IH]; [reflexivity|].
  apply metaChars_cons in Ht as (Hc & _ & _ & Ht). specialize (IH Ht).
  cbn [flat_map]. rewrite lacks_app, IH, andb_true_r.
  destruct (Ascii.eqb_spec "]" c) as [<-|Hne].
  - lits. cbn [lacks forallb]. change ("\"%char) with backslash.
    now rewrite Hb, Hs.
  - destruct Hc as [Hc| ->]; [|congruence].
    cbn [lacks forallb]. now rewrite (Hall c Hc).
Qed.

Lemma idChar_not_cntrl c x : isCntrl x = true -> idChar c = true -> Ascii.eqb c x = false.
Proof.
  intros Hx Hc. unfold idChar in Hc. apply andb_prop in Hc as [_ Hc].
  apply negb_true_iff in Hc. apply Ascii.eqb_neq. intros ->. congruence.
Qed.

Lemma tagChar_not_cntrl c x : isCntrl x = true -> tagChar c = true -> Ascii.eqb c x = false.
Proof.
  intros Hx Hc. apply (idChar_not_cntrl c x Hx). unfold tagChar in Hc.
  do 3 (apply andb_prop in Hc as [Hc _]). exact Hc.
Qed.

Lemma bits_lack x idnumber tags :
  isCntrl x = true ->
  metaChars idChar idnumber -> Forall (metaChars tagChar) tags ->
  Forall (fun b => lacks x b = true) (metaBits idnumber tags).
Proof.
  intros Hx Hi Hts.
  assert (H1 : Ascii.eqb "]" x = false)
    by (apply Ascii.eqb_neq; intros <-; discriminate Hx).
  assert (H2 : Ascii.eqb backslash x = false)
    by (apply Ascii.eqb_neq; intros <-; discriminate Hx).
  assert (H3 : forall w : str,
             Forall (fun c => isCntrl c = false) w -> lacks x w = true).
  { intros w Hw. induction Hw as [|c w Hc _ IH]; [reflexivity|].
    cbn [lacks forallb]. fold (lacks x w). rewrite IH, andb_true_r.
    apply negb_true_iff, Ascii.eqb_neq. intros ->. congruence. }
  unfold metaBits. apply Forall_app. split.
  - destruct (isEmpty idnumber); constructor; [|constructor].
    unfold idBit. rewrite !lacks_app.
    rewrite (escapeBracket_lacks idChar) by
      (assumption || (intros c; apply idChar_not_cntrl, Hx)).
    rewrite !H3 by (repeat constructor). reflexivity.
  - apply Forall_map. eapply Forall_impl; [exact Hts|]. intros t Ht.
    unfold tagBit. rewrite !lacks_app.
    rewrite (escapeBracket_lacks tagChar) by
      (assumption || (intros c; apply tagChar_not_cntrl, Hx)).
    rewrite !H3 by (repeat constructor). reflexivity.
Qed.

(** *** The lines of an exported description *)

Lemma enc_lacks c x :
  isSpace x = true -> Ascii.eqb c x = false -> lacks x (enc c) = true.
Proof.
  intros Hx Hc.
  assert (Hplain : forall y, isSpace y = false -> Ascii.eqb y x = false).
  { intros y Hy. apply Ascii.eqb_neq. intros ->. congruence. }
  assert (Hbs := Hplain backslash eq_refl).
  unfold enc. destruct (Ascii.eqb c backslash) eqn:E1.
  { lits. cbn [lacks forallb]. change "\"%char with backslash. now rewrite Hbs. }
  destruct (Ascii.eqb c CR); [reflexivity|].
  destruct (resIndex c) as [j|] eqn:Ej.
  - unfold resIndex in Ej.
    repeat match type of Ej with
           | (if ?b then _ else _) = _ => destruct b
           end; try discriminate; injection Ej as <-;
      cbn [escapeOf nth map fst ESC_PRE list_ascii_of_string lacks forallb];
      change "\"%char with backslash; rewrite Hbs, ?Hplain by reflexivity;
      reflexivity.
  - cbn [lacks forallb]. now rewrite Hc.
Qed.

Lemma repchar_lacks s x :
  isSpace x = true -> lacks x s = true -> lacks x (repchar s) = true.
Proof.
  intros Hx Hs. rewrite repchar_flat.
  induction s as [|c s IH]; [reflexivity|].
  cbn [lacks forallb] in Hs. apply andb_prop in Hs as [Hc Hs].
  apply negb_true_iff in Hc.
  cbn [flat_map]. now rewrite lacks_app, enc_lacks, IH.
Qed.

Lemma enc_head c :
  isSpace c = false ->
  exists x r, enc c = x :: r /\ isSpace x = false /\ endsOk (x :: r).
Proof.
  ascii_cases c; intros H; try discriminate H;
    (eexists; eexists; split; [vm_compute; reflexivity|];
     split; [reflexivity|vm_compute; reflexivity]).
Qed.

Lemma repchar_ends t :
  t <> [] -> startsOk t -> endsOk t ->
  repchar t <> [] /\ startsOk (repchar t) /\ endsOk (repchar t).
Proof.
  intros Hne Hs He. rewrite repchar_flat.
  destruct t as [|c t]; [congruence|]. cbn [startsOk] in Hs.
  destruct (enc_head c Hs) as (x & r & Hx & Hsp & _).
  split; [|split].
  - cbn [flat_map]. now rewrite Hx.
  - cbn [flat_map]. now rewrite Hx.
  - clear Hx Hsp x r Hne Hs.
    destruct (c :: t) as [|z u _] using rev_ind; [exact I|].
    rewrite flat_map_app. cbn [flat_map]. rewrite app_nil_r.
    unfold endsOk in He. rewrite last_snoc in He.
    destruct (enc_head z He) as (x & r & Hx & _ & Hend).
    rewrite Hx. now apply endsOk_app_r.
Qed.

Lemma writeQuestionText_tag t f :
  t <> [] -> In f formats ->
  writeQuestionText (VStr t) (VStr f) VUndef
  = formatTag f FORMAT_MOODLE ++ repchar t.
Proof.
  intros Hne Hf.
  destruct (formatConstToName_format f Hf) as (Hname & _ & _ & _ & _ & Hf4).
  unfold writeQuestionText, Js.or, formatTag.
  cbn [orMoodle Js.truthy Js.strictEq repcharV Js.toString].
  assert (isEmpty t = false) as -> by (destruct t; [congruence|reflexivity]).
  assert (isEmpty f = false) as -> by (destruct f; [congruence|reflexivity]).
  cbn [negb andb repcharV Js.toString].
  destruct (Str.equal f FORMAT_MOODLE); cbn [negb]; [reflexivity|].
  now rewrite Hname.
Qed.

Lemma descriptionLine_form n t f :
  n <> [] -> t <> [] -> In f formats ->
  descriptionLine n t f
  = "::" ++ repchar n ++ "::" ++ formatTag f FORMAT_MOODLE ++ repchar t.
Proof.
  intros Hn Ht Hf. unfold descriptionLine, writeName, Js.or.
  cbn [Js.truthy repcharV Js.toString].
  assert (isEmpty n = false) as -> by (destruct n; [congruence|reflexivity]).
  cbn [negb repcharV Js.toString].
  rewrite writeQuestionText_tag by assumption.
  now rewrite <- !app_assoc.
Qed.

Lemma formatTag_space f d x :
  In f formats -> isSpace x = true -> lacks x (formatTag f d) = true.
Proof.
  intros Hf Hx. unfold formatTag. destruct (Str.equal f d); [reflexivity|].
  assert (Hplain : forall w : str,
             Forall (fun c => isSpace c = false) w -> lacks x w = true).
  { intros w Hw. induction Hw as [|c w Hc _ IH]; [reflexivity|].
    cbn [lacks forallb]. fold (lacks x w). rewrite IH, andb_true_r.
    apply negb_true_iff, Ascii.eqb_neq. intros ->. congruence. }
  apply Hplain. unfold formats in Hf. cbn [In] in Hf.
  decompose [or] Hf; try contradiction; subst f; repeat constructor.
Qed.

Lemma descriptionLine_line n t f :
  In f formats ->
  plainText n -> plainText t -> trim t = t ->
  blockLine (descriptionLine n t f)
  /\ trim (descriptionLine n t f) = descriptionLine n t f
  /\ startsWith (descriptionLine n t f) "//" = false.
Proof.
  intros Hf (Hn & Hncr & Hnlf & _) (Ht & Htcr & Htlf & _) Htrim.
  destruct (trim_ends_iff t Htrim) as [Hs He].
  destruct (repchar_ends t Ht Hs He) as (Hr1 & Hr2 & Hr3).
  rewrite descriptionLine_form by assumption.
  split; [split; [|split]|split].
  - lits. rewrite !lacks_app, !repchar_lacks, formatTag_space by (reflexivity || assumption).
    reflexivity.
  - lits. rewrite !lacks_app, !repchar_lacks, formatTag_space by (reflexivity || assumption).
    reflexivity.
  - reflexivity.
  - apply trim_id; [reflexivity|].
    rewrite !app_assoc. now apply endsOk_app_r.
  - reflexivity.
Qed.

Lemma trimEnd_startsWith (pre s : str) :
  Forall (fun c => isSpace c = false) pre ->
  trimEnd (pre ++ s) = pre ++ trimEnd s.
Proof.
  induction 1 as [|c pre Hc _ IH]; [reflexivity|].
  cbn [app]. now rewrite trimEnd_cons, IH.
Qed.

Lemma trim_comment (s : str) : trim ("//" ++ s) = "//" ++ trimEnd s.
Proof.
  unfold trim. lits. cbn [app trimStart]. change (isSpace "/") with false. cbn iota.
  apply (trimEnd_startsWith "//" s). repeat constructor.
Qed.

Lemma lacks_trimEnd x s : lacks x s = true -> lacks x (trimEnd s) = true.
Proof.
  intros H. unfold lacks in *. apply forallb_Forall_true in H.
  apply forallb_Forall_true. unfold trimEnd.
  now apply Forall_rev, Forall_trimStart, Forall_rev.
Qed.

Lemma headLine_line n :
  lacks LF n = true -> lacks CR n = true -> lacks "[" n = true ->
  blockLine (headLine n)
  /\ startsWith (trim (headLine n)) "//" = true
  /\ lacks "[" (trim (headLine n) ++ [LF]) = true.
Proof.
  intros Hlf Hcr Hbr. unfold headLine.
  split; [split; [|split]|split].
  - lits. cbn [app lacks forallb]. exact Hlf.
  - lits. cbn [app lacks forallb]. exact Hcr.
  - reflexivity.
  - change ("// question:   name: " ++ n) with ("//" ++ (" question:   name: " ++ n)).
    now rewrite trim_comment.
  - change ("// question:   name: " ++ n) with ("//" ++ (" question:   name: " ++ n)).
    rewrite trim_comment, !lacks_app, lacks_trimEnd; [reflexivity|].
    lits. cbn [app lacks forallb]. exact Hbr.
Qed.

Lemma bits_end idnumber tags :
  Forall (fun b => b <> [] /\ endsOk b) (metaBits idnumber tags).
Proof.
  unfold metaBits. apply Forall_app. split.
  - destruct (isEmpty idnumber); repeat constructor.
    + unfold idBit. discriminate.
    + unfold idBit. rewrite app_assoc. now apply endsOk_app_r.
  - apply Forall_map, Forall_forall. intros t _. split.
    + unfold tagBit. discriminate.
    + unfold tagBit. rewrite app_assoc. now apply endsOk_app_r.
Qed.

Lemma join_end (sep : str) bits :
  bits <> [] -> Forall (fun b => b <> [] /\ endsOk b) bits ->
  join sep bits <> [] /\ endsOk (join sep bits).
Proof.
  intros Hne H. induction H as [|b bits [Hb He] Hbits IH]; [congruence|].
  destruct bits as [|b' bits]; [now split|].
  change (join sep (b :: b' :: bits)) with (b ++ sep ++ join sep (b' :: bits)).
  destruct IH as [IH1 IH2]; [discriminate|].
  split.
  - destruct b; [congruence|discriminate].
  - rewrite app_assoc. now apply endsOk_app_r.
Qed.

(** The line of the identifier and the tags. *)
Lemma metaLine_line idnumber tags :
  metaChars idChar idnumber -> Forall (metaChars tagChar) tags ->
  metaBits idnumber tags <> [] ->
  let line := "// " ++ join " " (metaBits idnumber tags) in
  blockLine line /\ trim line = line.
Proof.
  intros Hi Hts Hne line. subst line.
  destruct (join_end " " _ Hne (bits_end idnumber tags)) as [Hj1 Hj2].
  split; [split; [|split]|].
  - lits. cbn [app lacks forallb].
    fold (lacks LF (join [" "%char] (metaBits idnumber tags))).
    apply lacks_join; [reflexivity|]. now apply bits_lack.
  - lits. cbn [app lacks forallb].
    fold (lacks CR (join [" "%char] (metaBits idnumber tags))).
    apply lacks_join; [reflexivity|]. now apply bits_lack.
  - reflexivity.
  - apply trim_id; [reflexivity|]. now apply endsOk_app_r.
Qed.

Lemma separateComments_block cl line acc :
  Forall (fun l => startsWith (trim l) "//" = true) cl ->
  startsWith (trim line) "//" = false ->
  fold_left
    (fun acc ln =>
       let s := trim ln in
       if startsWith s "//"
       then (fst acc ++ s ++ [LF], snd acc ++ [" " : str])
       else (fst acc, snd acc ++ [ln]))
    (cl ++ [line]) acc
  = (fst acc ++ concat (map (fun l => trim l ++ [LF]) cl),
     snd acc ++ map (fun _ => " " : str) cl ++ [line]).
Proof.
  intros Hcl Hline. revert acc.
  induction Hcl as [|l cl Hl _ IH]; intros [c w].
  - cbn [app fold_left map concat fst snd]. rewrite Hline. now rewrite app_nil_r.
  - cbn [app fold_left]. cbn zeta. rewrite Hl, IH. cbn [fst snd map concat].
    now rewrite <- !app_assoc.
Qed.

Lemma join_blanks (cl : list str) (line : str) :
  exists blank, isBlank blank = true
    /\ join [LF] (map (fun _ => " " : str) cl ++ [line]) = blank ++ line.
Proof.
  induction cl as [|l cl (blank & Hb & IH)]; [now exists []|].
  exists (" " ++ [LF] ++ blank). split; [exact Hb|].
  cbn [map app].
  destruct (map (fun _ => " " : str) cl ++ [line]) as [|x rest] eqn:E.
  - now destruct (map (fun _ => " " : str) cl).
  - change (join [LF] ((" " : str) :: x :: rest))
      with (" " ++ [LF] ++ join [LF] (x :: rest)).
    rewrite IH. now rewrite <- !app_assoc.
Qed.

Lemma tokPost_nonempty c : Ascii.eqb c CR = false -> tokPost 0 c <> [].
Proof. ascii_cases c; intros H; try discriminate H; discriminate. Qed.

Lemma masked_nonempty n :
  n <> [] -> lacks CR n = true -> flat_map (tokPost 0) n <> [].
Proof.
  intros Hn Hcr. destruct n as [|c n]; [congruence|].
  cbn [lacks forallb] in Hcr. apply andb_prop in Hcr as [Hc _].
  apply negb_true_iff in Hc. cbn [flat_map].
  pose proof (tokPost_nonempty c Hc). now destruct (tokPost 0 c).
Qed.

Lemma formatTag_starts f d : In f formats -> startsOk (formatTag f d).
Proof. intros _. unfold formatTag. now destruct (Str.equal f d). Qed.

(** *** The comment lines of an exported question *)

Lemma join_lines (cl lines : list str) :
  lines <> [] ->
  join [LF] (cl ++ lines) = concat (map (fun l => l ++ [LF]) cl) ++ join [LF] lines.
Proof.
  intros Hne. induction cl as [|l cl IH]; [reflexivity|].
  cbn [app map concat].
  destruct (cl ++ lines) as [|x rest] eqn:E.
  { destruct cl; [cbn in E; congruence|discriminate]. }
  change (join [LF] (l :: x :: rest)) with (l ++ [LF] ++ join [LF] (x :: rest)).
  rewrite IH. now rewrite <- !app_assoc.
Qed.

Lemma exported_comments n i ts q :
  lacks LF n = true -> lacks CR n = true -> lacks "[" n = true ->
  Js.isStr (Js.get q "qtype") "category" = false ->
  Js.get q "idnumber" = VStr i ->
  Js.get q "tags" = VArr (map VStr ts) ->
  metaText idChar i ->
  Forall (fun tag => metaText tagChar tag /\ tag <> []) ts ->
  exists cl,
    cl <> []
    /\ Forall blockLine cl
    /\ Forall (fun l => startsWith (trim l) "//" = true) cl
    /\ (forall lines, lines <> [] ->
          headLine n ++ [LF] ++ writeIdnumberAndTags q ++ join [LF] lines
          = join [LF] (cl ++ lines))
    /\ extractIdnumberAndTags (concat (map (fun l => trim l ++ [LF]) cl)) = (i, ts).
Proof.
  intros Hnlf Hncr Hnbr Hq Hqi Hqt Hi Hts.
  destruct (headLine_line n Hnlf Hncr Hnbr) as (Hh1 & Hh2 & Hh3).
  assert (Hts1 : Forall (metaChars tagChar) ts).
  { eapply Forall_impl; [exact Hts|]. now intros x [[_ ?] _]. }
  pose proof (writeIdnumberAndTags_bits q i ts Hq Hqi Hqt) as Hw.
  pose proof (metadata_read _ q i ts Hh3 Hq Hqi Hqt Hi Hts) as Hread.
  destruct (metaBits i ts) as [|b bits] eqn:E.
  - exists [headLine n]. split; [discriminate|].
    split; [constructor; [exact Hh1|constructor]|].
    split; [constructor; [exact Hh2|constructor]|].
    split.
    + intros lines Hne. rewrite Hw, join_lines by exact Hne.
      cbn [map concat app]. rewrite <- !app_assoc. reflexivity.
    + cbn [map concat]. rewrite app_nil_r. rewrite Hw in Hread.
      rewrite app_nil_r in Hread. exact Hread.
  - destruct (metaLine_line i ts (proj2 Hi) Hts1) as [Hl1 Hl2];
      [rewrite E; discriminate|].
    rewrite E in Hl1, Hl2.
    exists [headLine n; "// " ++ join " " (b :: bits)].
    split; [discriminate|].
    split; [constructor; [exact Hh1|constructor; [exact Hl1|constructor]]|].
    split; [constructor; [exact Hh2|constructor; [|constructor]]; rewrite Hl2; reflexivity|].
    split.
    + intros lines Hne. rewrite Hw, join_lines by exact Hne.
      cbn [map concat app]. rewrite <- !app_assoc. reflexivity.
    + cbn [map concat]. rewrite Hl2, app_nil_r. rewrite Hw in Hread. exact Hread.
Qed.

(** *** A line that starts with the name wrapper *)

Lemma tailOk_brace c rest :
  c = "{"%char \/ c = "}"%char ->
  tailOk (replaceEach ESC_PRE (replaceAll (c :: rest) "\\" "&&092;")).
Proof.
  unfold replaceEach, ESC_PRE, replaceAll. cbn [fold_left map fst snd]. lits.
  intros [-> | ->].
  - rewrite !(replaceAux_skip _ _ "{"%char) by reflexivity. repeat split.
  - rewrite !(replaceAux_skip _ _ "}"%char) by reflexivity. repeat split.
Qed.

Lemma formatTag_plain f d :
  In f formats ->
  lacks backslash (formatTag f d) = true /\ lacks "&" (formatTag f d) = true.
Proof.
  intros Hf. unfold formatTag. destruct (Str.equal f d); [now split|].
  unfold formats in Hf. cbn [In] in Hf.
  decompose [or] Hf; try contradiction; subst f; split; reflexivity.
Qed.

(** A comment block, then a line made of a name in its wrapper and a text:
    the name is read, and the text goes on masked. *)
Lemma headed_parsed cl n tail :
  Forall (fun l => startsWith (trim l) "//" = true) cl ->
  plainText n -> tail <> [] -> endsOk tail ->
  parseQuestion (cl ++ ["::" ++ repchar n ++ "::" ++ tail])
  = do q <- parseBody (concat (map (fun l => trim l ++ [LF]) cl)) n
              (trim (escapedcharPre tail));
    Ok (Some q).
Proof.
  intros Hcl (Hn1 & Hncr & Hnlf & Hnfree) Htail Hend.
  set (line := "::" ++ repchar n ++ "::" ++ tail).
  assert (Htrim : trim line = line).
  { apply trim_id; [reflexivity|]. unfold line.
    rewrite !app_assoc. apply endsOk_app_r; assumption. }
  assert (Hstart : startsWith line "//" = false) by reflexivity.
  unfold parseQuestion, separateComments.
  rewrite separateComments_block by (rewrite ?Htrim; assumption).
  cbn [fst snd app].
  destruct (join_blanks cl line) as (blank & Hb & ->).
  rewrite trim_blank_prefix, Htrim by exact Hb.
  assert (Hfull : isEmpty line = false) by reflexivity.
  rewrite Hfull. unfold line.
  rewrite masked_name by (assumption || now apply placeholderFree_backslash).
  assert (Hcat : isCategory ("::" ++ flat_map (tokPost 0) n ++ "::"
                             ++ escapedcharPre tail) = false) by reflexivity.
  rewrite Hcat.
  rewrite takeName_wrapped;
    [|apply masked_inert; unfold reserved; lits; cbn [app In]; tauto
     |apply masked_nonempty; assumption].
  rewrite unmask_tokens, tokPost_last by assumption.
  reflexivity.
Qed.

(** *** Descriptions, written and read *)

(** A comment block, then the line of a description. *)
Lemma description_parsed cl n t f :
  Forall (fun l => startsWith (trim l) "//" = true) cl ->
  In f formats -> plainText n -> plainText t -> trim t = t ->
  (f = FORMAT_MOODLE -> startsWith t "[" = false) ->
  let comments := concat (map (fun l => trim l ++ [LF]) cl) in
  parseQuestion (cl ++ [descriptionLine n t f])
  = Ok (Some (descriptionQuestion n t f (fst (extractIdnumberAndTags comments))
                (snd (extractIdnumberAndTags comments)))).
Proof.
  intros Hcl Hf Hn Ht Htrim Hbr comments.
  pose proof Hn as (Hn1 & _).
  pose proof Ht as (Ht1 & Htcr & Htlf & Htfree).
  destruct (trim_ends_iff t Htrim) as [Hs He].
  destruct (masked_ends t Ht1 Hs He) as (Hm & Hms & Hme & _).
  destruct (repchar_ends t Ht1 Hs He) as (Hr1 & _ & Hr3).
  assert (Hmask : escapedcharPre (formatTag f FORMAT_MOODLE ++ repchar t)
                  = formatTag f FORMAT_MOODLE ++ flat_map (tokPost 0) t).
  { rewrite <- (writeQuestionText_tag t f Ht1 Hf).
    change (writeQuestionText (VStr t) (VStr f) VUndef)
      with (writeQuestionText (VStr t) (VStr f) (VStr FORMAT_MOODLE)).
    apply span_masked; assumption. }
  rewrite descriptionLine_form by assumption.
  rewrite headed_parsed; try assumption.
  - fold comments. rewrite Hmask. rewrite trim_id.
    + rewrite description_body by assumption. reflexivity.
    + destruct (formatTag f FORMAT_MOODLE) eqn:E; [exact Hms|].
      rewrite <- E. pose proof (formatTag_starts f FORMAT_MOODLE Hf) as Hst.
      rewrite E in *. exact Hst.
    + apply endsOk_app_r; assumption.
  - intros E. apply app_eq_nil in E as [_ E]. congruence.
  - apply endsOk_app_r; assumption.
Qed.

(** X22.  A description, exported and parsed again, comes back as the same
    object: its name, its text and format, its identifier and its tags.  The
    name and the text are not empty and hold no line break and no
    placeholder; the name holds no opening bracket; the text has no white
    space at the ends and, in the default format, does not start with a
    bracket; the identifier and the tags are as in X10. *)
Theorem description_roundtrip (n t f i : str) (ts : list str) :
  In f formats ->
  plainText n -> lacks "[" n = true ->
  plainText t -> trim t = t ->
  (f = FORMAT_MOODLE -> startsWith t "[" = false) ->
  metaText idChar i ->
  Forall (fun tag => metaText tagChar tag /\ tag <> []) ts ->
  exists out,
    exportGift [descriptionQuestion n t f i ts] = Ok out
    /\ parseGift out = Ok [descriptionQuestion n t f i ts].
Proof.
  intros Hf Hn Hnbr Ht Htrim Hbr Hi Hts.
  pose proof Hn as (Hn1 & Hncr & Hnlf & Hnfree).
  destruct (descriptionLine_line n t f Hf Hn Ht Htrim) as (Hd1 & _).
  destruct (exported_comments n i ts (descriptionQuestion n t f i ts)
              Hnlf Hncr Hnbr eq_refl eq_refl eq_refl Hi Hts)
    as (cl & Hne & Hbl & Hcm & Hjoin & Hmeta).
  exists (join [LF] ((cl ++ [descriptionLine n t f]) ++ [[]])).
  split.
  - unfold exportGift. cbn [forEach]. rewrite writeOne_description.
    cbn [bind join]. f_equal. rewrite <- app_assoc.
    rewrite <- Hjoin by discriminate. reflexivity.
  - rewrite parseGift_block.
    + unfold flush. rewrite description_parsed by assumption.
      cbn zeta. rewrite Hmeta. reflexivity.
    + destruct cl; discriminate.
    + apply Forall_app. split; [exact Hbl|].
      constructor; [exact Hd1|constructor].
    + discriminate.
    + constructor; [reflexivity|constructor].
Qed.

Lemma description_roundtrip_witness :
  exists out,
    exportGift [descriptionQuestion "Intro: part 1" "<p>Read {this} & answer.</p>"
                  "html" "Q]7" [ "easy" : str; "unit 1" : str ]] = Ok out
    /\ parseGift out
       = Ok [descriptionQuestion "Intro: part 1" "<p>Read {this} & answer.</p>"
               "html" "Q]7" [ "easy" : str; "unit 1" : str ]].
Proof.
  apply (description_roundtrip "Intro: part 1" "<p>Read {this} & answer.</p>"
           "html" "Q]7" [ "easy" : str; "unit 1" : str ]).
  - vm_compute. tauto.
  - repeat split; (vm_compute; reflexivity) || discriminate.
  - vm_compute. reflexivity.
  - repeat split; (vm_compute; reflexivity) || discriminate.
  - vm_compute. reflexivity.
  - discriminate.
  - split; vm_compute; reflexivity.
  - repeat (constructor; [split; [split; vm_compute; reflexivity|discriminate]|]).
    constructor.
Defined.

(** *** Essays *)

Lemma writeQuestionText_in t f d :
  t <> [] -> In f formats -> d <> [] ->
  writeQuestionText (VStr t) (VStr f) (VStr d) = formatTag f d ++ repchar t.
Proof.
  intros Hne Hf Hd.
  destruct (formatConstToName_format f Hf) as (Hname & _ & _ & _ & _ & Hf4).
  unfold writeQuestionText, Js.or, formatTag.
  cbn [orMoodle Js.truthy Js.strictEq repcharV Js.toString].
  assert (isEmpty t = false) as -> by (destruct t; [congruence|reflexivity]).
  assert (isEmpty f = false) as -> by (destruct f; [congruence|reflexivity]).
  cbn [negb andb repcharV Js.toString].
  destruct (Str.equal f d); cbn [negb]; [reflexivity|].
  now rewrite Hname.
Qed.

Lemma plainText_masked t :
  plainText t -> trim t = t ->
  let m := flat_map (tokPost 0) t in
  m <> [] /\ startsOk m /\ endsOk m
  /\ repchar t <> [] /\ endsOk (repchar t)
  /\ escapedcharPost m = t.
Proof.
  intros (Hne & Hcr & Hlf & Hfree) Htrim m. subst m.
  destruct (trim_ends_iff t Htrim) as [Hs He].
  destruct (masked_ends t Hne Hs He) as (Hm & Hms & Hme & _).
  destruct (repchar_ends t Hne Hs He) as (Hr1 & _ & Hr3).
  repeat split; try assumption.
  rewrite unmask_tokens by assumption. now apply tokPost_last.
Qed.

Lemma writeGeneralFeedback_span q gf g f :
  Js.get q "generalfeedback" = VStr gf ->
  Js.get q "generalfeedbackformat" = VStr g ->
  Js.get q "questiontextformat" = VStr f ->
  In f formats -> feedbackText gf g f ->
  writeGeneralFeedback q [] = feedbackSpan gf g f.
Proof.
  intros Hgf Hg Hf Hfmt Hfb.
  assert (Hd : f <> []) by (now apply formatConstToName_format in Hfmt).
  unfold writeGeneralFeedback, feedbackSpan. rewrite Hgf, Hg, Hf.
  destruct Hfb as [[-> ->]|(Hplain & Htrim & Hin & _)].
  - reflexivity.
  - destruct (plainText_masked gf Hplain Htrim) as (_ & _ & _ & Hr & _ & _).
    destruct Hplain as (Hne & _).
    rewrite writeQuestionText_in by assumption.
    assert (isEmpty gf = false) as -> by (destruct gf; [congruence|reflexivity]).
    destruct (formatTag g f ++ repchar gf) eqn:E; [|reflexivity].
    apply app_eq_nil in E as [_ E]. congruence.
Qed.

Lemma feedback_masked gf g f :
  In f formats -> feedbackText gf g f ->
  escapedcharPre ("{" ++ feedbackSpan gf g f ++ "}")
  = "{" ++ maskedFeedback gf g f ++ "}".
Proof.
  intros Hfmt [[-> ->]|((Hne & Hcr & Hlf & Hfree) & Htrim & Hin & _)].
  - reflexivity.
  - unfold feedbackSpan, maskedFeedback.
    assert (isEmpty gf = false) as -> by (destruct gf; [congruence|reflexivity]).
    destruct (formatTag_plain g f Hin) as [Hb Ha].
    replace ("{" ++ ("####" ++ formatTag g f ++ repchar gf) ++ "}")
      with (("{####" ++ formatTag g f) ++ repchar gf ++ "}")
      by (rewrite <- !app_assoc; reflexivity).
    rewrite escapedcharPre_prefix.
    + rewrite masked_tail;
        [|assumption|now apply placeholderFree_backslash
         |apply (tailOk_brace "}" []); now right].
      change (escapedcharPre "}") with ("}" : str).
      rewrite <- !app_assoc. reflexivity.
    + rewrite lacks_app, Hb. reflexivity.
    + rewrite lacks_app, Ha. reflexivity.
Qed.

Lemma essayLine_form n t f gf g :
  n <> [] -> t <> [] -> In f formats ->
  essayLine n t f gf g
  = "::" ++ repchar n ++ "::"
    ++ (formatTag f FORMAT_MOODLE ++ repchar t ++ "{" ++ feedbackSpan gf g f ++ "}").
Proof.
  intros Hn Ht Hf. unfold essayLine.
  rewrite descriptionLine_form by assumption.
  rewrite <- !app_assoc. reflexivity.
Qed.

Lemma essay_masked t f gf g :
  In f formats -> plainText t -> feedbackText gf g f ->
  escapedcharPre (formatTag f FORMAT_MOODLE ++ repchar t
                  ++ "{" ++ feedbackSpan gf g f ++ "}")
  = formatTag f FORMAT_MOODLE ++ flat_map (tokPost 0) t
    ++ "{" ++ maskedFeedback gf g f ++ "}".
Proof.
  intros Hf (Hne & Hcr & Hlf & Hfree) Hfb.
  destruct (formatTag_plain f FORMAT_MOODLE Hf) as [Hb Ha].
  rewrite escapedcharPre_prefix by assumption. f_equal.
  rewrite masked_tail;
    [|assumption|now apply placeholderFree_backslash
     |apply (tailOk_brace "{"); now left].
  f_equal. now apply feedback_masked.
Qed.

Lemma lastIndexOfAux_first c pat s i last :
  lacks c s = true -> lastIndexOfAux (c :: pat) s i last = last.
Proof.
  revert i last. induction s as [|x s IH]; intros i last H; [reflexivity|].
  cbn [lacks forallb] in H. apply andb_prop in H as [Hx Hs].
  apply negb_true_iff in Hx.
  cbn [lastIndexOfAux startsWith]. rewrite Ascii.eqb_sym, Hx. cbn [andb].
  now apply IH.
Qed.

Lemma lastIndexOf_hashes rest :
  lacks "#" rest = true -> lastIndexOf ("####" ++ rest) "####" = 0.
Proof.
  intros H. unfold lastIndexOf. lits. cbn [app].
  assert (Hs : forall p, startsWith rest ("#"%char :: p) = false).
  { intros p. destruct rest as [|x r]; [reflexivity|].
    cbn [lacks forallb] in H. apply andb_prop in H as [Hx _].
    apply negb_true_iff in Hx. cbn [startsWith]. now rewrite Ascii.eqb_sym, Hx. }
  assert (E : lastIndexOfAux ["#"%char; "#"%char; "#"%char; "#"%char]
                ("#"%char :: "#"%char :: "#"%char :: "#"%char :: rest) 0 (-1)
              = lastIndexOfAux ["#"%char; "#"%char; "#"%char; "#"%char] rest 4
                  (if startsWith rest ["#"%char; "#"%char; "#"%char] then 3
                   else if startsWith rest ["#"%char; "#"%char] then 2
                   else if startsWith rest ["#"%char] then 1 else 0))
    by reflexivity.
  rewrite E, !Hs. now apply lastIndexOfAux_first.
Qed.

Lemma maskedFeedback_split gf g f :
  In f formats -> feedbackText gf g f ->
  splitGeneralFeedback (trim (maskedFeedback gf g f))
  = (if isEmpty gf then [] else formatTag g f ++ flat_map (tokPost 0) gf, [])
  /\ parseTextWithFormat
       (if isEmpty gf then [] else formatTag g f ++ flat_map (tokPost 0) gf) f
     = {| text := gf; format := g |}.
Proof.
  intros Hfmt [[-> ->]|(Hplain & Htrim & Hin & Hbr)].
  - split; reflexivity.
  - destruct (plainText_masked gf Hplain Htrim) as (Hm & Hms & Hme & _).
    pose proof Hplain as (Hne & Hcr & Hlf & Hfree).
    unfold maskedFeedback.
    assert (isEmpty gf = false) as -> by (destruct gf; [congruence|reflexivity]).
    split; [|now apply span_read].
    rewrite trim_id; [|reflexivity|rewrite !app_assoc; now apply endsOk_app_r].
    unfold splitGeneralFeedback.
    rewrite lastIndexOf_hashes.
    + cbn [Z.eqb negb Z.add].
      change (sliceFrom ("####" ++ formatTag g f ++ flat_map (tokPost 0) gf) 4)
        with (sliceFrom ("####" ++ formatTag g f ++ flat_map (tokPost 0) gf)
                (Z.of_nat (length ("####" : str)))).
      now rewrite sliceFrom_suffix.
    + rewrite lacks_app, formatTag_lacks, masked_inert;
        try reflexivity; try assumption; unfold reserved; lits; cbn [app In]; tauto.
Qed.

Lemma essay_body comments n t f gf g :
  n <> [] -> In f formats ->
  plainText t -> trim t = t ->
  (f = FORMAT_MOODLE -> startsWith t "[" = false) ->
  feedbackText gf g f ->
  parseBody comments n
    (formatTag f FORMAT_MOODLE ++ flat_map (tokPost 0) t
     ++ "{" ++ maskedFeedback gf g f ++ "}")
  = Ok (essayQuestion n t f gf g (fst (extractIdnumberAndTags comments))
          (snd (extractIdnumberAndTags comments))).
Proof.
  intros Hn Hf Ht Htrim Hbr Hfb.
  pose proof Ht as (Hne & Hcr & Hlf & Hfree).
  set (pre := formatTag f FORMAT_MOODLE ++ flat_map (tokPost 0) t).
  set (span := maskedFeedback gf g f).
  assert (Hpre : lacks "{" pre = true).
  { unfold pre. rewrite lacks_app, formatTag_lacks, masked_inert;
      try reflexivity; try assumption; unfold reserved; lits; cbn [app In]; tauto. }
  replace (formatTag f FORMAT_MOODLE ++ flat_map (tokPost 0) t ++ "{" ++ span ++ "}")
    with (pre ++ "{" ++ span ++ "}" ++ [])
    by (unfold pre; rewrite <- !app_assoc; reflexivity).
  destruct (findBraces_span pre span [] Hpre eq_refl) as [Hb Hspan].
  destruct (maskedFeedback_split gf g f Hf Hfb) as [Hsplit Hgf].
  unfold parseBody. rewrite Hb. cbn [bind]. rewrite Hspan.
  rewrite questionText_span by (assumption || reflexivity).
  change (isBlank []) with true. cbn iota. rewrite !app_nil_r.
  fold span. unfold span at 1. rewrite Hsplit.
  unfold pre. rewrite span_read by assumption.
  cbn [text format]. unfold str in *. rewrite Hgf. cbn [text format].
  assert (isEmpty n = false) as -> by (now destruct n).
  reflexivity.
Qed.

Lemma writeOne_essay n t f gf g i ts :
  In f formats -> feedbackText gf g f ->
  writeOne (essayQuestion n t f gf g i ts)
  = Ok (headLine n ++ [LF]
        ++ writeIdnumberAndTags (essayQuestion n t f gf g i ts)
        ++ essayLine n t f gf g ++ [LF] ++ [LF]).
Proof.
  intros Hf Hfb.
  unfold writeOne, clone, essayQuestion, twfValue. cbn [bind Js.jsonCopy text format].
  rewrite map_copy_strings. unfold writeCopy. cbn [notNull bind].
  match goal with
  | |- context [writeBody ?c] =>
      assert (Hgf : writeGeneralFeedback c [] = feedbackSpan gf g f)
        by (apply writeGeneralFeedback_span; (reflexivity || assumption));
      set (q := c) in *
  end.
  assert (Hbody : writeBody q
                  = Ok (writeHead q ++ "{" ++ writeGeneralFeedback q [] ++ "}" ++ [LF]))
    by reflexivity.
  rewrite Hbody, Hgf. cbn [bind].
  unfold essayLine, descriptionLine, headLine.
  assert (Hhead : writeHead q
                  = writeName (VStr n) ++ writeQuestionText (VStr t) (VStr f) VUndef)
    by reflexivity.
  rewrite Hhead.
  assert (Hmeta : writeIdnumberAndTags q
                  = writeIdnumberAndTags (essayQuestion n t f gf g i ts))
    by reflexivity.
  rewrite Hmeta.
  assert (Hid : Js.toString (Js.nullish (Js.get q "id") (VStr "")) = []) by reflexivity.
  assert (Hname : Js.toString (Js.nullish (Js.get q "name") (VStr "")) = n) by reflexivity.
  rewrite Hid, Hname. rewrite <- !app_assoc. reflexivity.
Qed.

Lemma feedbackSpan_lacks gf g f x :
  isSpace x = true -> In f formats -> feedbackText gf g f ->
  (gf <> [] -> lacks x gf = true) ->
  lacks x (feedbackSpan gf g f) = true.
Proof.
  intros Hx Hf [[-> ->]|(Hplain & _ & Hin & _)] Hgf; [reflexivity|].
  destruct Hplain as (Hne & _). unfold feedbackSpan.
  assert (isEmpty gf = false) as -> by (destruct gf; [congruence|reflexivity]).
  rewrite !lacks_app, formatTag_space, repchar_lacks by auto.
  rewrite andb_true_r.
  assert (Hplain : forall y, isSpace y = false -> Ascii.eqb y x = false).
  { intros y Hy. apply Ascii.eqb_neq. intros ->. congruence. }
  lits. cbn [lacks forallb]. now rewrite !Hplain by reflexivity.
Qed.

Lemma essayLine_line n t f gf g :
  In f formats -> plainText n -> plainText t -> feedbackText gf g f ->
  blockLine (essayLine n t f gf g).
Proof.
  intros Hf (Hn & Hncr & Hnlf & _) (Ht & Htcr & Htlf & _) Hfb.
  assert (Hgf : lacks LF (feedbackSpan gf g f) = true
                /\ lacks CR (feedbackSpan gf g f) = true).
  { split; apply feedbackSpan_lacks; try assumption; try reflexivity;
      intros _; destruct Hfb as [[-> _]|((_ & ? & ? & _) & _)];
      (reflexivity || assumption). }
  destruct Hgf as [Hg1 Hg2].
  rewrite essayLine_form by assumption.
  split; [|split].
  - lits. rewrite !lacks_app, !repchar_lacks, formatTag_space, Hg1
      by (reflexivity || assumption).
    reflexivity.
  - lits. rewrite !lacks_app, !repchar_lacks, formatTag_space, Hg2
      by (reflexivity || assumption).
    reflexivity.
  - reflexivity.
Qed.

(** A comment block, then the line of an essay. *)
Lemma essay_parsed cl n t f gf g :
  Forall (fun l => startsWith (trim l) "//" = true) cl ->
  In f formats -> plainText n -> plainText t -> trim t = t ->
  (f = FORMAT_MOODLE -> startsWith t "[" = false) ->
  feedbackText gf g f ->
  let comments := concat (map (fun l => trim l ++ [LF]) cl) in
  parseQuestion (cl ++ [essayLine n t f gf g])
  = Ok (Some (essayQuestion n t f gf g (fst (extractIdnumberAndTags comments))
                (snd (extractIdnumberAndTags comments)))).
Proof.
  intros Hcl Hf Hn Ht Htrim Hbr Hfb comments.
  pose proof Hn as (Hn1 & _). pose proof Ht as (Ht1 & _).
  destruct (plainText_masked t Ht Htrim) as (Hm & Hms & Hme & _).
  rewrite essayLine_form by assumption.
  rewrite headed_parsed; try assumption.
  - fold comments. rewrite essay_masked by assumption.
    rewrite trim_id.
    + rewrite essay_body by assumption. reflexivity.
    + destruct (formatTag f FORMAT_MOODLE) eqn:E;
        [cbn [app]; destruct (flat_map (tokPost 0) t); [congruence|exact Hms]|].
      rewrite <- E. pose proof (formatTag_starts f FORMAT_MOODLE Hf) as Hs.
      rewrite E in *. exact Hs.
    + rewrite !app_assoc. apply endsOk_app_r; [discriminate|reflexivity].
  - intros E. apply app_eq_nil in E as [_ E]. apply app_eq_nil in E as [_ E].
    discriminate E.
  - rewrite !app_assoc. apply endsOk_app_r; [discriminate|reflexivity].
Qed.

(** X23.  An essay, exported and parsed again, comes back as the same
    object, its general feedback and the format of the feedback included.
    The name, the text, the identifier and the tags are as in X22; the
    general feedback is empty, in the format of the question, or else has no
    white space at the ends, no line break and no placeholder, is in one of
    the four formats and, in the format of the question, does not start with
    a bracket. *)
Theorem essay_roundtrip (n t f gf g i : str) (ts : list str) :
  In f formats ->
  plainText n -> lacks "[" n = true ->
  plainText t -> trim t = t ->
  (f = FORMAT_MOODLE -> startsWith t "[" = false) ->
  feedbackText gf g f ->
  metaText idChar i ->
  Forall (fun tag => metaText tagChar tag /\ tag <> []) ts ->
  exists out,
    exportGift [essayQuestion n t f gf g i ts] = Ok out
    /\ parseGift out = Ok [essayQuestion n t f gf g i ts].
Proof.
  intros Hf Hn Hnbr Ht Htrim Hbr Hfb Hi Hts.
  pose proof Hn as (Hn1 & Hncr & Hnlf & Hnfree).
  destruct (exported_comments n i ts (essayQuestion n t f gf g i ts)
              Hnlf Hncr Hnbr eq_refl eq_refl eq_refl Hi Hts)
    as (cl & Hne & Hbl & Hcm & Hjoin & Hmeta).
  exists (join [LF] ((cl ++ [essayLine n t f gf g]) ++ [[]; []])).
  split.
  - unfold exportGift. cbn [forEach]. rewrite writeOne_essay by assumption.
    cbn [bind join]. f_equal. rewrite <- app_assoc.
    rewrite <- Hjoin by discriminate. reflexivity.
  - rewrite parseGift_block.
    + unfold flush. rewrite essay_parsed by assumption.
      cbn zeta. rewrite Hmeta. reflexivity.
    + destruct cl; discriminate.
    + apply Forall_app. split; [exact Hbl|].
      constructor; [|constructor]. apply essayLine_line; assumption.
    + discriminate.
    + constructor; [reflexivity|]. constructor; [reflexivity|constructor].
Qed.

Lemma essay_roundtrip_witness :
  exists out,
    exportGift [essayQuestion "Essay 1" "Discuss: is {x} = 1?" "markdown"
                  "See <b>chapter 2</b>" "html" "E-1" [ "long" : str ]] = Ok out
    /\ parseGift out
       = Ok [essayQuestion "Essay 1" "Discuss: is {x} = 1?" "markdown"
               "See <b>chapter 2</b>" "html" "E-1" [ "long" : str ]].
Proof.
  apply (essay_roundtrip "Essay 1" "Discuss: is {x} = 1?" "markdown"
           "See <b>chapter 2</b>" "html" "E-1" [ "long" : str ]).
  - vm_compute. tauto.
  - repeat split; (vm_compute; reflexivity) || discriminate.
  - vm_compute. reflexivity.
  - repeat split; (vm_compute; reflexivity) || discriminate.
  - vm_compute. reflexivity.
  - discriminate.
  - right. split; [repeat split; (vm_compute; reflexivity) || discriminate|].
    split; [vm_compute; reflexivity|]. split; [vm_compute; tauto|discriminate].
  - split; vm_compute; reflexivity.
  - repeat (constructor; [split; [split; vm_compute; reflexivity|discriminate]|]).
    constructor.
Defined.

(** *** True-false questions *)

Lemma tailOk_safe tail :
  startsSafe tail ->
  tailOk (replaceEach ESC_PRE (replaceAll tail "\\" "&&092;")).
Proof.
  intros (c & rest & -> & [-> | [-> | ->]]).
  - apply tailOk_brace. now left.
  - apply tailOk_brace. now right.
  - unfold replaceEach, ESC_PRE, replaceAll. cbn [fold_left map fst snd]. lits.
    rewrite !(replaceAux_skip _ _ "#"%char) by reflexivity. repeat split.
Qed.

Lemma part_cases fb fbf f :
  feedbackText fb fbf f ->
  (fb = [] /\ fbf = f
   /\ writtenPart fb fbf f = [] /\ maskedPart fb fbf f = [])
  \/ (plainText fb /\ trim fb = fb /\ In fbf formats
      /\ (fbf = f -> startsWith fb "[" = false)
      /\ writtenPart fb fbf f = formatTag fbf f ++ repchar fb
      /\ maskedPart fb fbf f = formatTag fbf f ++ flat_map (tokPost 0) fb
      /\ isEmpty (writtenPart fb fbf f) = false
      /\ isEmpty (maskedPart fb fbf f) = false).
Proof.
  intros [[-> ->]|(Hplain & Htrim & Hin & Hbr)]; [left; repeat split|right].
  destruct (plainText_masked fb Hplain Htrim) as (Hm & _ & _ & Hr & _ & _).
  pose proof Hplain as (Hne & _).
  unfold writtenPart, maskedPart.
  assert (isEmpty fb = false) as -> by (destruct fb; [congruence|reflexivity]).
  do 4 (split; [assumption|]). do 2 (split; [reflexivity|]). split.
  - destruct (formatTag fbf f ++ repchar fb) eqn:E; [|reflexivity].
    apply app_eq_nil in E as [_ E]. congruence.
  - destruct (formatTag fbf f ++ flat_map (tokPost 0) fb) eqn:E; [|reflexivity].
    apply app_eq_nil in E as [_ E]. congruence.
Qed.

Lemma feedback_cases gf g f :
  feedbackText gf g f ->
  (gf = [] /\ g = f /\ feedbackSpan gf g f = [] /\ maskedFeedback gf g f = [])
  \/ (plainText gf /\ trim gf = gf /\ In g formats
      /\ (g = f -> startsWith gf "[" = false)
      /\ feedbackSpan gf g f = "####" ++ formatTag g f ++ repchar gf
      /\ maskedFeedback gf g f = "####" ++ formatTag g f ++ flat_map (tokPost 0) gf).
Proof.
  intros [[-> ->]|(Hplain & Htrim & Hin & Hbr)]; [left; repeat split|right].
  pose proof Hplain as (Hne & _).
  unfold feedbackSpan, maskedFeedback.
  assert (isEmpty gf = false) as -> by (destruct gf; [congruence|reflexivity]).
  do 4 (split; [assumption|]). split; reflexivity.
Qed.

Lemma truefalseWord_plain correct :
  lacks backslash (truefalseWord correct) = true
  /\ lacks "&" (truefalseWord correct) = true.
Proof. destruct correct; split; reflexivity. Qed.

Ltac mask_step :=
  first
    [ rewrite escapedcharPre_prefix by (reflexivity || assumption)
    | rewrite masked_tail;
      [|assumption|apply placeholderFree_backslash; assumption
       |apply tailOk_safe; eexists; eexists; split; [reflexivity|tauto]] ].

Lemma truefalse_masked t f correct w wf r rf gf g :
  In f formats -> plainText t ->
  feedbackText w wf f -> feedbackText r rf f -> feedbackText gf g f ->
  escapedcharPre
    (formatTag f FORMAT_MOODLE ++ repchar t ++ "{"
     ++ truefalseAnswer (truefalseWord correct) (writtenPart w wf f)
          (writtenPart r rf f)
     ++ feedbackSpan gf g f ++ "}")
  = formatTag f FORMAT_MOODLE ++ flat_map (tokPost 0) t ++ "{"
    ++ truefalseAnswer (truefalseWord correct) (maskedPart w wf f)
         (maskedPart r rf f)
    ++ maskedFeedback gf g f ++ "}".
Proof.
  intros Hf (Hne & Hcr & Hlf & Hfree) Hw Hr Hg.
  destruct (formatTag_plain f FORMAT_MOODLE Hf) as [Hb Ha].
  destruct (truefalseWord_plain correct) as [Hwb Hwa].
  unfold truefalseAnswer.
  destruct (part_cases w wf f Hw)
    as [(-> & -> & -> & ->)
       |((Hw1 & Hw2 & Hw3 & Hw4) & _ & [Hw5 Hw6]%(formatTag_plain _ f) & _
         & -> & -> & Hw7 & Hw8)];
    destruct (part_cases r rf f Hr)
      as [(-> & -> & -> & ->)
         |((Hr1 & Hr2 & Hr3 & Hr4) & _ & [Hr5 Hr6]%(formatTag_plain _ f) & _
           & Hrw & Hrm & Hr7 & Hr8)];
    destruct (feedback_cases gf g f Hg)
      as [(-> & -> & -> & ->)
         |((Hg1 & Hg2 & Hg3 & Hg4) & _ & [Hg5 Hg6]%(formatTag_plain _ f) & _
           & -> & ->)];
    rewrite ?Hw7, ?Hw8, ?Hr7, ?Hr8, ?Hrw, ?Hrm;
    rewrite ?Hw7, ?Hw8, ?Hr7, ?Hr8;
    cbn [isEmpty negb app];
    rewrite <- ?app_assoc;
    repeat mask_step; reflexivity.
Qed.

(** *** The answer of a true-false question, read *)

Lemma lastIndexOfAux_skip c pat a s i last :
  lacks c a = true ->
  lastIndexOfAux (c :: pat) (a ++ s) i last
  = lastIndexOfAux (c :: pat) s (i + Z.of_nat (length a)) last.
Proof.
  revert i last. induction a as [|x a IH]; intros i last H.
  - cbn [app length]. f_equal. lia.
  - cbn [lacks forallb] in H. apply andb_prop in H as [Hx Ha].
    apply negb_true_iff in Hx.
    cbn [app lastIndexOfAux startsWith]. rewrite Ascii.eqb_sym, Hx. cbn [andb].
    rewrite IH by exact Ha. f_equal. cbn [length]. lia.
Qed.

Lemma lastIndexOfAux_prefix pat a s i last :
  exists last', lastIndexOfAux pat (a ++ s) i last
                = lastIndexOfAux pat s (i + Z.of_nat (length a)) last'.
Proof.
  revert i last. induction a as [|x a IH]; intros i last.
  - exists last. cbn [app length]. f_equal. lia.
  - cbn [app lastIndexOfAux].
    destruct (IH (i + 1) (if startsWith (x :: a ++ s) pat then i else last))
      as [last' ->].
    exists last'. f_equal. cbn [length]. lia.
Qed.

Lemma lastIndexOfAux_hashes rest i last :
  lacks "#" rest = true ->
  lastIndexOfAux "####" ("####" ++ rest) i last = i.
Proof.
  intros H. lits. cbn [app].
  assert (Hs : forall p, startsWith rest ("#"%char :: p) = false).
  { intros p. destruct rest as [|x r]; [reflexivity|].
    cbn [lacks forallb] in H. apply andb_prop in H as [Hx _].
    apply negb_true_iff in Hx. cbn [startsWith]. now rewrite Ascii.eqb_sym, Hx. }
  assert (E : lastIndexOfAux ["#"%char; "#"%char; "#"%char; "#"%char]
                ("#"%char :: "#"%char :: "#"%char :: "#"%char :: rest) i last
              = lastIndexOfAux ["#"%char; "#"%char; "#"%char; "#"%char] rest
                  (i + 1 + 1 + 1 + 1)
                  (if startsWith rest ["#"%char; "#"%char; "#"%char] then i + 1 + 1 + 1
                   else if startsWith rest ["#"%char; "#"%char] then i + 1 + 1
                   else if startsWith rest ["#"%char] then i + 1 else i))
    by reflexivity.
  rewrite E, !Hs. now apply lastIndexOfAux_first.
Qed.

(** The general feedback is found after any answer. *)
Lemma lastIndexOf_feedback a rest :
  lacks "#" rest = true ->
  lastIndexOf (a ++ "####" ++ rest) "####" = Z.of_nat (length a).
Proof.
  intros H. unfold lastIndexOf.
  destruct (lastIndexOfAux_prefix "####" a ("####" ++ rest) 0 (-1)) as [last' ->].
  now rewrite lastIndexOfAux_hashes.
Qed.

Lemma upTo_app c a b : lacks c a = true -> upTo c (a ++ c :: b) = a.
Proof.
  induction a as [|x a IH]; intros H.
  - cbn. now rewrite Ascii.eqb_refl.
  - cbn [lacks forallb] in H. apply andb_prop in H as [Hx Ha].
    apply negb_true_iff in Hx. cbn [app upTo].
    rewrite Ascii.eqb_sym, Hx. now rewrite IH.
Qed.

Lemma hash_step s i last :
  startsWith s ["#"%char; "#"%char; "#"%char] = false ->
  lastIndexOfAux ["#"%char; "#"%char; "#"%char; "#"%char] ("#"%char :: s) i last
  = lastIndexOfAux ["#"%char; "#"%char; "#"%char; "#"%char] s (i + 1) last.
Proof.
  intros H. cbn [lastIndexOfAux].
  assert (E : startsWith ("#"%char :: s) ["#"%char; "#"%char; "#"%char; "#"%char]
              = startsWith s ["#"%char; "#"%char; "#"%char]) by reflexivity.
  now rewrite E, H.
Qed.

Section Answer.

Variables word wrong right : str.

Hypothesis word_known : word = "TRUE" \/ word = "FALSE".
Hypothesis wrong_field : answerField wrong.
Hypothesis right_field : answerField right.

Lemma field_head x : answerField x -> x <> [] ->
  exists c r, x = c :: r /\ Ascii.eqb "#" c = false.
Proof.
  intros (H & _) Hne. destruct x as [|c r]; [congruence|].
  exists c, r. split; [reflexivity|].
  cbn [lacks forallb] in H. apply andb_prop in H as [Hc _].
  apply negb_true_iff in Hc. now rewrite Ascii.eqb_sym.
Qed.

Lemma answer_lacks x :
  x = "~"%char \/ x = "="%char ->
  lacks x (truefalseAnswer word wrong right) = true.
Proof.
  destruct wrong_field as (_ & Hw1 & Hw2 & _).
  destruct right_field as (_ & Hr1 & Hr2 & _).
  intros Hx. unfold truefalseAnswer.
  assert (lacks x word = true) as Hword
      by (destruct word_known as [-> | ->]; destruct Hx as [-> | ->]; reflexivity).
  assert (lacks x wrong = true) as Hwrong by (destruct Hx as [-> | ->]; assumption).
  assert (lacks x right = true) as Hright by (destruct Hx as [-> | ->]; assumption).
  assert (lacks x "#" = true) as Hhash by (destruct Hx as [-> | ->]; reflexivity).
  destruct (isEmpty wrong), (isEmpty right); cbn [negb];
    rewrite ?lacks_app, ?Hword, ?Hwrong, ?Hright, ?Hhash; reflexivity.
Qed.

Lemma answer_word : upTo "#" (truefalseAnswer word wrong right) = word.
Proof.
  assert (Hword : lacks "#" word = true)
    by (destruct word_known as [-> | ->]; reflexivity).
  unfold truefalseAnswer.
  destruct (isEmpty wrong), (isEmpty right); cbn [negb]; lits; cbn [app];
    rewrite ?app_nil_r; (now apply upTo_app) || (now apply upTo_lacks).
Qed.

Lemma answer_start : startsWith (truefalseAnswer word wrong right) "#" = false
  /\ isEmpty (truefalseAnswer word wrong right) = false
  /\ startsOk (truefalseAnswer word wrong right).
Proof. destruct word_known as [-> | ->]; repeat split. Qed.

Lemma answer_end : endsOk (truefalseAnswer word wrong right).
Proof.
  destruct wrong_field as (_ & _ & _ & _ & Hw).
  destruct right_field as (_ & _ & _ & _ & Hr).
  assert (Hword : endsOk word) by (destruct word_known as [-> | ->]; reflexivity).
  unfold truefalseAnswer.
  destruct wrong as [|c w]; destruct right as [|d r]; cbn [isEmpty negb].
  - now rewrite !app_nil_r.
  - rewrite !app_assoc. now apply endsOk_app_r.
  - rewrite app_nil_r, !app_assoc. now apply endsOk_app_r.
  - rewrite !app_assoc. now apply endsOk_app_r.
Qed.

Lemma answer_nohash :
  lastIndexOf (truefalseAnswer word wrong right) "####" = -1.
Proof.
  assert (Hword : lacks "#" word = true)
    by (destruct word_known as [-> | ->]; reflexivity).
  pose proof wrong_field as (Hw & _). pose proof right_field as (Hr & _).
  unfold truefalseAnswer, lastIndexOf. lits.
  rewrite lastIndexOfAux_skip by exact Hword.
  destruct wrong as [|c w]; destruct right as [|d r]; cbn [isEmpty negb app].
  - reflexivity.
  - destruct (field_head (d :: r) right_field) as (d' & r' & [= <- <-] & Hd);
      [discriminate|].
    rewrite !hash_step by (cbn [startsWith]; rewrite Hd; reflexivity).
    now apply lastIndexOfAux_first.
  - destruct (field_head (c :: w) wrong_field) as (c' & w' & [= <- <-] & Hc);
      [discriminate|].
    rewrite app_nil_r.
    rewrite hash_step by (cbn [startsWith]; rewrite Hc; reflexivity).
    now apply lastIndexOfAux_first.
  - destruct (field_head (c :: w) wrong_field) as (c' & w' & [= <- <-] & Hc);
      [discriminate|].
    destruct (field_head (d :: r) right_field) as (d' & r' & [= <- <-] & Hd);
      [discriminate|].
    rewrite hash_step by (cbn [startsWith]; rewrite Hc; reflexivity).
    change (c :: w ++ "#"%char :: d :: r) with ((c :: w) ++ "#"%char :: d :: r).
    rewrite lastIndexOfAux_skip by exact Hw.
    rewrite hash_step by (cbn [startsWith]; rewrite Hd; reflexivity).
    now apply lastIndexOfAux_first.
Qed.

Lemma answer_split f :
  splitTrueFalseComment (truefalseAnswer word wrong right) f
  = (parseTextWithFormat word f, parseTextWithFormat wrong f,
     parseTextWithFormat right f).
Proof.
  assert (Hword : lacks "#" word = true /\ trim word = word)
    by (destruct word_known as [-> | ->]; split; reflexivity).
  destruct Hword as [Hword Htrim].
  pose proof wrong_field as (Hw & _ & _ & Hw1 & Hw2).
  pose proof right_field as (Hr & _ & _ & Hr1 & Hr2).
  pose proof (trim_id wrong Hw1 Hw2) as Hwt.
  pose proof (trim_id right Hr1 Hr2) as Hrt.
  unfold truefalseAnswer, splitTrueFalseComment, splitLimit. lits.
  destruct wrong as [|c w]; destruct right as [|d r]; cbn [isEmpty negb app].
  - rewrite app_nil_r, (split_none _ word Hword).
    cbn [take nth length Nat.ltb Nat.leb]. now rewrite Htrim.
  - rewrite (split_char _ word) by exact Hword.
    pose proof (split_char "#"%char [] (d :: r) eq_refl) as Hh.
    cbn [app] in Hh. rewrite Hh.
    rewrite (split_none _ (d :: r)) by exact Hr.
    cbn [take nth length Nat.ltb Nat.leb]. now rewrite Htrim, Hrt.
  - rewrite app_nil_r, (split_char _ word) by exact Hword.
    rewrite (split_none _ (c :: w)) by exact Hw.
    cbn [take nth length Nat.ltb Nat.leb]. now rewrite Htrim, Hwt.
  - rewrite (split_char _ word) by exact Hword.
    change (c :: w ++ "#"%char :: d :: r) with ((c :: w) ++ "#"%char :: d :: r).
    rewrite (split_char _ (c :: w)) by exact Hw.
    rewrite (split_none _ (d :: r)) by exact Hr.
    cbn [take nth length Nat.ltb Nat.leb]. now rewrite Htrim, Hwt, Hrt.
Qed.

End Answer.

Lemma maskedPart_field fb fbf f :
  In f formats -> feedbackText fb fbf f ->
  answerField (maskedPart fb fbf f)
  /\ parseTextWithFormat (maskedPart fb fbf f) f = {| text := fb; format := fbf |}.
Proof.
  intros Hf Hfb.
  destruct (part_cases fb fbf f Hfb)
    as [(-> & -> & _ & ->)|(Hplain & Htrim & Hin & Hbr & _ & -> & _ & _)].
  - repeat split.
  - destruct (plainText_masked fb Hplain Htrim) as (Hm & Hms & Hme & _).
    pose proof Hplain as (Hne & Hcr & Hlf & Hfree).
    assert (Hl : forall x, In x reserved ->
                 lacks x (formatTag fbf f ++ flat_map (tokPost 0) fb) = true).
    { intros x Hx. now rewrite lacks_app, formatTag_lacks, masked_inert. }
    split; [|now apply span_read].
    split; [apply Hl; unfold reserved; lits; cbn [app In]; tauto|].
    split; [apply Hl; unfold reserved; lits; cbn [app In]; tauto|].
    split; [apply Hl; unfold reserved; lits; cbn [app In]; tauto|].
    split.
    + destruct (formatTag fbf f) eqn:E; [exact Hms|].
      rewrite <- E. pose proof (formatTag_starts fbf f Hin) as Hs.
      rewrite E in *. exact Hs.
    + now apply endsOk_app_r.
Qed.

Lemma startsOk_app a b : a <> [] -> startsOk a -> startsOk (a ++ b).
Proof. destruct a; [congruence|]. now intros _ H. Qed.

Lemma answer_qtype (word wrong right : str) :
  word = "TRUE" \/ word = "FALSE" ->
  answerField wrong -> answerField right ->
  determineQtype (truefalseAnswer word wrong right) = "truefalse".
Proof.
  intros Hword Hw Hr.
  pose proof (answer_word word wrong right Hword) as Hup.
  destruct (answer_start word wrong right Hword) as (Hs & _ & _).
  pose proof (answer_lacks word wrong right Hword Hw Hr "~" (or_introl eq_refl)) as H1.
  pose proof (answer_lacks word wrong right Hword Hw Hr "=" (or_intror eq_refl)) as H2.
  set (a := truefalseAnswer word wrong right) in *.
  unfold determineQtype. rewrite Hs. lits.
  rewrite !includes_char, H1, H2. cbn [negb andb].
  rewrite split_first, Hup.
  assert (Ha : lacks "#" a = true -> a = word).
  { intros H. rewrite <- Hup. symmetry. now apply upTo_lacks. }
  destruct (lacks "#" a); cbn [negb]; [rewrite Ha by reflexivity|];
    destruct Hword as [-> | ->]; reflexivity.
Qed.

Lemma answer_feedback (word wrong right gf g f : str) :
  word = "TRUE" \/ word = "FALSE" ->
  answerField wrong -> answerField right ->
  In f formats -> feedbackText gf g f ->
  let a := truefalseAnswer word wrong right in
  trim (a ++ maskedFeedback gf g f) = a ++ maskedFeedback gf g f
  /\ splitGeneralFeedback (a ++ maskedFeedback gf g f)
     = (if isEmpty gf then [] else formatTag g f ++ flat_map (tokPost 0) gf, a).
Proof.
  intros Hword Hw Hr Hf Hfb a.
  destruct (answer_start word wrong right Hword) as (_ & Hne & Hs).
  pose proof (answer_end word wrong right Hword Hw Hr) as He.
  pose proof (answer_nohash word wrong right Hword Hw Hr) as Hno.
  fold a in Hne, Hs, He, Hno.
  assert (Ha : a <> []) by (destruct a; [discriminate|congruence]).
  destruct (feedback_cases gf g f Hfb)
    as [(-> & -> & _ & ->)|(Hplain & Htrim & Hin & Hbr & _ & ->)].
  - rewrite app_nil_r. split; [now apply trim_id|].
    unfold splitGeneralFeedback. rewrite Hno. reflexivity.
  - destruct (plainText_masked gf Hplain Htrim) as (Hm & Hms & Hme & _).
    pose proof Hplain as (Hgne & _).
    assert (isEmpty gf = false) as -> by (destruct gf; [congruence|reflexivity]).
    assert (Hl : lacks "#" (formatTag g f ++ flat_map (tokPost 0) gf) = true).
    { rewrite lacks_app, formatTag_lacks, masked_inert;
        try reflexivity; try assumption; unfold reserved; lits; cbn [app In]; tauto. }
    split.
    + apply trim_id; [now apply startsOk_app|].
      rewrite !app_assoc. now apply endsOk_app_r.
    + unfold splitGeneralFeedback.
      rewrite lastIndexOf_feedback by exact Hl.
      replace (Z.of_nat (length a) =? -1) with false
        by (symmetry; apply Z.eqb_neq; lia).
      cbn [negb]. rewrite slice_prefix.
      rewrite (trim_id a) by assumption. f_equal.
      pose proof (sliceFrom_suffix (a ++ "####")
                    (formatTag g f ++ flat_map (tokPost 0) gf)) as H.
      rewrite <- !app_assoc in H. rewrite <- H at 2. f_equal.
      rewrite length_app. lits. cbn [length]. lia.
Qed.

Lemma truefalseWord_known correct :
  truefalseWord correct = "TRUE" \/ truefalseWord correct = "FALSE".
Proof. destruct correct; [now left|now right]. Qed.

Lemma truefalse_body comments n t f correct w wf r rf gf g :
  n <> [] -> In f formats ->
  plainText t -> trim t = t ->
  (f = FORMAT_MOODLE -> startsWith t "[" = false) ->
  feedbackText w wf f -> feedbackText r rf f -> feedbackText gf g f ->
  parseBody comments n
    (formatTag f FORMAT_MOODLE ++ flat_map (tokPost 0) t ++ "{"
     ++ truefalseAnswer (truefalseWord correct) (maskedPart w wf f)
          (maskedPart r rf f)
     ++ maskedFeedback gf g f ++ "}")
  = Ok (truefalseQuestion n t f correct
          (if correct then r else w) (if correct then rf else wf)
          (if correct then w else r) (if correct then wf else rf)
          gf g (fst (extractIdnumberAndTags comments))
          (snd (extractIdnumberAndTags comments))).
Proof.
  intros Hn Hf Ht Htrim Hbr Hw Hr Hg.
  pose proof Ht as (Hne & Hcr & Hlf & Hfree).
  destruct (maskedPart_field w wf f Hf Hw) as [Hwf Hwp].
  destruct (maskedPart_field r rf f Hf Hr) as [Hrf Hrp].
  pose proof (truefalseWord_known correct) as Hword.
  destruct (answer_feedback _ _ _ gf g f Hword Hwf Hrf Hf Hg) as [Hat Hsplit].
  pose proof (answer_qtype _ _ _ Hword Hwf Hrf) as Hq.
  pose proof (answer_split _ _ _ Hword Hwf Hrf f) as Hs.
  destruct (answer_start _ (maskedPart w wf f) (maskedPart r rf f) Hword)
    as (_ & Hane & _).
  destruct (maskedFeedback_split gf g f Hf Hg) as [_ Hgf].
  set (a := truefalseAnswer (truefalseWord correct) (maskedPart w wf f)
              (maskedPart r rf f)) in *.
  set (pre := formatTag f FORMAT_MOODLE ++ flat_map (tokPost 0) t).
  set (span := a ++ maskedFeedback gf g f) in *.
  assert (Hpre : lacks "{" pre = true).
  { unfold pre. rewrite lacks_app, formatTag_lacks, masked_inert;
      try reflexivity; try assumption; unfold reserved; lits; cbn [app In]; tauto. }
  replace (formatTag f FORMAT_MOODLE ++ flat_map (tokPost 0) t ++ "{"
           ++ a ++ maskedFeedback gf g f ++ "}")
    with (pre ++ "{" ++ span ++ "}" ++ [])
    by (unfold pre, span; rewrite <- !app_assoc; reflexivity).
  destruct (findBraces_span pre span [] Hpre eq_refl) as [Hb Hspan].
  unfold parseBody. rewrite Hb. cbn [bind]. rewrite Hspan.
  rewrite questionText_span by (assumption || reflexivity).
  change (isBlank []) with true. cbn iota. rewrite !app_nil_r.
  rewrite Hat, Hsplit.
  unfold pre. rewrite span_read by assumption.
  cbn [text format]. unfold str in *. rewrite Hgf. cbn [text format].
  assert (isEmpty n = false) as -> by (now destruct n).
  rewrite Hane, Hq.
  unfold parseAnswers.
  change (Str.equal "truefalse" "multichoice") with false.
  change (Str.equal "truefalse" "match") with false.
  change (Str.equal "truefalse" "truefalse") with true.
  cbn iota. unfold parseTruefalse. rewrite Hs, Hwp, Hrp.
  destruct correct; reflexivity.
Qed.

(** *** True-false questions, written *)

Lemma feedbackText_format fb fbf f :
  In f formats -> feedbackText fb fbf f -> isEmpty fbf = false.
Proof.
  intros Hf [[_ ->]|(_ & _ & Hin & _)].
  - apply formatConstToName_format in Hf as (_ & _ & _ & _ & _ & Hne).
    destruct f; [congruence|reflexivity].
  - apply formatConstToName_format in Hin as (_ & _ & _ & _ & _ & Hne).
    destruct fbf; [congruence|reflexivity].
Qed.

Lemma writeIn_part q fb fbf f :
  Js.get q "questiontextformat" = VStr f ->
  In f formats -> feedbackText fb fbf f ->
  writeIn q (Js.or (Js.getOpt (twfValue {| text := fb; format := fbf |}) "text")
               (VStr ""))
    (Js.getOpt (twfValue {| text := fb; format := fbf |}) "format")
  = writtenPart fb fbf f.
Proof.
  intros Hq Hf Hfb.
  pose proof (feedbackText_format fb fbf f Hf Hfb) as Hfmt.
  assert (Hd : f <> []) by (now apply formatConstToName_format in Hf).
  change (Js.getOpt (twfValue {| text := fb; format := fbf |}) "text") with (VStr fb).
  change (Js.getOpt (twfValue {| text := fb; format := fbf |}) "format") with (VStr fbf).
  unfold writeIn. cbn [Js.truthy]. rewrite Hfmt, Hq. cbn [negb].
  destruct (part_cases fb fbf f Hfb)
    as [(-> & -> & -> & _)|((Hne & _) & _ & Hin & _ & -> & _)].
  - reflexivity.
  - unfold Js.or. cbn [Js.truthy].
    assert (isEmpty fb = false) as -> by (destruct fb; [congruence|reflexivity]).
    cbn [negb]. now apply writeQuestionText_in.
Qed.

Lemma writeOne_truefalse n t f correct ft ftf ff fff gf g i ts :
  In f formats ->
  feedbackText ft ftf f -> feedbackText ff fff f -> feedbackText gf g f ->
  writeOne (truefalseQuestion n t f correct ft ftf ff fff gf g i ts)
  = Ok (headLine n ++ [LF]
        ++ writeIdnumberAndTags (truefalseQuestion n t f correct ft ftf ff fff gf g i ts)
        ++ truefalseLine n t f correct
             (if correct then ff else ft) (if correct then fff else ftf)
             (if correct then ft else ff) (if correct then ftf else fff) gf g
        ++ [LF] ++ [LF]).
Proof.
  intros Hf Hft Hff Hg.
  unfold writeOne, clone, truefalseQuestion. cbn [bind Js.jsonCopy].
  rewrite map_copy_strings. unfold writeCopy. cbn [notNull bind].
  match goal with
  | |- context [writeBody ?c] =>
      assert (Hgf : writeGeneralFeedback c [] = feedbackSpan gf g f)
        by (apply writeGeneralFeedback_span; (reflexivity || assumption));
      assert (Ht : forall fb fbf, feedbackText fb fbf f ->
                writeIn c (Js.or (Js.getOpt (twfValue {| text := fb; format := fbf |})
                                    "text") (VStr ""))
                  (Js.getOpt (twfValue {| text := fb; format := fbf |}) "format")
                = writtenPart fb fbf f)
        by (intros fb fbf Hfb; apply writeIn_part; (reflexivity || assumption));
      set (q := c) in *
  end.
  assert (Hbody : writeBody q = Ok (writeTruefalse q)) by reflexivity.
  rewrite Hbody. cbn [bind]. unfold writeTruefalse.
  assert (Htrue : Js.truthy (Js.get q "correctanswer") = correct)
    by (destruct correct; reflexivity).
  rewrite Htrue.
  assert (H1 : Js.get q "feedbacktrue" = twfValue {| text := ft; format := ftf |})
    by reflexivity.
  assert (H2 : Js.get q "feedbackfalse" = twfValue {| text := ff; format := fff |})
    by reflexivity.
  rewrite H1, H2, Hgf.
  assert (Hhead : writeHead q
                  = writeName (VStr n) ++ writeQuestionText (VStr t) (VStr f) VUndef)
    by reflexivity.
  assert (Hmeta : writeIdnumberAndTags q
                  = writeIdnumberAndTags
                      (truefalseQuestion n t f correct ft ftf ff fff gf g i ts))
    by reflexivity.
  assert (Hid : Js.toString (Js.nullish (Js.get q "id") (VStr "")) = []) by reflexivity.
  assert (Hname : Js.toString (Js.nullish (Js.get q "name") (VStr "")) = n) by reflexivity.
  rewrite Hhead, Hmeta, Hid, Hname.
  unfold truefalseLine, truefalseAnswer, truefalseWord, descriptionLine, headLine.
  destruct correct; rewrite !Ht by assumption; rewrite <- !app_assoc; reflexivity.
Qed.

Lemma truefalseLine_form n t f correct w wf r rf gf g :
  n <> [] -> t <> [] -> In f formats ->
  truefalseLine n t f correct w wf r rf gf g
  = "::" ++ repchar n ++ "::"
    ++ (formatTag f FORMAT_MOODLE ++ repchar t ++ "{"
        ++ truefalseAnswer (truefalseWord correct) (writtenPart w wf f)
             (writtenPart r rf f)
        ++ feedbackSpan gf g f ++ "}").
Proof.
  intros Hn Ht Hf. unfold truefalseLine.
  rewrite descriptionLine_form by assumption.
  rewrite <- !app_assoc. reflexivity.
Qed.

Lemma feedbackText_lacks fb fbf f x :
  x = LF \/ x = CR -> feedbackText fb fbf f -> lacks x fb = true.
Proof.
  intros Hx [[-> _]|((_ & Hcr & Hlf & _) & _)]; [reflexivity|].
  now destruct Hx as [-> | ->].
Qed.

Lemma writtenPart_lacks fb fbf f x :
  x = LF \/ x = CR -> In f formats -> feedbackText fb fbf f ->
  lacks x (writtenPart fb fbf f) = true.
Proof.
  intros Hx Hf Hfb.
  pose proof (feedbackText_lacks fb fbf f x Hx Hfb) as Hl.
  assert (Hs : isSpace x = true) by (destruct Hx as [-> | ->]; reflexivity).
  destruct (part_cases fb fbf f Hfb)
    as [(_ & _ & -> & _)|(_ & _ & Hin & _ & -> & _)]; [reflexivity|].
  now rewrite lacks_app, formatTag_space, repchar_lacks.
Qed.

Lemma truefalseLine_line n t f correct w wf r rf gf g :
  In f formats -> plainText n -> plainText t ->
  feedbackText w wf f -> feedbackText r rf f -> feedbackText gf g f ->
  blockLine (truefalseLine n t f correct w wf r rf gf g).
Proof.
  intros Hf (Hn & Hncr & Hnlf & _) (Ht & Htcr & Htlf & _) Hw Hr Hg.
  assert (Hall : forall x, x = LF \/ x = CR ->
             lacks x (truefalseLine n t f correct w wf r rf gf g) = true).
  { intros x Hx.
    assert (Hs : isSpace x = true) by (destruct Hx as [-> | ->]; reflexivity).
    assert (Hxn : lacks x n = true) by (now destruct Hx as [-> | ->]).
    assert (Hxt : lacks x t = true) by (now destruct Hx as [-> | ->]).
    assert (Hword : lacks x (truefalseWord correct) = true)
      by (destruct correct; destruct Hx as [-> | ->]; reflexivity).
    assert (Hhash : lacks x "#" = true) by (destruct Hx as [-> | ->]; reflexivity).
    assert (Hopen : lacks x "{" = true) by (destruct Hx as [-> | ->]; reflexivity).
    assert (Hclose : lacks x "}" = true) by (destruct Hx as [-> | ->]; reflexivity).
    assert (Hcolon : lacks x "::" = true) by (destruct Hx as [-> | ->]; reflexivity).
    pose proof (writtenPart_lacks w wf f x Hx Hf Hw) as Hxw.
    pose proof (writtenPart_lacks r rf f x Hx Hf Hr) as Hxr.
    assert (Hxg : lacks x (feedbackSpan gf g f) = true).
    { apply feedbackSpan_lacks; try assumption.
      intros _. now apply (feedbackText_lacks gf g f). }
    rewrite truefalseLine_form by assumption. unfold truefalseAnswer.
    destruct (isEmpty (writtenPart w wf f)), (isEmpty (writtenPart r rf f));
      cbn [negb];
      rewrite ?lacks_app, ?repchar_lacks, ?formatTag_space, ?Hword, ?Hhash,
        ?Hopen, ?Hclose, ?Hcolon, ?Hxw, ?Hxr, ?Hxg by assumption;
      reflexivity. }
  split; [apply Hall; now left|]. split; [apply Hall; now right|].
  rewrite truefalseLine_form by assumption. reflexivity.
Qed.

(** A comment block, then the line of a true-false question. *)
Lemma truefalse_parsed cl n t f correct w wf r rf gf g :
  Forall (fun l => startsWith (trim l) "//" = true) cl ->
  In f formats -> plainText n -> plainText t -> trim t = t ->
  (f = FORMAT_MOODLE -> startsWith t "[" = false) ->
  feedbackText w wf f -> feedbackText r rf f -> feedbackText gf g f ->
  let comments := concat (map (fun l => trim l ++ [LF]) cl) in
  parseQuestion (cl ++ [truefalseLine n t f correct w wf r rf gf g])
  = Ok (Some (truefalseQuestion n t f correct
                (if correct then r else w) (if correct then rf else wf)
                (if correct then w else r) (if correct then wf else rf)
                gf g (fst (extractIdnumberAndTags comments))
                (snd (extractIdnumberAndTags comments)))).
Proof.
  intros Hcl Hf Hn Ht Htrim Hbr Hw Hr Hg comments.
  pose proof Hn as (Hn1 & _). pose proof Ht as (Ht1 & _).
  destruct (plainText_masked t Ht Htrim) as (Hm & Hms & Hme & _).
  rewrite truefalseLine_form by assumption.
  rewrite headed_parsed; try assumption.
  - fold comments. rewrite truefalse_masked by assumption.
    rewrite trim_id.
    + rewrite truefalse_body by assumption. reflexivity.
    + destruct (formatTag f FORMAT_MOODLE) eqn:E;
        [cbn [app]; destruct (flat_map (tokPost 0) t); [congruence|exact Hms]|].
      rewrite <- E. pose proof (formatTag_starts f FORMAT_MOODLE Hf) as Hs.
      rewrite E in *. exact Hs.
    + rewrite !app_assoc. apply endsOk_app_r; [discriminate|reflexivity].
  - intros E. apply app_eq_nil in E as [_ E]. apply app_eq_nil in E as [_ E].
    discriminate E.
  - rewrite !app_assoc. apply endsOk_app_r; [discriminate|reflexivity].
Qed.

(** X24.  A true-false question, exported and parsed again, comes back as
    the same object: the correct answer, the feedback for each of the two
    answers with its format, and the general feedback.  The name, the text,
    the identifier and the tags are as in X22; each of the three feedbacks is
    as the general feedback in X23. *)
Theorem truefalse_roundtrip (n t f : str) (correct : bool)
  (ft ftf ff fff gf g i : str) (ts : list str) :
  In f formats ->
  plainText n -> lacks "[" n = true ->
  plainText t -> trim t = t ->
  (f = FORMAT_MOODLE -> startsWith t "[" = false) ->
  feedbackText ft ftf f -> feedbackText ff fff f -> feedbackText gf g f ->
  metaText idChar i ->
  Forall (fun tag => metaText tagChar tag /\ tag <> []) ts ->
  exists out,
    exportGift [truefalseQuestion n t f correct ft ftf ff fff gf g i ts] = Ok out
    /\ parseGift out
       = Ok [truefalseQuestion n t f correct ft ftf ff fff gf g i ts].
Proof.
  intros Hf Hn Hnbr Ht Htrim Hbr Hft Hff Hg Hi Hts.
  pose proof Hn as (Hn1 & Hncr & Hnlf & Hnfree).
  set (q := truefalseQuestion n t f correct ft ftf ff fff gf g i ts).
  destruct (exported_comments n i ts q Hnlf Hncr Hnbr eq_refl eq_refl eq_refl Hi Hts)
    as (cl & Hne & Hbl & Hcm & Hjoin & Hmeta).
  set (line := truefalseLine n t f correct
                 (if correct then ff else ft) (if correct then fff else ftf)
                 (if correct then ft else ff) (if correct then ftf else fff) gf g).
  assert (Hw : feedbackText (if correct then ff else ft) (if correct then fff else ftf) f)
    by (now destruct correct).
  assert (Hr : feedbackText (if correct then ft else ff) (if correct then ftf else fff) f)
    by (now destruct correct).
  exists (join [LF] ((cl ++ [line]) ++ [[]; []])).
  split.
  - unfold exportGift. cbn [forEach]. unfold q at 1.
    rewrite writeOne_truefalse by assumption.
    fold q. fold line. cbn [bind join]. f_equal. rewrite <- app_assoc.
    rewrite <- Hjoin by discriminate. reflexivity.
  - rewrite parseGift_block.
    + unfold flush, line. rewrite truefalse_parsed by assumption.
      cbn zeta. rewrite Hmeta. cbn [fst snd bind app]. unfold q.
      destruct correct; reflexivity.
    + destruct cl; discriminate.
    + apply Forall_app. split; [exact Hbl|].
      constructor; [|constructor]. apply truefalseLine_line; assumption.
    + discriminate.
    + constructor; [reflexivity|]. constructor; [reflexivity|constructor].
Qed.

Lemma truefalse_roundtrip_witness :
  exists out,
    exportGift [truefalseQuestion "TF 1" "Is 2 + 2 = 4?" "moodle" false
                  "No: it is 4." "moodle" "" "moodle" "See <i>arithmetic</i>" "html"
                  "" [ "sums" : str ]] = Ok out
    /\ parseGift out
       = Ok [truefalseQuestion "TF 1" "Is 2 + 2 = 4?" "moodle" false
               "No: it is 4." "moodle" "" "moodle" "See <i>arithmetic</i>" "html"
               "" [ "sums" : str ]].
Proof.
  apply (truefalse_roundtrip "TF 1" "Is 2 + 2 = 4?" "moodle" false
           "No: it is 4." "moodle" "" "moodle" "See <i>arithmetic</i>" "html"
           "" [ "sums" : str ]).
  - vm_compute. tauto.
  - repeat split; (vm_compute; reflexivity) || discriminate.
  - vm_compute. reflexivity.
  - repeat split; (vm_compute; reflexivity) || discriminate.
  - vm_compute. reflexivity.
  - reflexivity.
  - right. split; [repeat split; (vm_compute; reflexivity) || discriminate|].
    split; [vm_compute; reflexivity|]. split; [vm_compute; tauto|reflexivity].
  - left. split; reflexivity.
  - right. split; [repeat split; (vm_compute; reflexivity) || discriminate|].
    split; [vm_compute; reflexivity|]. split; [vm_compute; tauto|discriminate].
  - split; vm_compute; reflexivity.
  - repeat (constructor; [split; [split; vm_compute; reflexivity|discriminate]|]).
    constructor.
Defined.

(** *** The errors of the parser *)

Lemma findBraces_error text0 e :
  findBraces text0 = Err e -> e = BraceError (escapedcharPost text0).
Proof.
  unfold findBraces.
  destruct (_ && _); [discriminate|]. destruct (_ || _); [|discriminate].
  now intros [= <-].
Qed.

Lemma parseBody_error comments name text0 e :
  parseBody comments name text0 = Err e -> parseError e = true.
Proof.
  destruct (findBraces text0) as [[|s f]|e'] eqn:Hb.
  - unfold parseBody. rewrite Hb. cbn [bind].
    destruct (splitGeneralFeedback _). destruct (isEmpty name); discriminate.
  - destruct (parseBody_answers comments name text0 s f Hb) as (q0 & _ & ->).
    destruct (isEmpty _); [discriminate|].
    intros H%parseAnswers_error; [|reflexivity].
    destruct e; try discriminate H; reflexivity.
  - unfold parseBody. rewrite Hb. cbn [bind]. intros [= <-].
    apply findBraces_error in Hb as ->. reflexivity.
Qed.

Lemma parseQuestion_error lines e :
  parseQuestion lines = Err e -> parseError e = true.
Proof.
  unfold parseQuestion.
  destruct (separateComments lines) as [comments work].
  destruct (isEmpty _); [discriminate|].
  destruct (isCategory _); [discriminate|].
  destruct (takeName _) as [name text0].
  destruct (parseBody comments name text0) as [q|e'] eqn:Hq; cbn [bind];
    [discriminate|].
  intros [= <-]. eapply parseBody_error, Hq.
Qed.

(** X25.  When [parseGift] fails, the error is the brace error or one of the
    errors of the answer parsers, and it is the error of one of the blocks
    of the input.  The error of the last case of the [switch] on the type,
    [Unhandled qtype], never comes out, and no [TypeError] does. *)
Theorem parse_errors (input : str) (e : error) :
  parseGift input = Err e ->
  parseError e = true
  /\ exists block, In block (blocks input) /\ parseQuestion block = Err e.
Proof.
  unfold parseGift, blocks. rewrite parseLines_blocks.
  generalize (blocksFrom (Str.split (normalizeNewlines input) [LF]) []).
  intros bs.
  destruct (parseBlocks_spec bs [])
    as [(results & _ & ->)|(before & b & after & e' & -> & _ & Hb & ->)];
    [discriminate|].
  intros [= <-]. split; [eapply parseQuestion_error, Hb|].
  exists b. split; [|exact Hb]. apply in_or_app. right. now left.
Qed.

Lemma parse_errors_witness :
  parseError MatchNoArrow = true
  /\ exists block,
       In block (blocks ("Q1 {T}" ++ [LF; LF] ++ "Pairs {=a -> b =c}"))
       /\ parseQuestion block = Err MatchNoArrow.
Proof.
  apply (parse_errors ("Q1 {T}" ++ [LF; LF] ++ "Pairs {=a -> b =c}")).
  vm_compute. reflexivity.
Defined.
